(** * jumbo.cli: command orchestration and project-init configurers

  A shallow embedding of
    - application/solution/UnprimedBrownfieldQualifier.ts
    - the AddGoalCommandHandler (add goal with optional chaining)
    - infrastructure/project-knowledge/project/init/SafeGeminiSettingsMerger.ts
    - the Gemini, Copilot and Cursor configurers
    - the namespace migrations table (getNamespaceMigrations)
  together with the properties the specification states about them and
  further properties the code shows.

  Asynchronous code is sequential inside one command (every call is
  awaited), so a method is a state transformer that either returns a value
  or throws. *)

From Stdlib Require Import ZArith List Ascii String Bool Lia.
From stdpp Require Import base tactics option list strings gmap pretty.

Set Warnings "-register-all".
Local Open Scope string_scope.
Local Open Scope list_scope.

(** ** JavaScript values, errors and sequential programs *)

Module Js.

(** Values as the handlers see them at run time.  Objects keep their keys
    in insertion order.  Numbers are restricted to integers, which is all
    the modelled code ever inspects. *)
Inductive JsValue : Type :=
| JsUndefined
| JsNull
| JsBool (b : bool)
| JsNumber (n : Z)
| JsString (s : string)
| JsArray (items : list JsValue)
| JsObject (props : list (string * JsValue)).

(** ToBoolean: what [if (v)], [!v], [a || b] and [c ? x : y] look at. *)
Definition truthy (v : JsValue) : bool :=
  match v with
  | JsUndefined | JsNull => false
  | JsBool b => b
  | JsNumber n => negb (n =? 0)%Z
  | JsString s => negb (String.eqb s "")
  | JsArray _ | JsObject _ => true
  end.

(** [a || b] *)
Definition js_or (a b : JsValue) : JsValue := if truthy a then a else b.

(** ToBoolean of a [string | undefined]. *)
Definition truthy_string (v : option string) : bool :=
  match v with
  | Some s => negb (String.eqb s "")
  | None => false
  end.

(** [new Error(message)] *)
Inductive JsError : Type := Error (message : string).

Definition message (e : JsError) : string := let 'Error m := e in m.

Inductive Outcome (A : Type) : Type :=
| Returned (a : A)
| Thrown (e : JsError).
Global Arguments Returned {A} a.
Global Arguments Thrown {A} e.

(** A method body run over the state [St] of everything it can touch. *)
Definition Prog (St A : Type) : Type := St -> Outcome A * St.

Definition ret {St A} (a : A) : Prog St A := fun s => (Returned a, s).

Definition bind {St A B} (m : Prog St A) (k : A -> Prog St B) : Prog St B :=
  fun s =>
    match m s with
    | (Returned a, s') => k a s'
    | (Thrown e, s') => (Thrown e, s')
    end.

(** [throw e] *)
Definition throw {St A} (e : JsError) : Prog St A := fun s => (Thrown e, s).

(** [try { body } catch (error) { handler }]: state changes made by the
    body before it threw are kept. *)
Definition try_catch {St A} (body : Prog St A) (handler : JsError -> Prog St A)
  : Prog St A :=
  fun s =>
    match body s with
    | (Returned a, s') => (Returned a, s')
    | (Thrown e, s') => handler e s'
    end.

(** A pure computation that may throw, run inside a program. *)
Definition lift {St A} (o : Outcome A) : Prog St A := fun s => (o, s).

Definition when {St} (c : bool) (m : Prog St unit) : Prog St unit :=
  if c then m else ret tt.

Global Instance outcome_ret : MRet Outcome := @Returned.
Global Instance outcome_bind : MBind Outcome := fun A B k o =>
  match o with
  | Returned a => k a
  | Thrown e => Thrown e
  end.

(** [for (const x of l) { body }] where the body may throw. *)
Fixpoint for_each {A} (body : A -> Outcome unit) (l : list A) : Outcome unit :=
  match l with
  | [] => Returned tt
  | x :: rest =>
      match body x with
      | Returned _ => for_each body rest
      | Thrown e => Thrown e
      end
  end.

Global Instance prog_ret {St} : MRet (Prog St) := @ret St.
Global Instance prog_bind {St} : MBind (Prog St) := fun A B k m => bind m k.

(** The method returns normally (does not throw) from state [s]. *)
Definition returns {St A} (m : Prog St A) (s : St) : Prop :=
  exists a s', m s = (Returned a, s').

(** *** Objects as ordered property lists *)

Fixpoint lookup_prop (key : string) (props : list (string * JsValue)) : option JsValue :=
  match props with
  | [] => None
  | (k, v) :: rest => if String.eqb k key then Some v else lookup_prop key rest
  end.

(** [obj[key] = v]: an existing key keeps its place, a new key goes last. *)
Fixpoint assign_prop (key : string) (v : JsValue) (props : list (string * JsValue))
  : list (string * JsValue) :=
  match props with
  | [] => [(key, v)]
  | (k, old) :: rest =>
      if String.eqb k key then (k, v) :: rest else (k, old) :: assign_prop key v rest
  end.

(** [v.key] for the keys the modelled code reads (hooks, SessionStart,
    matcher, type, command, the goal's fields): none of them is a built-in
    property of arrays, strings, numbers or booleans, so reading them off
    such a value gives undefined; reading them off null or undefined throws
    a TypeError. *)
Definition getProp (v : JsValue) (key : string) : Outcome JsValue :=
  match v with
  | JsUndefined =>
      Thrown (Error ("Cannot read properties of undefined (reading '" +:+ key +:+ "')"))
  | JsNull =>
      Thrown (Error ("Cannot read properties of null (reading '" +:+ key +:+ "')"))
  | JsObject props => Returned (default JsUndefined (lookup_prop key props))
  | _ => Returned JsUndefined
  end.

(** [v?.key] *)
Definition getPropOpt (v : JsValue) (key : string) : JsValue :=
  match v with
  | JsObject props => default JsUndefined (lookup_prop key props)
  | _ => JsUndefined
  end.

(** The elements of an array value (nothing for any other value). *)
Definition elements_of (v : JsValue) : list JsValue :=
  match v with JsArray items => items | _ => [] end.

(** [{...v}]: the own enumerable properties of an object or array, in
    order. *)
Definition spread (v : JsValue) : list (string * JsValue) :=
  match v with
  | JsObject props => props
  | JsArray items => imap (fun i item => (pretty i, item)) items
  | _ => []
  end.

(** [target.key = v].  A property set on an array would not be serialised,
    so only objects record it. *)
Definition setProp (target : JsValue) (key : string) (v : JsValue) : JsValue :=
  match target with
  | JsObject props => JsObject (assign_prop key v props)
  | _ => target
  end.

(** [a ?? b] *)
Definition nullish_or (a b : JsValue) : JsValue :=
  match a with
  | JsUndefined | JsNull => b
  | _ => a
  end.

(** [typeof v === "object"] (true of null as well) *)
Definition typeof_object (v : JsValue) : bool :=
  match v with
  | JsNull | JsArray _ | JsObject _ => true
  | _ => false
  end.

Definition is_null (v : JsValue) : bool :=
  match v with JsNull => true | _ => false end.

Definition is_undefined (v : JsValue) : bool :=
  match v with JsUndefined => true | _ => false end.

(** [typeof v === "string"] *)
Definition typeof_string (v : JsValue) : bool :=
  match v with JsString _ => true | _ => false end.

(** [v === s] for a string literal [s] *)
Definition strict_eq_string (v : JsValue) (s : string) : bool :=
  match v with JsString s' => String.eqb s' s | _ => false end.

(** *** String methods

    A string is the sequence of bytes of a text read as UTF-8.  On ASCII
    text [trimStart], [trimEnd] and [trim] are String.prototype.trimStart,
    trimEnd and trim: the white space of ASCII is space, tab, line feed,
    vertical tab, form feed and carriage return.  JavaScript trims the white
    space outside ASCII as well (U+00A0, U+FEFF, the Unicode space
    separators); that part is not recognised here, so what is stated about
    a trimmed text is stated for ASCII text ([isAscii]). *)

(** Every byte of [s] is an ASCII character. *)
Definition isAscii (s : string) : bool :=
  forallb (fun c => (nat_of_ascii c <? 128)%nat) (list_ascii_of_string s).

Definition is_white_space (c : ascii) : bool :=
  let n := nat_of_ascii c in
  (n =? 32)%nat || ((9 <=? n)%nat && (n <=? 13)%nat).

Fixpoint trimStart (s : string) : string :=
  match s with
  | String c rest => if is_white_space c then trimStart rest else s
  | EmptyString => EmptyString
  end.

Fixpoint string_rev_onto (s acc : string) : string :=
  match s with
  | String c rest => string_rev_onto rest (String c acc)
  | EmptyString => acc
  end.

Definition string_rev (s : string) : string := string_rev_onto s EmptyString.

Definition trimEnd (s : string) : string := string_rev (trimStart (string_rev s)).

Definition trim (s : string) : string := trimStart (trimEnd s).

(** [s.includes(sub)] *)
Fixpoint includes (s sub : string) : bool :=
  String.prefix sub s ||
  match s with
  | String _ rest => includes rest sub
  | EmptyString => false
  end.

End Js.
Import Js.

(** ** application/solution/UnprimedBrownfieldQualifier.ts *)

Module UnprimedBrownfieldQualifier.
Section Qualifier.

(** The views are opaque to the qualifier. *)
Context {World ArchitectureView ComponentView DecisionView
         InvariantView GuidelineView : Type}.

(** application/solution/SolutionContextView.ts *)
Record SolutionContextView : Type := {
  architecture : option ArchitectureView;   (* ArchitectureView | null *)
  components : list ComponentView;
  decisions : list DecisionView;
  invariants : list InvariantView;
  guidelines : list GuidelineView
}.

(** [solutionContextReader] is the constructor's parameter, seen through its
    one method, ISolutionContextReader.getSolutionContext. *)
Definition isUnprimed (solutionContextReader : Prog World SolutionContextView)
  : Prog World bool :=
  context ← solutionContextReader;
  let hasArchitecture := match architecture context with Some _ => true | None => false end in
  let hasComponents := (0 <? length (components context))%nat in
  let hasDecisions := (0 <? length (decisions context))%nat in
  let hasInvariants := (0 <? length (invariants context))%nat in
  let hasGuidelines := (0 <? length (guidelines context))%nat in
  let isPrimed :=
    hasArchitecture || hasComponents || hasDecisions || hasInvariants || hasGuidelines in
  mret (negb isPrimed).

End Qualifier.
End UnprimedBrownfieldQualifier.

(** ** The add-goal command handler (AddGoalCommandHandler) *)

Module AddGoal.

Declare Scope js_scope.
Infix "|||" := js_or (at level 50, left associativity) : js_scope.
Local Open Scope js_scope.

(** AddGoalCommand (./AddGoalCommand.js), as the handler uses it: it only
    tests the optional fields for truthiness and hands them on, so each is
    kept as a run-time value ([JsUndefined] when absent).  [previousGoalId]
    is handed to a [string] parameter. *)
Record AddGoalCommand : Type := {
  objective : JsValue;
  successCriteria : JsValue;
  scopeIn : JsValue;
  scopeOut : JsValue;
  boundaries : JsValue;
  relevantInvariants : JsValue;
  relevantGuidelines : JsValue;
  relevantDependencies : JsValue;
  relevantComponents : JsValue;
  architecture : JsValue;
  filesToBeCreated : JsValue;
  filesToBeChanged : JsValue;
  nextGoalId : JsValue;
  previousGoalId : option string
}.

(** The eight optional fields the embedded context is built from. *)
Definition embeddedFields (command : AddGoalCommand) : list (string * JsValue) :=
  [ ("relevantInvariants", relevantInvariants command);
    ("relevantGuidelines", relevantGuidelines command);
    ("relevantDependencies", relevantDependencies command);
    ("relevantComponents", relevantComponents command);
    ("architecture", architecture command);
    ("filesToBeCreated", filesToBeCreated command);
    ("filesToBeChanged", filesToBeChanged command);
    ("nextGoalId", nextGoalId command) ].

Definition hasEmbeddedContext (command : AddGoalCommand) : JsValue :=
  relevantInvariants command |||
  relevantGuidelines command |||
  relevantDependencies command |||
  relevantComponents command |||
  architecture command |||
  filesToBeCreated command |||
  filesToBeChanged command |||
  nextGoalId command.

Definition embeddedContext (command : AddGoalCommand) : JsValue :=
  if truthy (hasEmbeddedContext command)
  then JsObject (embeddedFields command)
  else JsUndefined.

(** What the handler imports: crypto's randomUUID, the Goal aggregate
    (domain/work/goals/Goal.js) as the handler calls it, and the error
    message table with its formatter (domain/work/goals/Constants.js).
    [add] and [update] take objective, successCriteria, scopeIn, scopeOut,
    boundaries and the embedded context, in this order. *)
Class Imports (World Event Aggregate : Type) : Type := {
  randomUUID : World -> string * World;
  Goal_create : string -> Aggregate;
  Goal_add :
    Aggregate -> JsValue -> JsValue -> JsValue -> JsValue -> JsValue -> JsValue
    -> Outcome Event;
  Goal_rehydrate : string -> list Event -> Outcome Aggregate;
  Goal_update :
    Aggregate -> JsValue -> JsValue -> JsValue -> JsValue -> JsValue -> JsValue
    -> Outcome Event;
  NOT_FOUND : string;
  formatErrorMessage : string -> list (string * string) -> string
}.

(** The constructor's parameters; the last three are optional.  [World] is
    the state behind the injected collaborators (event files, read models,
    subscribers, the random source). *)
Record Handler (World Event GoalView : Type) : Type := {
  eventWriter : Event -> Prog World unit;                          (* append *)
  eventBus : Event -> Prog World unit;                             (* publish *)
  updateEventWriter : option (Event -> Prog World unit);           (* append *)
  updateEventReader : option (string -> Prog World (list Event));  (* readStream *)
  goalReader : option (string -> Prog World (option GoalView))     (* findById *)
}.
Arguments eventWriter {World Event GoalView} _.
Arguments eventBus {World Event GoalView} _.
Arguments updateEventWriter {World Event GoalView} _.
Arguments updateEventReader {World Event GoalView} _.
Arguments goalReader {World Event GoalView} _.

(** What one execution does, in order: every call on a collaborator with
    its outcome, the arguments handed to the aggregate, and the entry into
    the chaining step. *)
Inductive Call (Event GoalView : Type) : Type :=
| CallGoalAdd (goalId : string)
    (objective successCriteria scopeIn scopeOut boundaries embeddedContext : JsValue)
| CallAppend (event : Event) (outcome : Outcome unit)
| CallPublish (event : Event) (outcome : Outcome unit)
| CallUpdatePrevious (previousGoalId newGoalId : string)
| CallFindById (goalId : string) (outcome : Outcome (option GoalView))
| CallReadStream (goalId : string) (outcome : Outcome (list Event))
| CallGoalRehydrate (goalId : string) (history : list Event)
| CallGoalUpdate (nextGoalId : string)
| CallUpdateAppend (event : Event) (outcome : Outcome unit).
Arguments CallGoalAdd {Event GoalView}.
Arguments CallAppend {Event GoalView}.
Arguments CallPublish {Event GoalView}.
Arguments CallUpdatePrevious {Event GoalView}.
Arguments CallFindById {Event GoalView}.
Arguments CallReadStream {Event GoalView}.
Arguments CallGoalRehydrate {Event GoalView}.
Arguments CallGoalUpdate {Event GoalView}.
Arguments CallUpdateAppend {Event GoalView}.

Record Run (World Event GoalView : Type) : Type := {
  world : World;
  trace : list (Call Event GoalView)
}.
Arguments Build_Run {World Event GoalView}.
Arguments world {World Event GoalView} _.
Arguments trace {World Event GoalView} _.

Section Handler.

Context {World Event Aggregate GoalView : Type} `{!Imports World Event Aggregate}.

Local Abbreviation Run := (Run World Event GoalView).
Local Abbreviation Handler := (Handler World Event GoalView).
Local Abbreviation Call := (Call Event GoalView).

Definition start (w : World) : Run := {| world := w; trace := [] |}.

Definition note (c : Call) : Prog Run unit :=
  fun s => (Returned tt, {| world := world s; trace := trace s ++ [c] |}).

(** Awaits a collaborator and records the call with its outcome. *)
Definition await {A} (entry : Outcome A -> Call) (p : Prog World A) : Prog Run A :=
  fun s =>
    let '(o, w') := p (world s) in
    (o, {| world := w'; trace := trace s ++ [entry o] |}).

Definition fresh_uuid : Prog Run string :=
  fun s =>
    let '(u, w') := randomUUID (world s) in
    (Returned u, {| world := w'; trace := trace s |}).

(** [previousGoal.update(undefined, undefined, undefined, undefined,
    undefined, { nextGoalId: newGoalId })] *)
Definition linkEvent (previousGoal : Aggregate) (newGoalId : string) : Outcome Event :=
  Goal_update previousGoal
    JsUndefined JsUndefined JsUndefined JsUndefined JsUndefined
    (JsObject [("nextGoalId", JsString newGoalId)]).

(** [goal.add(command.objective, ..., embeddedContext)] on the new aggregate,
    and the record of that call. *)
Definition addEvent (command : AddGoalCommand) (goalId : string) : Outcome Event :=
  Goal_add (Goal_create goalId) (objective command) (successCriteria command)
    (scopeIn command) (scopeOut command) (boundaries command)
    (embeddedContext command).

Definition addCall (command : AddGoalCommand) (goalId : string) : Call :=
  CallGoalAdd goalId (objective command) (successCriteria command)
    (scopeIn command) (scopeOut command) (boundaries command)
    (embeddedContext command).

Definition updatePreviousGoalNextGoalId (this : Handler)
    (previousGoalId newGoalId : string) : Prog Run unit :=
  note (CallUpdatePrevious previousGoalId newGoalId);;
  match updateEventWriter this, updateEventReader this, goalReader this with
  | Some updateEventWriter, Some updateEventReader, Some goalReader =>
      existingGoal ← await (CallFindById previousGoalId) (goalReader previousGoalId);
      match existingGoal with
      | None =>
          throw (Error (formatErrorMessage NOT_FOUND [("goalId", previousGoalId)]))
      | Some _ =>
          history ← await (CallReadStream previousGoalId) (updateEventReader previousGoalId);
          note (CallGoalRehydrate previousGoalId history);;
          previousGoal ← lift (Goal_rehydrate previousGoalId history);
          note (CallGoalUpdate newGoalId);;
          updateEvent ← lift (linkEvent previousGoal newGoalId);
          await (CallUpdateAppend updateEvent) (updateEventWriter updateEvent);;
          await (CallPublish updateEvent) (eventBus this updateEvent)
      end
  | _, _, _ => throw (Error "Goal chaining dependencies not configured")
  end.

Definition execute (this : Handler) (command : AddGoalCommand) : Prog Run string :=
  uuid ← fresh_uuid;
  let goalId := "goal_" +:+ uuid in
  note (addCall command goalId);;
  event ← lift (addEvent command goalId);
  await (CallAppend event) (eventWriter this event);;
  await (CallPublish event) (eventBus this event);;
  match previousGoalId command with            (* if (command.previousGoalId) *)
  | Some previousGoalId =>
      when (truthy_string (Some previousGoalId))
        (updatePreviousGoalNextGoalId this previousGoalId goalId)
  | None => mret tt
  end;;
  mret goalId.

(** The id the handler generates when started in state [w]. *)
Definition newGoalId (w : World) : string := "goal_" +:+ (randomUUID w).1.

(** The outcome and the calls of one execution started in state [w]. *)
Definition outcomeOf (this : Handler) (command : AddGoalCommand) (w : World)
  : Outcome string :=
  (execute this command (start w)).1.

Definition callsOf (this : Handler) (command : AddGoalCommand) (w : World) : list Call :=
  trace (execute this command (start w)).2.

(** *** The runs of the handler

    The two errors the handler raises itself, and every shape an execution
    can take: the calls made, in order, with the outcome. *)

Definition chainingNotConfigured : JsError :=
  Error "Goal chaining dependencies not configured".

Definition goalNotFound (goalId : string) : JsError :=
  Error (formatErrorMessage NOT_FOUND [("goalId", goalId)]).

Definition chainingConfigured (this : Handler) : bool :=
  match updateEventWriter this, updateEventReader this, goalReader this with
  | Some _, Some _, Some _ => true
  | _, _, _ => false
  end.

(** The previous goal was found, its stream read and handed to rehydrate. *)
Definition foundAndRead (X : string) (view : GoalView) (history : list Event) : list Call :=
  [CallFindById X (Returned (Some view)); CallReadStream X (Returned history);
   CallGoalRehydrate X history].

(** What happens after [updatePreviousGoalNextGoalId(X, newId)] is entered. *)
Inductive chaining (this : Handler) (X newId : string)
  : list Call -> Outcome unit -> Prop :=
| chaining_unconfigured :
    chainingConfigured this = false ->
    chaining this X newId [] (Thrown chainingNotConfigured)
| chaining_find_failed e :
    chainingConfigured this = true ->
    chaining this X newId [CallFindById X (Thrown e)] (Thrown e)
| chaining_not_found :
    chainingConfigured this = true ->
    chaining this X newId [CallFindById X (Returned None)] (Thrown (goalNotFound X))
| chaining_read_failed view e :
    chainingConfigured this = true ->
    chaining this X newId
      [CallFindById X (Returned (Some view)); CallReadStream X (Thrown e)] (Thrown e)
| chaining_rehydrate_failed view history e :
    chainingConfigured this = true ->
    Goal_rehydrate X history = Thrown e ->
    chaining this X newId (foundAndRead X view history) (Thrown e)
| chaining_update_failed view history previousGoal e :
    chainingConfigured this = true ->
    Goal_rehydrate X history = Returned previousGoal ->
    linkEvent previousGoal newId = Thrown e ->
    chaining this X newId (foundAndRead X view history ++ [CallGoalUpdate newId]) (Thrown e)
| chaining_append_failed view history previousGoal updateEvent e :
    chainingConfigured this = true ->
    Goal_rehydrate X history = Returned previousGoal ->
    linkEvent previousGoal newId = Returned updateEvent ->
    chaining this X newId
      (foundAndRead X view history ++
       [CallGoalUpdate newId; CallUpdateAppend updateEvent (Thrown e)])
      (Thrown e)
| chaining_published view history previousGoal updateEvent outcome :
    chainingConfigured this = true ->
    Goal_rehydrate X history = Returned previousGoal ->
    linkEvent previousGoal newId = Returned updateEvent ->
    chaining this X newId
      (foundAndRead X view history ++
       [CallGoalUpdate newId; CallUpdateAppend updateEvent (Returned tt);
        CallPublish updateEvent outcome])
      outcome.

(** What [execute(command)] does once the new goal's id is drawn. *)
Inductive execution (this : Handler) (command : AddGoalCommand) (goalId : string)
  : list Call -> Outcome string -> Prop :=
| execution_add_failed e :
    addEvent command goalId = Thrown e ->
    execution this command goalId [addCall command goalId] (Thrown e)
| execution_append_failed event e :
    addEvent command goalId = Returned event ->
    execution this command goalId
      [addCall command goalId; CallAppend event (Thrown e)] (Thrown e)
| execution_publish_failed event e :
    addEvent command goalId = Returned event ->
    execution this command goalId
      [addCall command goalId; CallAppend event (Returned tt);
       CallPublish event (Thrown e)]
      (Thrown e)
| execution_unchained event :
    addEvent command goalId = Returned event ->
    truthy_string (previousGoalId command) = false ->
    execution this command goalId
      [addCall command goalId; CallAppend event (Returned tt);
       CallPublish event (Returned tt)]
      (Returned goalId)
| execution_chained event X calls outcome :
    addEvent command goalId = Returned event ->
    previousGoalId command = Some X ->
    X <> "" ->
    chaining this X goalId calls outcome ->
    execution this command goalId
      ([addCall command goalId; CallAppend event (Returned tt);
        CallPublish event (Returned tt); CallUpdatePrevious X goalId] ++ calls)
      (match outcome with
       | Returned _ => Returned goalId
       | Thrown e => Thrown e
       end).

(** The calls that belong to the chaining step. *)
Definition isChainingCall (c : Call) : bool :=
  match c with
  | CallUpdatePrevious _ _ | CallFindById _ _ | CallReadStream _ _
  | CallGoalRehydrate _ _ | CallGoalUpdate _ | CallUpdateAppend _ _ => true
  | _ => false
  end.

(** The calls on the writer of the new goal's stream. *)
Definition isAppend (c : Call) : bool :=
  match c with
  | CallAppend _ _ => true
  | _ => false
  end.

Definition isReadStream (c : Call) : bool :=
  match c with
  | CallReadStream _ _ => true
  | _ => false
  end.

Definition isUpdateAppend (c : Call) : bool :=
  match c with
  | CallUpdateAppend _ _ => true
  | _ => false
  end.

End Handler.
End AddGoal.

(** ** The Goal aggregate, the event store and the bus

    domain/work/goals/Goal.js and the infrastructure behind the handler's
    ports are not embedded from code; what follows is written from the
    specification, section by section. *)

Module Goal.

(** Modelled from the spec: DomainEvent, section 3 ("an immutable fact:
    { streamId, type, version, payload, timestamp }"). *)
Record DomainEvent : Type := {
  streamId : string;
  type : string;
  version : nat;
  payload : JsValue;
  timestamp : string
}.

(** Modelled from the spec: the states of section 4.3,
    "Created -> Added -> Updated*". *)
Inductive Lifecycle : Type := Created | Added | Updated.

(** Modelled from the spec: the aggregate of section 3, an in-memory
    projection of one stream: identity, the number of events folded so far,
    and its fields (objective, successCriteria, scopeIn, scopeOut,
    boundaries, nextGoalId, previousGoalId, ...) by name. *)
Record State : Type := {
  id : string;
  lifecycle : Lifecycle;
  folded : nat;
  fields : list (string * JsValue)
}.

(** Modelled from the spec: partial-update semantics of section 4.3 ("any
    field omitted (undefined) is left unchanged"): only the fields that are
    given are written. *)
Definition assign_defined (props fields : list (string * JsValue))
  : list (string * JsValue) :=
  fold_left (fun acc '(key, v) => if is_undefined v then acc else assign_prop key v acc)
    props fields.

(** Modelled from the spec: reading one field of the aggregate (section 3),
    undefined while no event has set it. *)
Definition field (g : State) (key : string) : JsValue :=
  default JsUndefined (lookup_prop key (fields g)).

(** Modelled from the spec: [create(id)], section 4.3 ("an aggregate with
    identity only, no events yet"). *)
Definition create (id : string) : State :=
  {| id := id; lifecycle := Created; folded := 0; fields := [] |}.

(** Modelled from the spec: the lifecycle fields of section 3, in the order
    [add] and [update] take them (section 4.3). *)
Definition lifecycle_fields
    (objective successCriteria scopeIn scopeOut boundaries : JsValue)
  : list (string * JsValue) :=
  [("objective", objective); ("successCriteria", successCriteria);
   ("scopeIn", scopeIn); ("scopeOut", scopeOut); ("boundaries", boundaries)].

(** Modelled from the spec: [add], section 4.3 ("validates required fields
    are present (fails with ValidationError naming the missing field) and
    returns exactly one event").  Every parameter but the embedded context
    is required; [now] is the clock reading stamped on the event. *)
Definition add (now : string) (g : State)
    (objective successCriteria scopeIn scopeOut boundaries embeddedContext : JsValue)
  : Outcome DomainEvent :=
  let required := lifecycle_fields objective successCriteria scopeIn scopeOut boundaries in
  match List.find (fun '(_, v) => is_undefined v) required with
  | Some (missing, _) => Thrown (Error ("ValidationError: " +:+ missing +:+ " is required"))
  | None =>
      Returned {| streamId := id g;
                  type := "GoalAddedEvent";
                  version := S (folded g);
                  payload := JsObject (assign_defined (required ++ spread embeddedContext) []);
                  timestamp := now |}
  end.

(** Modelled from the spec: [update], section 4.3 (a GoalUpdatedEvent on the
    aggregate's own stream whose payload carries the fields that were given
    and leaves out the omitted ones). *)
Definition update (now : string) (g : State)
    (objective successCriteria scopeIn scopeOut boundaries embeddedContext : JsValue)
  : Outcome DomainEvent :=
  let given := lifecycle_fields objective successCriteria scopeIn scopeOut boundaries in
  Returned {| streamId := id g;
              type := "GoalUpdatedEvent";
              version := S (folded g);
              payload := JsObject (assign_defined (given ++ spread embeddedContext) []);
              timestamp := now |}.

(** Modelled from the spec: CorruptHistoryError, sections 4.3 and 7. *)
Definition CorruptHistoryError (why : string) : JsError :=
  Error ("CorruptHistoryError: " +:+ why).

(** Modelled from the spec: one step of the left-to-right fold of
    [rehydrate], section 4.3 ("fails with CorruptHistoryError if an event
    type is unrecognized or out of order"); versions count up from 1 without
    gaps (section 3). *)
Definition apply (g : State) (e : DomainEvent) : Outcome State :=
  if negb (version e =? S (folded g))%nat
  then Thrown (CorruptHistoryError "event out of order")
  else
    let next (stage : Lifecycle) :=
      Returned {| id := id g; lifecycle := stage; folded := version e;
                  fields := assign_defined (spread (payload e)) (fields g) |} in
    if String.eqb (type e) "GoalAddedEvent" then
      match lifecycle g with
      | Created => next Added
      | _ => Thrown (CorruptHistoryError "event out of order")
      end
    else if String.eqb (type e) "GoalUpdatedEvent" then
      match lifecycle g with
      | Created => Thrown (CorruptHistoryError "event out of order")
      | _ => next Updated
      end
    else Thrown (CorruptHistoryError "unrecognized event type").

(** Modelled from the spec: [rehydrate(id, history)], section 4.3. *)
Definition rehydrate (id : string) (history : list DomainEvent) : Outcome State :=
  fold_left (fun acc e => g ← acc; apply g e) history (Returned (create id)).

(** The handler's imports with this aggregate behind them; the random
    source, the clock reading and the error table with its formatter stay
    open. *)
Definition specImports {World : Type} (randomUUID : World -> string * World)
    (now : string) (NOT_FOUND : string)
    (formatErrorMessage : string -> list (string * string) -> string)
  : AddGoal.Imports World DomainEvent State :=
  {| AddGoal.randomUUID := randomUUID;
     AddGoal.Goal_create := create;
     AddGoal.Goal_add := add now;
     AddGoal.Goal_rehydrate := rehydrate;
     AddGoal.Goal_update := update now;
     AddGoal.NOT_FOUND := NOT_FOUND;
     AddGoal.formatErrorMessage := formatErrorMessage |}.

End Goal.

Module InMemory.
Import Goal AddGoal.

(** Modelled from the spec: the state behind the ports of section 6: one
    append-only log per stream, the read model kept by the projector, whether
    the store can be reached, and the identifiers the random source will
    hand out. *)
Record World : Type := {
  streams : gmap string (list DomainEvent);
  readModel : gmap string State;
  available : bool;
  entropy : list string
}.

(** Modelled from the spec: the EventStream of section 3, empty for a
    stream identity that was never written. *)
Definition stream_of (w : World) (streamId : string) : list DomainEvent :=
  default [] (streams w !! streamId).

(** Modelled from the spec: [append], section 4.1 (ConcurrencyConflict when
    the event's version does not follow the stream's length,
    StoreUnavailable on I/O failure). *)
Definition append (e : DomainEvent) : Prog World unit :=
  fun w =>
    if negb (available w) then (Thrown (Error "StoreUnavailable"), w)
    else if negb (version e =? S (length (stream_of w (streamId e))))%nat
    then (Thrown (Error "ConcurrencyConflict"), w)
    else
      (Returned tt,
       {| streams := <[streamId e := stream_of w (streamId e) ++ [e]]> (streams w);
          readModel := readModel w; available := available w; entropy := entropy w |}).

(** Modelled from the spec: [readStream], section 4.1 ("returns the empty
    sequence for an unknown stream"). *)
Definition readStream (streamId : string) : Prog World (list DomainEvent) :=
  fun w => (Returned (stream_of w streamId), w).

(** Modelled from the spec: [publish], section 4.2, with the goal projector
    as the one subscriber; its failure is not caught. *)
Definition publish (e : DomainEvent) : Prog World unit :=
  fun w =>
    match apply (default (create (streamId e)) (readModel w !! streamId e)) e with
    | Returned g =>
        (Returned tt,
         {| streams := streams w; readModel := <[streamId e := g]> (readModel w);
            available := available w; entropy := entropy w |})
    | Thrown err => (Thrown err, w)
    end.

(** Modelled from the spec: [findById], section 6 ("returns null (not an
    error) when absent"). *)
Definition findById (goalId : string) : Prog World (option State) :=
  fun w => (Returned (readModel w !! goalId), w).

(** The random source: hands out the next identifier of [entropy]. *)
Definition nextUUID (w : World) : string * World :=
  match entropy w with
  | [] => ("", w)
  | u :: rest =>
      (u, {| streams := streams w; readModel := readModel w;
             available := available w; entropy := rest |})
  end.

(** A formatter and (below) a NOT_FOUND entry to run the handler with: the
    template followed by the values of the parameters. *)
Definition formatGoalId (template : string) (params : list (string * string)) : string :=
  template +:+ String.concat ", " (map snd params).

Definition imports (now : string) : Imports World DomainEvent State :=
  specImports nextUUID now "Goal not found: " formatGoalId.

(** A handler wired for chaining, and one without the optional collaborators. *)
Definition chainingHandler : Handler World DomainEvent State :=
  {| eventWriter := append;
     eventBus := publish;
     updateEventWriter := Some append;
     updateEventReader := Some readStream;
     goalReader := Some findById |}.

Definition plainHandler : Handler World DomainEvent State :=
  {| eventWriter := append;
     eventBus := publish;
     updateEventWriter := None;
     updateEventReader := None;
     goalReader := None |}.

Definition emptyWorld (uuids : list string) : World :=
  {| streams := ∅; readModel := ∅; available := true; entropy := uuids |}.

(** add goal: objective and success criteria given, empty scope lists. *)
Definition goalCommand (objective : string) (previousGoalId : option string)
  : AddGoalCommand :=
  {| objective := JsString objective;
     successCriteria := JsArray [JsString "done"];
     scopeIn := JsArray [];
     scopeOut := JsArray [];
     boundaries := JsArray [];
     relevantInvariants := JsUndefined;
     relevantGuidelines := JsUndefined;
     relevantDependencies := JsUndefined;
     relevantComponents := JsUndefined;
     architecture := JsUndefined;
     filesToBeCreated := JsUndefined;
     filesToBeChanged := JsUndefined;
     nextGoalId := JsUndefined;
     previousGoalId := previousGoalId |}.

End InMemory.

(** ** The file system, the console and the clock

    fs-extra as the configurers use it, over a table of the regular files
    and a set of the directories, both keyed by the path that path.join
    produces.  A path that holds a file is a regular file; a path of [dirs]
    that holds none is a directory.

    What makes an operation fail lies outside the table: permissions, a
    full disk, a regular file in the place of a directory.  [faults] brings
    it in: it is consumed one entry per operation, in order, and an
    exhausted list means that nothing else goes wrong.  A failing write may
    leave its target torn.  A property stated for every schedule of faults
    covers every way in which the operations can fail; a property stated for
    a disk without faults names, as hypotheses, the directories it needs to
    be there. *)

Module Fs.

Inductive Fault : Type :=
| Works
| Fails (e : JsError) (torn : option string).

Inductive FsCall : Type :=
| EnsureDir (dir : string)
| PathExists (path : string) (answer : bool)
| Copy (src dest : string)
| ReadFile (path : string)
| WriteFile (path : string) (content : string).

Record World : Type := {
  files : gmap string string;
  dirs : gset string;
  faults : list Fault;
  oplog : list (FsCall * option JsError);   (* every operation so far, with its error *)
  now : N;                                  (* Date.now() *)
  console : list string                     (* console.warn lines *)
}.

Definition set_files (f : gmap string string -> gmap string string) (w : World) : World :=
  {| files := f (files w); dirs := dirs w; faults := faults w; oplog := oplog w;
     now := now w; console := console w |}.

Definition set_dirs (f : gset string -> gset string) (w : World) : World :=
  {| files := files w; dirs := f (dirs w); faults := faults w; oplog := oplog w;
     now := now w; console := console w |}.

Definition logged (c : FsCall) (err : option JsError) (w : World) : World :=
  {| files := files w; dirs := dirs w; faults := faults w;
     oplog := oplog w ++ [(c, err)]; now := now w; console := console w |}.

Definition next_fault (w : World) : Fault * World :=
  match faults w with
  | [] => (Works, w)
  | f :: rest =>
      (f, {| files := files w; dirs := dirs w; faults := rest; oplog := oplog w;
             now := now w; console := console w |})
  end.

Definition tear (path : string) (torn : option string) (w : World) : World :=
  match torn with
  | Some partial => set_files <[path := partial]> w
  | None => w
  end.

Definition ENOENT (syscall path : string) : JsError :=
  Error ("ENOENT: no such file or directory, " +:+ syscall +:+ " '" +:+ path +:+ "'").

Definition EISDIR : JsError :=
  Error "EISDIR: illegal operation on a directory, read".

(** [fs.ensureDir(dir)].  Of the directories it makes only [dir] itself is
    recorded: the modelled code never asks for one of the others.  That it
    fails when something other than a directory is in its way is one of the
    faults. *)
Definition ensureDir (dir : string) : Prog World unit :=
  fun w =>
    match next_fault w with
    | (Works, w) => (Returned tt, logged (EnsureDir dir) None (set_dirs (union {[dir]}) w))
    | (Fails e _, w) => (Thrown e, logged (EnsureDir dir) (Some e) w)
    end.

(** [fs.pathExists(path)].  fs-extra answers with [fs.access(path)] turned
    into a boolean: an access that fails is the answer false, never an
    error, whether or not there is something at [path]. *)
Definition pathExists (path : string) : Prog World bool :=
  fun w =>
    match next_fault w with
    | (Works, w) =>
        let answer := match files w !! path with
                      | Some _ => true
                      | None => bool_decide (path ∈ dirs w)
                      end in
        (Returned answer, logged (PathExists path answer) None w)
    | (Fails _ _, w) => (Returned false, logged (PathExists path false) None w)
    end.

(** [fs.copy(src, dest)] of a regular file; an existing destination is
    overwritten.  fs-extra copies a directory as a tree, which the table of
    files does not follow: what is stated about the files that a copy leaves
    alone is stated for a source that is no directory. *)
Definition copy (src dest : string) : Prog World unit :=
  fun w =>
    match next_fault w with
    | (Works, w) =>
        match files w !! src with
        | Some content =>
            (Returned tt, logged (Copy src dest) None (set_files <[dest := content]> w))
        | None =>
            (Thrown (ENOENT "lstat" src),
             logged (Copy src dest) (Some (ENOENT "lstat" src)) w)
        end
    | (Fails e torn, w) => (Thrown e, logged (Copy src dest) (Some e) (tear dest torn w))
    end.

Definition readFile (path : string) : Prog World string :=
  fun w =>
    match next_fault w with
    | (Works, w) =>
        match files w !! path with
        | Some content => (Returned content, logged (ReadFile path) None w)
        | None =>
            let e := if bool_decide (path ∈ dirs w) then EISDIR else ENOENT "open" path in
            (Thrown e, logged (ReadFile path) (Some e) w)
        end
    | (Fails e _, w) => (Thrown e, logged (ReadFile path) (Some e) w)
    end.

(** [fs.writeFile(path, content)] into a directory that is there: the
    project root, or the directory that ensureDir has just made.  That it
    fails when that directory is missing, or when [path] is a directory, is
    one of the faults. *)
Definition writeFile (path content : string) : Prog World unit :=
  fun w =>
    match next_fault w with
    | (Works, w) =>
        (Returned tt, logged (WriteFile path content) None (set_files <[path := content]> w))
    | (Fails e torn, w) =>
        (Thrown e, logged (WriteFile path content) (Some e) (tear path torn w))
    end.

(** [console.warn(line)] *)
Definition console_warn (line : string) : Prog World unit :=
  fun w =>
    (Returned tt,
     {| files := files w; dirs := dirs w; faults := faults w; oplog := oplog w;
        now := now w; console := console w ++ [line] |}).

(** [Date.now()] *)
Definition Date_now : Prog World N := fun w => (Returned (now w), w).

(** *** path.join

    Node's [path.join] for POSIX paths: the segments that are not empty are
    put together with slashes and the result is normalised. *)

(** The parts of [path] between its slashes, empty ones included. *)
Fixpoint split_slash (path : string) : list string :=
  match path with
  | EmptyString => [EmptyString]
  | String c rest =>
      if Ascii.eqb c "/" then EmptyString :: split_slash rest
      else
        match split_slash rest with
        | part :: parts => String c part :: parts
        | [] => [String c EmptyString]
        end
  end.

(** One turn of the loop of normalizeString: [res] holds the parts kept so
    far, the last one first.  An empty part and [.] are dropped; [..] takes
    the last part away, or is kept when there is none to take and the path
    is relative. *)
Definition normalizeStep (allowAboveRoot : bool) (res : list string) (part : string)
  : list string :=
  if String.eqb part "" || String.eqb part "." then res
  else if String.eqb part ".." then
    match res with
    | [] => if allowAboveRoot then [".."] else []
    | last :: before =>
        if String.eqb last ".."
        then (if allowAboveRoot then ".." :: res else res)
        else before
    end
  else part :: res.

Definition normalizeString (allowAboveRoot : bool) (parts : list string) : list string :=
  rev (fold_left (normalizeStep allowAboveRoot) parts []).

Definition starts_with_slash (path : string) : bool :=
  match path with
  | String c _ => Ascii.eqb c "/"
  | EmptyString => false
  end.

Fixpoint ends_with_slash (path : string) : bool :=
  match path with
  | EmptyString => false
  | String c EmptyString => Ascii.eqb c "/"
  | String _ rest => ends_with_slash rest
  end.

(** [path.normalize(path)] *)
Definition normalize (path : string) : string :=
  if String.eqb path "" then "."
  else
    let isAbsolute := starts_with_slash path in
    let trailingSeparator := ends_with_slash path in
    let res := String.concat "/" (normalizeString (negb isAbsolute) (split_slash path)) in
    if String.eqb res ""
    then (if isAbsolute then "/" else if trailingSeparator then "./" else ".")
    else (if isAbsolute then "/" else "") +:+ res +:+ (if trailingSeparator then "/" else "").

(** [path.join(...segments)] *)
Definition path_join (segments : list string) : string :=
  match List.filter (fun arg => negb (String.eqb arg "")) segments with
  | [] => "."
  | args => normalize (String.concat "/" args)
  end.
Global Arguments path_join : simpl never.

(** The errors raised by file operations so far. *)
Definition failures (w : World) : list JsError :=
  omap snd (oplog w).

(** The file operations performed between state [w] and the later state [w']. *)
Definition opsSince (w w' : World) : list (FsCall * option JsError) :=
  drop (length (oplog w)) (oplog w').

(** What one file operation leaves behind in the log: its own entry, which
    carries the error exactly when the operation threw. *)
Definition ran {A} (call : FsCall) (w : World) (o : Outcome A) (w' : World) : Prop :=
  oplog w' = oplog w ++ [(call, match o with Returned _ => None | Thrown e => Some e end)].

(** The first error a file operation raised between [w] and [w'], if any. *)
Definition firstFailure (w w' : World) : option JsError :=
  head (omap snd (opsSince w w')).

(** A body inside [try]: it leaves the console alone, and when it returns
    normally no file operation has failed on the way. *)
Definition failFast {A} (m : Prog World A) : Prop :=
  forall w o w', m w = (o, w') ->
    console w' = console w /\
    (forall a, o = Returned a -> failures w' = failures w).

(** Graceful degradation: the method always returns normally, never takes a
    console line back, and has logged a warning whenever a file operation
    failed on the way. *)
Definition graceful (m : Prog World unit) : Prop :=
  forall w, exists w',
    m w = (Returned tt, w') /\
    length (console w) <= length (console w') /\
    (length (failures w) < length (failures w') ->
     length (console w) < length (console w')).

End Fs.

(** ** infrastructure/project-knowledge/project/init/SafeGeminiSettingsMerger.ts *)

Module SafeGeminiSettingsMerger.
Import Fs.

(** The JSON built-ins: [JSON.parse(text)] and [JSON.stringify(value, null, indent)]. *)
Class JSON : Type := {
  JSON_parse : string -> Outcome JsValue;
  JSON_stringify : JsValue -> nat -> string
}.

(** interface GeminiHook: [type] is always "command". *)
Record GeminiHook : Type := { command : string }.

(** "startup" | "resume" | "clear" | "compact" *)
Inductive MatcherKind : Type := startup | resume | clear | compact.

Definition matcher_name (k : MatcherKind) : string :=
  match k with
  | startup => "startup"
  | resume => "resume"
  | clear => "clear"
  | compact => "compact"
  end.

(** interface GeminiSessionStartMatcher *)
Record GeminiSessionStartMatcher : Type := {
  matcher : MatcherKind;
  hooks : list GeminiHook
}.

(** The [hooks] member of GeminiSettings. *)
Record GeminiHooks : Type := {
  SessionStart : option (list GeminiSessionStartMatcher)
}.

(** interface GeminiSettings ([settings_hooks] is its [hooks] member). *)
Record GeminiSettings : Type := { settings_hooks : option GeminiHooks }.

(** The run-time objects behind the typed values. *)
Definition hook_object (hook : GeminiHook) : JsValue :=
  JsObject [("type", JsString "command"); ("command", JsString (command hook))].

Definition matcher_object (m : GeminiSessionStartMatcher) : JsValue :=
  JsObject [("matcher", JsString (matcher_name (matcher m)));
            ("hooks", JsArray (map hook_object (hooks m)))].

Definition validateHook (hook : JsValue) : Outcome unit :=
  type ← getProp hook "type";
  if negb (strict_eq_string type "command")
  then Thrown (Error "Hook type must be 'command'")
  else
    command ← getProp hook "command";
    if negb (typeof_string command)
    then Thrown (Error "Hook command must be a string")
    else Returned tt.

Definition validateMatcher (matcher : JsValue) : Outcome unit :=
  name ← getProp matcher "matcher";
  if negb (truthy name) || negb (typeof_string name)
  then Thrown (Error "SessionStart matcher must have a matcher property")
  else
    hooks ← getProp matcher "hooks";
    match hooks with
    | JsArray hooks => for_each validateHook hooks
    | _ => Thrown (Error "SessionStart matcher.hooks must be an array")
    end.

(** The closing [JSON.stringify(settings)] probe only throws on cyclic
    structures and BigInt values, which a [JsValue] cannot be. *)
Definition validateSettings (settings : JsValue) : Outcome unit :=
  if negb (typeof_object settings) || is_null settings
  then Thrown (Error "Settings must be an object")
  else
    hooks ← getProp settings "hooks";
    if is_undefined hooks then Returned tt
    else if negb (typeof_object hooks) || is_null hooks
    then Thrown (Error "hooks must be an object")
    else
      sessionStart ← getProp hooks "SessionStart";
      match sessionStart with
      | JsUndefined => Returned tt
      | JsArray matchers => for_each validateMatcher matchers
      | _ => Thrown (Error "hooks.SessionStart must be an array")
      end.

Definition parseAndValidate `{JSON} (jsonString : string) : Outcome JsValue :=
  match (parsed ← JSON_parse jsonString; validateSettings parsed;; Returned parsed) with
  | Returned parsed => Returned parsed
  | Thrown error => Thrown (Error ("Invalid settings.json: " +:+ message error))
  end.

(** [deepMerge] and [mergeSessionStartHooks] are private and only ever see
    [{}] or a value that passed [validateSettings]; on those no property
    read can throw, which is why the merge is a total function. *)

(** [hook.command] as the key of the hook map. *)
Definition command_of (hook : JsValue) : string :=
  match getPropOpt hook "command" with
  | JsString s => s
  | _ => ""
  end.

(** [merged.findIndex(p)] *)
Fixpoint findIndex {A} (p : A -> bool) (l : list A) : option nat :=
  match l with
  | [] => None
  | x :: rest => if p x then Some 0 else S <$> findIndex p rest
  end.

(** The body of the [existingIndex >= 0] branch.  [hookMap] is a [Map]:
    setting a key that is present keeps its position and replaces its
    value, which is what [assign_prop] does. *)
Definition mergeMatcherHooks (existingMatcher : JsValue)
    (newMatcher : GeminiSessionStartMatcher) : JsValue :=
  let hookMap : list (string * JsValue) := [] in
  let hookMap :=
    fold_left (fun hookMap hook => assign_prop (command_of hook) hook hookMap)
      (elements_of (getPropOpt existingMatcher "hooks")) hookMap in
  let hookMap :=
    fold_left (fun hookMap hook => assign_prop (command hook) (hook_object hook) hookMap)
      (hooks newMatcher) hookMap in
  JsObject (assign_prop "hooks" (JsArray (map snd hookMap)) (spread existingMatcher)).

Definition mergeSessionStartHooks (existing : list JsValue)
    (additions : list GeminiSessionStartMatcher) : list JsValue :=
  fold_left
    (fun merged newMatcher =>
       match findIndex
               (fun m => strict_eq_string (getPropOpt m "matcher")
                           (matcher_name (matcher newMatcher)))
               merged with
       | Some existingIndex =>
           match merged !! existingIndex with
           | Some existingMatcher =>
               <[existingIndex := mergeMatcherHooks existingMatcher newMatcher]> merged
           | None => merged
           end
       | None => merged ++ [matcher_object newMatcher]
       end)
    additions existing.

Definition deepMerge (existing : JsValue) (newSettings : GeminiSettings) : JsValue :=
  let result := spread existing in
  match settings_hooks newSettings with
  | Some newHooks =>
      let resultHooks :=
        nullish_or (default JsUndefined (lookup_prop "hooks" result)) (JsObject []) in
      let result := assign_prop "hooks" resultHooks result in
      match SessionStart newHooks with
      | Some newSessionStart =>
          let existingSessionStart :=
            nullish_or (getPropOpt (getPropOpt existing "hooks") "SessionStart")
                       (JsArray []) in
          let merged :=
            mergeSessionStartHooks (elements_of existingSessionStart) newSessionStart in
          JsObject (assign_prop "hooks"
                      (setProp resultHooks "SessionStart" (JsArray merged)) result)
      | None => JsObject result
      end
  | None => JsObject result
  end.

Definition LF : string := String (ascii_of_nat 10) EmptyString.

Definition settingsPathOf (projectRoot : string) : string :=
  path_join [projectRoot; ".gemini"; "settings.json"].

Definition backupPathOf (projectRoot : string) (now : N) : string :=
  settingsPathOf projectRoot +:+ ".backup." +:+ pretty now.

(** STEP 2 to STEP 5, the body of the [try]. *)
Definition mergeAttempt `{JSON} (settingsPath : string) (newSettings : GeminiSettings)
  : Prog World unit :=
  fileExists ← pathExists settingsPath;
  existing ← (if fileExists : bool
              then content ← readFile settingsPath; lift (parseAndValidate content)
              else mret (JsObject []));
  let merged := deepMerge existing newSettings in
  lift (validateSettings merged);;
  writeFile settingsPath (JSON_stringify merged 2 +:+ LF).

(** STEP 7, the [catch] block. *)
Definition rollback (backupPath settingsPath : string) (error : JsError)
  : Prog World unit :=
  backupExists ← pathExists backupPath;
  when backupExists (copy backupPath settingsPath);;
  throw error.

(** Between [w] and [w'] the check of STEP 1 was answered before the
    backup was decided on: no check of the settings file came back false
    unless the copy to the backup had been attempted before it. *)
Definition backupDecided (settingsPath backupPath : string) (w w' : World) : Prop :=
  forall pre post,
    opsSince w w' = pre ++ (PathExists settingsPath false, None) :: post ->
    exists outcome, In (Copy settingsPath backupPath, outcome) pre.

(** Between [w] and [w'] neither operation of the [catch] block was
    hindered: no check of the backup came back false, and the copy of the
    backup over the settings file did not fail. *)
Definition rollbackUnhindered (backupPath settingsPath : string) (w w' : World) : Prop :=
  ~ In (PathExists backupPath false, None) (opsSince w w') /\
  forall err, ~ In (Copy backupPath settingsPath, Some err) (opsSince w w').

Definition mergeSettings `{JSON} (projectRoot : string) (newSettings : GeminiSettings)
  : Prog World unit :=
  let settingsPath := settingsPathOf projectRoot in
  timestamp ← Date_now;
  let backupPath := backupPathOf projectRoot timestamp in
  ensureDir (path_join [projectRoot; ".gemini"]);;
  fileExists ← pathExists settingsPath;
  when fileExists (copy settingsPath backupPath);;
  try_catch (mergeAttempt settingsPath newSettings)
            (rollback backupPath settingsPath).

End SafeGeminiSettingsMerger.

(** ** The per-assistant configurers *)

(** domain/project-knowledge/project/AgentInstructions.js: the four static
    text getters the configurers call; their texts stay open. *)
Class AgentInstructions : Type := {
  getAgentFileReference : string;
  getCopilotInstructions : string;
  getJumboSectionMarker : string;
  getJumboSection : string
}.

Module GeminiConfigurer.
Import Fs SafeGeminiSettingsMerger.

Definition ensureGeminiMd `{AgentInstructions} (projectRoot : string) : Prog World unit :=
  let geminiMdPath := path_join [projectRoot; "GEMINI.md"] in
  let reference := getAgentFileReference in
  try_catch
    (exists_ ← pathExists geminiMdPath;
     if negb exists_
     then writeFile geminiMdPath (trim reference +:+ LF)
     else
       content ← readFile geminiMdPath;
       if negb (includes content "AGENTS.md")
       then
         let updatedContent := trimEnd content +:+ LF +:+ reference in
         writeFile geminiMdPath updatedContent
       else mret tt)
    (fun error =>
       console_warn ("Warning: Failed to update GEMINI.md: " +:+ message error)).

(** The SessionStart hook for Jumbo. *)
Definition jumboHook : GeminiSettings :=
  {| settings_hooks := Some
       {| SessionStart := Some
            [ {| matcher := startup;
                 hooks := [ {| command := "jumbo session start" |} ] |} ] |} |}.

Definition ensureGeminiSettings `{JSON} (projectRoot : string) : Prog World unit :=
  try_catch
    (mergeSettings projectRoot jumboHook)
    (fun error =>
       console_warn ("Warning: Failed to configure Gemini CLI hook: " +:+ message error)).

Definition configure `{AgentInstructions} `{JSON} (projectRoot : string) : Prog World unit :=
  ensureGeminiMd projectRoot;;
  ensureGeminiSettings projectRoot.

End GeminiConfigurer.

Module CopilotConfigurer.
Import Fs SafeGeminiSettingsMerger.

Definition ensureCopilotInstructions `{AgentInstructions} (projectRoot : string)
  : Prog World unit :=
  let copilotInstructionsPath :=
    path_join [projectRoot; ".github"; "copilot-instructions.md"] in
  try_catch
    (ensureDir (path_join [projectRoot; ".github"]);;
     exists_ ← pathExists copilotInstructionsPath;
     if negb exists_
     then writeFile copilotInstructionsPath getCopilotInstructions
     else
       content ← readFile copilotInstructionsPath;
       let jumboMarker := getJumboSectionMarker in
       if negb (includes content jumboMarker)
       then
         let updatedContent := content +:+ LF +:+ LF +:+ getCopilotInstructions in
         writeFile copilotInstructionsPath updatedContent
       else mret tt)
    (fun error =>
       console_warn ("Warning: Failed to update .github/copilot-instructions.md: "
                     +:+ message error)).

Definition configure `{AgentInstructions} (projectRoot : string) : Prog World unit :=
  ensureCopilotInstructions projectRoot.

End CopilotConfigurer.

Module CursorConfigurer.
Import Fs SafeGeminiSettingsMerger.

Definition ensureCursorMd `{AgentInstructions} (projectRoot : string) : Prog World unit :=
  let cursorMdPath := path_join [projectRoot; "CURSOR.md"] in
  let reference := getAgentFileReference in
  try_catch
    (exists_ ← pathExists cursorMdPath;
     if negb exists_
     then writeFile cursorMdPath (trim reference +:+ LF)
     else
       content ← readFile cursorMdPath;
       if negb (includes content "AGENTS.md")
       then
         let updatedContent := trimEnd content +:+ LF +:+ reference in
         writeFile cursorMdPath updatedContent
       else mret tt)
    (fun error =>
       console_warn ("Warning: Failed to update CURSOR.md: " +:+ message error)).

Definition getJumboRuleContent `{AgentInstructions} : string :=
  let frontmatter :=
    "---" +:+ LF +:+
    "description: Jumbo context management instructions" +:+ LF +:+
    "alwaysApply: true" +:+ LF +:+
    "---" +:+ LF +:+ LF in
  frontmatter +:+ getJumboSection.

Definition ensureCursorRule `{AgentInstructions} (projectRoot : string) : Prog World unit :=
  let ruleDir := path_join [projectRoot; ".cursor"; "rules"; "jumbo"] in
  let rulePath := path_join [ruleDir; "RULE.md"] in
  try_catch
    (ensureDir ruleDir;;
     exists_ ← pathExists rulePath;
     if negb exists_
     then
       let ruleContent := getJumboRuleContent in
       writeFile rulePath ruleContent
     else
       content ← readFile rulePath;
       let jumboMarker := getJumboSectionMarker in
       if negb (includes content jumboMarker)
       then
         let ruleContent := getJumboRuleContent in
         writeFile rulePath ruleContent
       else mret tt)
    (fun error =>
       console_warn ("Warning: Failed to update .cursor/rules/jumbo/RULE.md: "
                     +:+ message error)).

Definition configure `{AgentInstructions} (projectRoot : string) : Prog World unit :=
  ensureCursorMd projectRoot;;
  ensureCursorRule projectRoot.

End CursorConfigurer.

(** ** A JSON codec to run the merger with

    Parsing and printing of the JSON texts a settings file holds: objects,
    arrays, strings, integers, true, false and null.  Fractions, exponents
    and escapes of characters outside ASCII are not read. *)

Module MiniJson.
Import SafeGeminiSettingsMerger.

Local Open Scope char_scope.

Definition DQ : ascii := "034".
Definition BACKSLASH : ascii := "092".

Definition hex_digit (n : nat) : ascii :=
  ascii_of_nat (if (n <? 10)%nat then 48 + n else 87 + n).

Fixpoint escape (s : string) : string :=
  match s with
  | EmptyString => EmptyString
  | String c rest =>
      let n := nat_of_ascii c in
      if Ascii.eqb c DQ then String BACKSLASH (String DQ (escape rest))
      else if Ascii.eqb c BACKSLASH then String BACKSLASH (String BACKSLASH (escape rest))
      else if (n =? 8)%nat then String BACKSLASH (String "b" (escape rest))
      else if (n =? 9)%nat then String BACKSLASH (String "t" (escape rest))
      else if (n =? 10)%nat then String BACKSLASH (String "n" (escape rest))
      else if (n =? 12)%nat then String BACKSLASH (String "f" (escape rest))
      else if (n =? 13)%nat then String BACKSLASH (String "r" (escape rest))
      else if (n <? 32)%nat
      then String BACKSLASH (String "u" (String "0" (String "0"
             (String (hex_digit (n / 16)) (String (hex_digit (n mod 16)) (escape rest))))))
      else String c (escape rest)
  end.

Definition quote (s : string) : string :=
  String DQ (escape s +:+ String DQ EmptyString).

Definition spaces (n : nat) : string := String.concat "" (repeat " "%string n).

(** Joins the members of an array or object between its brackets. *)
Definition bracketed (opening closing : string) (indent depth : nat) (members : list string)
  : string :=
  match members with
  | [] => opening +:+ closing
  | _ =>
      if (indent =? 0)%nat
      then opening +:+ String.concat "," members +:+ closing
      else
        let inner := LF +:+ spaces (indent * S depth) in
        opening +:+ inner +:+ String.concat ("," +:+ inner) members
        +:+ LF +:+ spaces (indent * depth) +:+ closing
  end.

Fixpoint serialize (indent depth : nat) (v : JsValue) : string :=
  match v with
  | JsUndefined | JsNull => "null"
  | JsBool true => "true"
  | JsBool false => "false"
  | JsNumber n => pretty n
  | JsString s => quote s
  | JsArray items =>
      bracketed "[" "]" indent depth (map (serialize indent (S depth)) items)
  | JsObject props =>
      bracketed "{" "}" indent depth
        (flat_map
           (fun '(key, member) =>
              match member with
              | JsUndefined => []
              | _ =>
                  [quote key +:+ (if (indent =? 0)%nat then ":" else ": ")
                   +:+ serialize indent (S depth) member]
              end)
           props)
  end%string.

Definition stringify (v : JsValue) (indent : nat) : string := serialize indent 0 v.

Definition is_json_space (c : ascii) : bool :=
  let n := nat_of_ascii c in
  (n =? 32)%nat || (n =? 9)%nat || (n =? 10)%nat || (n =? 13)%nat.

Fixpoint skip_ws (s : string) : string :=
  match s with
  | String c rest => if is_json_space c then skip_ws rest else s
  | EmptyString => EmptyString
  end.

Definition is_digit (c : ascii) : bool :=
  let n := nat_of_ascii c in (48 <=? n)%nat && (n <=? 57)%nat.

Definition hex_value (c : ascii) : option nat :=
  let n := nat_of_ascii c in
  if (48 <=? n)%nat && (n <=? 57)%nat then Some (n - 48)
  else if (97 <=? n)%nat && (n <=? 102)%nat then Some (n - 87)
  else if (65 <=? n)%nat && (n <=? 70)%nat then Some (n - 55)
  else None.

(** The characters of a string literal after its opening quote; [acc] holds
    what was read, last character first. *)
Fixpoint parse_chars (s : string) (acc : string) : option (string * string) :=
  match s with
  | EmptyString => None
  | String c rest =>
      if Ascii.eqb c DQ then Some (string_rev acc, rest)
      else if Ascii.eqb c BACKSLASH then
        match rest with
        | String "u" (String a (String b (String c (String d rest')))) =>
            match hex_value a, hex_value b, hex_value c, hex_value d with
            | Some 0, Some 0, Some h, Some l =>
                if (h <? 8)%nat
                then parse_chars rest' (String (ascii_of_nat (16 * h + l)) acc)
                else None
            | _, _, _, _ => None
            end
        | String e rest' =>
            let unescaped :=
              if Ascii.eqb e DQ then Some DQ
              else if Ascii.eqb e BACKSLASH then Some BACKSLASH
              else match e with
                   | "/" => Some "/"
                   | "b" => Some "008"
                   | "t" => Some "009"
                   | "n" => Some "010"
                   | "f" => Some "012"
                   | "r" => Some "013"
                   | _ => None
                   end in
            match unescaped with
            | Some u => parse_chars rest' (String u acc)
            | None => None
            end
        | EmptyString => None
        end
      else if (nat_of_ascii c <? 32)%nat then None
      else parse_chars rest (String c acc)
  end.

Fixpoint parse_digits (s : string) (acc : Z) : Z * string :=
  match s with
  | String c rest =>
      if is_digit c
      then parse_digits rest (10 * acc + Z.of_nat (nat_of_ascii c - 48))%Z
      else (acc, s)
  | EmptyString => (acc, s)
  end.

Definition starts_number (s : string) : bool :=
  match s with
  | String c _ => is_digit c
  | EmptyString => false
  end.

(** After a number no fraction or exponent may follow. *)
Definition ends_number (s : string) : bool :=
  match s with
  | String "." _ | String "e" _ | String "E" _ => false
  | _ => true
  end.

Fixpoint parse_elements (fuel : nat) (value : string -> option (JsValue * string))
    (s : string) (acc : list JsValue) : option (JsValue * string) :=
  match fuel with
  | O => None
  | S fuel =>
      match value s with
      | Some (v, rest) =>
          match skip_ws rest with
          | String "," rest' => parse_elements fuel value rest' (acc ++ [v])
          | String "]" rest' => Some (JsArray (acc ++ [v]), rest')
          | _ => None
          end
      | None => None
      end
  end.

Fixpoint parse_members (fuel : nat) (value : string -> option (JsValue * string))
    (s : string) (acc : list (string * JsValue)) : option (JsValue * string) :=
  match fuel with
  | O => None
  | S fuel =>
      match skip_ws s with
      | String q rest =>
          if Ascii.eqb q DQ then
            match parse_chars rest EmptyString with
            | Some (key, rest) =>
                match skip_ws rest with
                | String ":" rest =>
                    match value rest with
                    | Some (v, rest) =>
                        match skip_ws rest with
                        | String "," rest' =>
                            parse_members fuel value rest' (assign_prop key v acc)
                        | String "}" rest' => Some (JsObject (assign_prop key v acc), rest')
                        | _ => None
                        end
                    | None => None
                    end
                | _ => None
                end
            | None => None
            end
          else None
      | EmptyString => None
      end
  end.

Fixpoint parse_value (fuel : nat) (s : string) : option (JsValue * string) :=
  match fuel with
  | O => None
  | S fuel =>
      match skip_ws s with
      | String "{" rest =>
          match skip_ws rest with
          | String "}" rest' => Some (JsObject [], rest')
          | _ => parse_members fuel (parse_value fuel) rest []
          end
      | String "[" rest =>
          match skip_ws rest with
          | String "]" rest' => Some (JsArray [], rest')
          | _ => parse_elements fuel (parse_value fuel) rest []
          end
      | String "n" (String "u" (String "l" (String "l" rest))) => Some (JsNull, rest)
      | String "t" (String "r" (String "u" (String "e" rest))) => Some (JsBool true, rest)
      | String "f" (String "a" (String "l" (String "s" (String "e" rest)))) =>
          Some (JsBool false, rest)
      | String "-" rest =>
          if starts_number rest
          then let '(n, rest') := parse_digits rest 0 in
               if ends_number rest' then Some (JsNumber (- n), rest') else None
          else None
      | String c rest =>
          if Ascii.eqb c DQ then
            match parse_chars rest EmptyString with
            | Some (str, rest') => Some (JsString str, rest')
            | None => None
            end
          else if is_digit c
          then let '(n, rest') := parse_digits (String c rest) 0 in
               if ends_number rest' then Some (JsNumber n, rest') else None
          else None
      | EmptyString => None
      end
  end.

Definition parse (text : string) : Outcome JsValue :=
  match parse_value (S (String.length text)) text with
  | Some (v, rest) =>
      match skip_ws rest with
      | EmptyString => Returned v
      | _ => Thrown (Error "Unexpected non-whitespace character after JSON")
      end
  | None => Thrown (Error "Unexpected token in JSON")
  end.

Definition codec : JSON := {| JSON_parse := parse; JSON_stringify := stringify |}.

End MiniJson.

(** ** Concrete projects and commands

    The inputs the examples below are run on. *)

Module Scenario.

(** *** Solution contexts *)

Definition nothingRecorded
  : @UnprimedBrownfieldQualifier.SolutionContextView string string string string string :=
  {| UnprimedBrownfieldQualifier.architecture := None;
     UnprimedBrownfieldQualifier.components := [];
     UnprimedBrownfieldQualifier.decisions := [];
     UnprimedBrownfieldQualifier.invariants := [];
     UnprimedBrownfieldQualifier.guidelines := [] |}.

Definition oneDecision
  : @UnprimedBrownfieldQualifier.SolutionContextView string string string string string :=
  {| UnprimedBrownfieldQualifier.architecture := None;
     UnprimedBrownfieldQualifier.components := [];
     UnprimedBrownfieldQualifier.decisions := ["use event sourcing"];
     UnprimedBrownfieldQualifier.invariants := [];
     UnprimedBrownfieldQualifier.guidelines := [] |}.

(** *** Goals *)

Definition goalImports : AddGoal.Imports InMemory.World Goal.DomainEvent Goal.State :=
  InMemory.imports "2026-01-01T00:00:00.000Z".

(** One run of the handler over the in-memory store. *)
Definition run (this : AddGoal.Handler InMemory.World Goal.DomainEvent Goal.State)
    (command : AddGoal.AddGoalCommand) (w : InMemory.World)
  : Outcome string * AddGoal.Run InMemory.World Goal.DomainEvent Goal.State :=
  @AddGoal.execute _ _ _ _ goalImports this command (AddGoal.start w).

(** The store after goal A was added: stream goal_a holds one event. *)
Definition worldWithA : InMemory.World :=
  AddGoal.world
    (run InMemory.chainingHandler (InMemory.goalCommand "A" None)
       (InMemory.emptyWorld ["a"; "b"; "c"])).2.

(** A store that cannot be reached. *)
Definition storeDown : InMemory.World :=
  {| InMemory.streams := ∅; InMemory.readModel := ∅;
     InMemory.available := false; InMemory.entropy := ["a"] |}.

(** add goal B after A; add goal C after a goal that does not exist; add a
    goal with an empty previousGoalId; add a goal whose only optional field
    is an empty nextGoalId. *)
Definition addBafterA : AddGoal.AddGoalCommand :=
  InMemory.goalCommand "B" (Some "goal_a").

Definition addCafterNothing : AddGoal.AddGoalCommand :=
  InMemory.goalCommand "C" (Some "goal_nonexistent").

Definition addWithEmptyPrevious : AddGoal.AddGoalCommand :=
  InMemory.goalCommand "D" (Some "").

Definition addWithEmptyNext : AddGoal.AddGoalCommand :=
  {| AddGoal.objective := JsString "E";
     AddGoal.successCriteria := JsArray [JsString "done"];
     AddGoal.scopeIn := JsArray [];
     AddGoal.scopeOut := JsArray [];
     AddGoal.boundaries := JsArray [];
     AddGoal.relevantInvariants := JsUndefined;
     AddGoal.relevantGuidelines := JsUndefined;
     AddGoal.relevantDependencies := JsUndefined;
     AddGoal.relevantComponents := JsUndefined;
     AddGoal.architecture := JsUndefined;
     AddGoal.filesToBeCreated := JsUndefined;
     AddGoal.filesToBeChanged := JsUndefined;
     AddGoal.nextGoalId := JsString "";
     AddGoal.previousGoalId := None |}.

(** The events of these runs. *)
Definition goalAdded (goalId objective : string) : Goal.DomainEvent :=
  {| Goal.streamId := goalId;
     Goal.type := "GoalAddedEvent";
     Goal.version := 1;
     Goal.payload :=
       JsObject [("objective", JsString objective);
                 ("successCriteria", JsArray [JsString "done"]);
                 ("scopeIn", JsArray []); ("scopeOut", JsArray []);
                 ("boundaries", JsArray [])];
     Goal.timestamp := "2026-01-01T00:00:00.000Z" |}.

Definition goalLinked (goalId nextGoalId : string) (version : nat) : Goal.DomainEvent :=
  {| Goal.streamId := goalId;
     Goal.type := "GoalUpdatedEvent";
     Goal.version := version;
     Goal.payload := JsObject [("nextGoalId", JsString nextGoalId)];
     Goal.timestamp := "2026-01-01T00:00:00.000Z" |}.

(** Goal A as the read model holds it after it was added. *)
Definition goalAView : Goal.State :=
  {| Goal.id := "goal_a";
     Goal.lifecycle := Goal.Added;
     Goal.folded := 1;
     Goal.fields :=
       [("objective", JsString "A");
        ("successCriteria", JsArray [JsString "done"]);
        ("scopeIn", JsArray []); ("scopeOut", JsArray []);
        ("boundaries", JsArray [])] |}.

(** *** Instruction texts *)

Definition instructions : AgentInstructions :=
  {| getAgentFileReference := "See AGENTS.md for instructions on using Jumbo.";
     getCopilotInstructions := "<!-- jumbo:instructions --> Run jumbo session start.";
     getJumboSectionMarker := "<!-- jumbo:instructions -->";
     getJumboSection := "<!-- jumbo:instructions --> Run jumbo session start." |}.

(** *** Settings files *)

(** A SessionStart matcher that lists the same hook twice. *)
Definition repeatedHook : SafeGeminiSettingsMerger.GeminiSettings :=
  {| SafeGeminiSettingsMerger.settings_hooks := Some
       {| SafeGeminiSettingsMerger.SessionStart := Some
            [ {| SafeGeminiSettingsMerger.matcher := SafeGeminiSettingsMerger.startup;
                 SafeGeminiSettingsMerger.hooks :=
                   [ {| SafeGeminiSettingsMerger.command := "jumbo session start" |};
                     {| SafeGeminiSettingsMerger.command := "jumbo session start" |} ] |} ] |} |}.

(** The beginnings of a list that are shorter than the list. *)
Fixpoint proper_prefixes {A} (l : list A) : list (list A) :=
  match l with
  | [] => []
  | x :: rest => [] :: map (cons x) (proper_prefixes rest)
  end.

(** The directories above an absolute path, the root first. *)
Definition ancestors (path : string) : list string :=
  map (fun parts => match parts with
                    | [EmptyString] => "/"
                    | _ => String.concat "/" parts
                    end)
      (tail (proper_prefixes (Fs.split_slash path))).

(** A disk that holds the given directories and files, with the directories
    above them, and the given faults to come. *)
Definition disk (directories : list string) (contents : list (string * string))
    (faults : list Fs.Fault) : Fs.World :=
  {| Fs.files := list_to_map contents;
     Fs.dirs := list_to_set (flat_map (fun dir => dir :: ancestors dir) directories ++
                             flat_map ancestors (map fst contents));
     Fs.faults := faults;
     Fs.oplog := []; Fs.now := 1700000000000; Fs.console := [] |}.

(** The project at /proj with the given files and the given faults to come. *)
Definition project (contents : list (string * string)) (faults : list Fs.Fault) : Fs.World :=
  disk ["/proj"] contents faults.

Definition settingsPath : string := SafeGeminiSettingsMerger.settingsPathOf "/proj".

Definition backupPath : string :=
  SafeGeminiSettingsMerger.backupPathOf "/proj" 1700000000000.

(** One merge into the project, with the codec above. *)
Definition merge (newSettings : SafeGeminiSettingsMerger.GeminiSettings) (w : Fs.World)
  : Outcome unit * Fs.World :=
  @SafeGeminiSettingsMerger.mergeSettings MiniJson.codec "/proj" newSettings w.

(** A project whose settings file holds the empty object. *)
Definition emptySettings : Fs.World := project [(settingsPath, "{}")] [].

Definition afterFirstMerge : Fs.World := (merge repeatedHook emptySettings).2.

Definition afterSecondMerge : Fs.World := (merge repeatedHook afterFirstMerge).2.

(** The settings object with one startup matcher holding the given hooks. *)
Definition startupMatcher (hooks : list JsValue) : JsValue :=
  JsObject [("hooks", JsObject [("SessionStart", JsArray
    [JsObject [("matcher", JsString "startup"); ("hooks", JsArray hooks)]])])].

Definition jumboHookObject : JsValue :=
  JsObject [("type", JsString "command"); ("command", JsString "jumbo session start")].

Definition diskFull : JsError := Error "ENOSPC: no space left on device".

Definition ioError : JsError := Error "EIO: i/o error, write".

(** A settings file that is not JSON, and no fault to come. *)
Definition brokenSettings : Fs.World := project [(settingsPath, "not json")] [].

(** A settings file holding [{}]; the write of STEP 5 will fail leaving the
    file empty, and the copy of STEP 7 will fail as well. *)
Definition diskFillsUp : Fs.World :=
  project [(settingsPath, "{}")]
    [Fs.Works; Fs.Works; Fs.Works; Fs.Works; Fs.Works;
     Fs.Fails ioError (Some ""); Fs.Works; Fs.Fails diskFull None].

(** An empty project on a file system where every operation fails. *)
Definition readOnlyDisk : Fs.World :=
  project [] (repeat (Fs.Fails (Error "EROFS: read-only file system") None) 16).

End Scenario.

(** ** Observations the further properties are stated with *)

Module MergedSettings.
Import SafeGeminiSettingsMerger.

(** [m.matcher === kind], the test of [findIndex] in
    mergeSessionStartHooks. *)
Definition hasKind (kind : MatcherKind) (m : JsValue) : bool :=
  strict_eq_string (getPropOpt m "matcher") (matcher_name kind).

(** The elements of [m.hooks], and their commands. *)
Definition hooksOf (m : JsValue) : list JsValue := elements_of (getPropOpt m "hooks").

Definition commandsOf (m : JsValue) : list string := map command_of (hooksOf m).

(** [settings.hooks?.SessionStart ?? []], as deepMerge reads it. *)
Definition sessionStartOf (settings : JsValue) : list JsValue :=
  elements_of (nullish_or (getPropOpt (getPropOpt settings "hooks") "SessionStart")
                          (JsArray [])).

(** [props] without the member [key]. *)
Definition without (key : string) (props : list (string * JsValue))
  : list (string * JsValue) :=
  List.filter (fun kv => negb (String.eqb kv.1 key)) props.

(** What validateSettings asks of [settings.hooks]. *)
Definition validateHooksMember (hooks : JsValue) : Outcome unit :=
  if is_undefined hooks then Returned tt
  else if negb (typeof_object hooks) || is_null hooks
  then Thrown (Error "hooks must be an object")
  else
    sessionStart ← getProp hooks "SessionStart";
    match sessionStart with
    | JsUndefined => Returned tt
    | JsArray matchers => for_each validateMatcher matchers
    | _ => Thrown (Error "hooks.SessionStart must be an array")
    end.

Section HookMap.
Context {A : Type} (key : A -> string) (val : A -> JsValue).

(** [hookMap.set(key(x), val(x))] *)
Definition put (hookMap : list (string * JsValue)) (x : A) : list (string * JsValue) :=
  assign_prop (key x) (val x) hookMap.

End HookMap.

(** The hook map of the [existingIndex >= 0] branch, after both loops. *)
Definition hookMapOf (existingHooks : list JsValue) (newHooks : list GeminiHook)
  : list (string * JsValue) :=
  fold_left (put command hook_object) newHooks
    (fold_left (put command_of (fun hook => hook)) existingHooks []).

(** One turn of the loop of mergeSessionStartHooks. *)
Definition mergeStep (merged : list JsValue) (newMatcher : GeminiSessionStartMatcher)
  : list JsValue :=
  match findIndex (hasKind (matcher newMatcher)) merged with
  | Some existingIndex =>
      match merged !! existingIndex with
      | Some existingMatcher =>
          <[existingIndex := mergeMatcherHooks existingMatcher newMatcher]> merged
      | None => merged
      end
  | None => merged ++ [matcher_object newMatcher]
  end.

(** [M] holds every hook of [n], and nothing else under their commands. *)
Definition absorbs (n : GeminiSessionStartMatcher) (M : JsValue) : Prop :=
  forall h, In h (hooks n) ->
    In (hook_object h) (hooksOf M) /\
    forall x, In x (hooksOf M) -> command_of x = command h -> x = hook_object h.

(** The first matcher of [n]'s kind exists and satisfies [P]. *)
Definition found (P : JsValue -> Prop) (n : GeminiSessionStartMatcher)
    (merged : list JsValue) : Prop :=
  exists i M,
    findIndex (hasKind (matcher n)) merged = Some i /\ merged !! i = Some M /\ P M.

(** [M'] is [M] with, at most, other hooks added. *)
Definition extends (M M' : JsValue) : Prop :=
  without "hooks" (spread M') = without "hooks" (spread M) /\
  forall c, In c (commandsOf M) -> In c (commandsOf M').

End MergedSettings.

Module Disk.
Import Fs.

(** No fault is scheduled: every file operation to come works. *)
Definition healthy (w : World) : Prop := faults w = [].

(** [path] is a directory that is there. *)
Definition isDirectory (w : World) (path : string) : Prop :=
  files w !! path = None /\ path ∈ dirs w.

(** The method writes to no file outside [paths] and leaves the clock
    alone. *)
Definition confined {A} (paths : list string) (m : Prog World A) : Prop :=
  forall w o w', m w = (o, w') ->
    now w' = now w /\ forall p, ~ In p paths -> files w' !! p = files w !! p.

(** The files after one [ensure...] method of a configurer has run without
    a fault: a file that holds [marker] is left alone, any other file gets
    [amend] of its content, a missing file is created with [create] unless
    the path is a directory. *)
Definition ensured (marker create : string) (amend : string -> string) (path : string)
    (files : gmap string string) (dirs : gset string) : gmap string string :=
  match files !! path with
  | Some content =>
      if includes content marker then files else <[path := amend content]> files
  | None =>
      if bool_decide (path ∈ dirs) then files else <[path := create]> files
  end.

(** Nothing is left to do for [path]. *)
Definition settled (marker path : string)
    (files : gmap string string) (dirs : gset string) : Prop :=
  (exists content, files !! path = Some content /\ includes content marker = true) \/
  (files !! path = None /\ path ∈ dirs).

End Disk.

Module HandlerCalls.
Import AddGoal.

(** The error a call on a collaborator threw, if it threw. *)
Definition thrownBy {Event GoalView} (c : Call Event GoalView) : option JsError :=
  match c with
  | CallAppend _ (Thrown e) | CallPublish _ (Thrown e) | CallFindById _ (Thrown e)
  | CallReadStream _ (Thrown e) | CallUpdateAppend _ (Thrown e) => Some e
  | _ => None
  end.

End HandlerCalls.

(** ** The streams behind the handler's ports

    What the store holds is not the handler's to see.  An observer reads it
    through [streamOf], the events each stream holds in a state of the
    collaborators, and [streamIdOf], the stream an event belongs to. *)

Module Streams.
Import AddGoal.

Section Store.
Context {World Event GoalView : Type}.
Context (streamIdOf : Event -> string) (streamOf : World -> string -> list Event).

(** Modelled from the spec: the contract of [append], sections 4.1 and 7
    ("writes one event to the named stream", "append is all-or-nothing at
    the single-event granularity"): a call that returns has put the event at
    the end of its stream, a call that throws has changed no stream. *)
Definition appends (append : Event -> Prog World unit) : Prop :=
  forall event w outcome w' s,
    append event w = (outcome, w') ->
    streamOf w' s
    = streamOf w s ++
      match outcome with
      | Returned _ => if String.eqb (streamIdOf event) s then [event] else []
      | Thrown _ => []
      end.

(** Modelled from the spec: the contract of [publish], [readStream] and
    [findById], sections 4.1, 4.2 and 6: none of them writes to a stream. *)
Definition reads {A} (call : Prog World A) : Prop :=
  forall w outcome w' s, call w = (outcome, w') -> streamOf w' s = streamOf w s.

(** The ports of a handler keep to these contracts. *)
Record ports (this : Handler World Event GoalView) : Prop := {
  writer_appends : appends (eventWriter this);
  bus_reads : forall event, reads (eventBus this event);
  update_writer_appends :
    forall append, updateEventWriter this = Some append -> appends append;
  update_reader_reads :
    forall readStream goalId,
      updateEventReader this = Some readStream -> reads (readStream goalId);
  finder_reads :
    forall findById goalId, goalReader this = Some findById -> reads (findById goalId)
}.

(** The events that the calls of an execution have put on stream [s], in
    order: those of its successful appends. *)
Definition written (s : string) (calls : list (Call Event GoalView)) : list Event :=
  omap (fun c =>
          match c with
          | CallAppend event (Returned _) | CallUpdateAppend event (Returned _) =>
              if String.eqb (streamIdOf event) s then Some event else None
          | _ => None
          end) calls.

(** A step of the handler under which the streams move with the trace:
    what it adds to a stream is what its calls have written there. *)
Definition tracks {A} (step : Prog (Run World Event GoalView) A) : Prop :=
  forall r outcome r',
    step r = (outcome, r') ->
    exists calls,
      trace r' = trace r ++ calls /\
      forall s, streamOf (world r') s = streamOf (world r) s ++ written s calls.

End Store.

Section Aggregate.
Context {World Event Aggregate : Type} `{!Imports World Event Aggregate}.
Context (streamIdOf : Event -> string) (streamOf : World -> string -> list Event).

(** Modelled from the spec: an aggregate's events are on its own stream
    (section 3: "one stream per aggregate instance", and the update of the
    previous goal is "a second, separate event on A's own stream"); drawing
    an identifier writes to no stream. *)
Definition ownStream : Prop :=
  (forall w s, streamOf (randomUUID w).2 s = streamOf w s) /\
  (forall goalId objective successCriteria scopeIn scopeOut boundaries embeddedContext event,
      Goal_add (Goal_create goalId) objective successCriteria scopeIn scopeOut boundaries
        embeddedContext = Returned event ->
      streamIdOf event = goalId) /\
  (forall previousGoalId history previousGoal newGoalId updateEvent,
      Goal_rehydrate previousGoalId history = Returned previousGoal ->
      linkEvent previousGoal newGoalId = Returned updateEvent ->
      streamIdOf updateEvent = previousGoalId).

(** The state of the collaborators after one execution started in [w]. *)
Definition worldAfter {GoalView : Type} (this : Handler World Event GoalView)
    (command : AddGoalCommand) (w : World) : World :=
  world (execute this command (start w)).2.

End Aggregate.
End Streams.

(** ** The namespace migrations table

    The module that follows CursorConfigurer.ts in the sources:
    [getNamespaceMigrations]. *)

Module Migrations.

(** interface NamespaceMigration *)
Record NamespaceMigration : Type := {
  namespace : string;
  path : string
}.

Section Paths.

(** Node's [path.join], on its list of segments. *)
Context (path_join : list string -> string).

Definition getNamespaceMigrations (infrastructureDir : string) : list NamespaceMigration :=
  [ (* Work category *)
    {| namespace := "work/sessions";
       path := path_join [infrastructureDir; "work/sessions/migrations"] |};
    {| namespace := "work/goals";
       path := path_join [infrastructureDir; "work/goals/migrations"] |};
    (* Solution category *)
    {| namespace := "solution/decisions";
       path := path_join [infrastructureDir; "solution/decisions/migrations"] |};
    {| namespace := "solution/architecture";
       path := path_join [infrastructureDir; "solution/architecture/migrations"] |};
    {| namespace := "solution/components";
       path := path_join [infrastructureDir; "solution/components/migrations"] |};
    {| namespace := "solution/dependencies";
       path := path_join [infrastructureDir; "solution/dependencies/migrations"] |};
    {| namespace := "solution/guidelines";
       path := path_join [infrastructureDir; "solution/guidelines/migrations"] |};
    {| namespace := "solution/invariants";
       path := path_join [infrastructureDir; "solution/invariants/migrations"] |};
    (* Project knowledge category *)
    {| namespace := "project-knowledge/project";
       path := path_join [infrastructureDir; "project-knowledge/project/migrations"] |};
    {| namespace := "project-knowledge/audiences";
       path := path_join [infrastructureDir; "project-knowledge/audiences/migrations"] |};
    {| namespace := "project-knowledge/audience-pains";
       path := path_join [infrastructureDir; "project-knowledge/audience-pains/migrations"] |};
    {| namespace := "project-knowledge/value-propositions";
       path :=
         path_join [infrastructureDir; "project-knowledge/value-propositions/migrations"] |};
    (* Relations category *)
    {| namespace := "relations";
       path := path_join [infrastructureDir; "relations/migrations"] |} ].

End Paths.
End Migrations.

(** ** Further inputs to run the code on *)

Module MoreScenarios.
Import SafeGeminiSettingsMerger.

(** add goal without an objective. *)
Definition addWithoutObjective : AddGoal.AddGoalCommand :=
  {| AddGoal.objective := JsUndefined;
     AddGoal.successCriteria := JsArray [JsString "done"];
     AddGoal.scopeIn := JsArray [];
     AddGoal.scopeOut := JsArray [];
     AddGoal.boundaries := JsArray [];
     AddGoal.relevantInvariants := JsUndefined;
     AddGoal.relevantGuidelines := JsUndefined;
     AddGoal.relevantDependencies := JsUndefined;
     AddGoal.relevantComponents := JsUndefined;
     AddGoal.architecture := JsUndefined;
     AddGoal.filesToBeCreated := JsUndefined;
     AddGoal.filesToBeChanged := JsUndefined;
     AddGoal.nextGoalId := JsUndefined;
     AddGoal.previousGoalId := None |}.

(** add goal with an architecture note as its only optional field. *)
Definition addWithArchitecture : AddGoal.AddGoalCommand :=
  {| AddGoal.objective := JsString "F";
     AddGoal.successCriteria := JsArray [JsString "done"];
     AddGoal.scopeIn := JsArray [];
     AddGoal.scopeOut := JsArray [];
     AddGoal.boundaries := JsArray [];
     AddGoal.relevantInvariants := JsUndefined;
     AddGoal.relevantGuidelines := JsUndefined;
     AddGoal.relevantDependencies := JsUndefined;
     AddGoal.relevantComponents := JsUndefined;
     AddGoal.architecture := JsString "hexagonal";
     AddGoal.filesToBeCreated := JsUndefined;
     AddGoal.filesToBeChanged := JsUndefined;
     AddGoal.nextGoalId := JsUndefined;
     AddGoal.previousGoalId := None |}.

(** A hook of the user's own, in a startup matcher that also carries a
    member the merger knows nothing about. *)
Definition userHook : JsValue :=
  JsObject [("type", JsString "command"); ("command", JsString "echo hello")].

Definition userStartup : JsValue :=
  JsObject [("matcher", JsString "startup"); ("hooks", JsArray [userHook]);
            ("description", JsString "mine")].

(** Settings with a theme, the matcher above and a hook of another event. *)
Definition userSettings : JsValue :=
  JsObject [("theme", JsString "dark");
            ("hooks", JsObject [("SessionStart", JsArray [userStartup]);
                                ("SessionEnd", JsArray [])])].

(** The matcher and the hook the Gemini configurer adds. *)
Definition jumboCommand : GeminiHook := {| command := "jumbo session start" |}.

Definition jumboStartup : GeminiSessionStartMatcher :=
  {| matcher := startup; hooks := [jumboCommand] |}.

(** An aggregate that answers [add] and [update] with the embedded context
    it was handed, so that the event which is appended shows the argument of
    the call; and a handler whose writer and bus accept everything. *)
Definition echoImports : AddGoal.Imports unit JsValue unit :=
  {| AddGoal.randomUUID := fun w => ("e", w);
     AddGoal.Goal_create := fun _ => tt;
     AddGoal.Goal_add := fun _ _ _ _ _ _ embeddedContext => Returned embeddedContext;
     AddGoal.Goal_rehydrate := fun _ _ => Returned tt;
     AddGoal.Goal_update := fun _ _ _ _ _ _ embeddedContext => Returned embeddedContext;
     AddGoal.NOT_FOUND := "Goal not found";
     AddGoal.formatErrorMessage := fun template _ => template |}.

Definition echoHandler : AddGoal.Handler unit JsValue unit :=
  {| AddGoal.eventWriter := fun _ => mret tt;
     AddGoal.eventBus := fun _ => mret tt;
     AddGoal.updateEventWriter := None;
     AddGoal.updateEventReader := None;
     AddGoal.goalReader := None |}.

Definition accessDenied : JsError := Error "EACCES: permission denied, access".

(** A settings file holding [{}]; the write of STEP 5 will fail leaving the
    file empty, and the catch block will work. *)
Definition writeFails : Fs.World :=
  Scenario.project [(Scenario.settingsPath, "{}")]
    [Fs.Works; Fs.Works; Fs.Works; Fs.Works; Fs.Works;
     Fs.Fails Scenario.ioError (Some "")].

(** A settings file holding [{}]; the access of the STEP 1 check will fail,
    and the write of STEP 5 will fail leaving the file empty. *)
Definition checkDefeated : Fs.World :=
  Scenario.project [(Scenario.settingsPath, "{}")]
    [Fs.Works; Fs.Fails accessDenied None; Fs.Works; Fs.Works;
     Fs.Fails Scenario.ioError (Some "")].

(** A settings file of the user's; the access of the STEP 2 check will
    fail. *)
Definition secondCheckDefeated : Fs.World :=
  Scenario.project
    [(Scenario.settingsPath, @JSON_stringify MiniJson.codec userSettings 2 +:+ LF)]
    [Fs.Works; Fs.Works; Fs.Works; Fs.Fails accessDenied None].

(** A project in which .gemini is there, without a settings file. *)
Definition geminiDirectory : Fs.World := Scenario.disk ["/proj/.gemini"] [] [].

(** A project whose three instruction files exist, written by the user. *)
Definition ownFiles : Fs.World :=
  Scenario.project
    [("/proj/GEMINI.md", "# Gemini notes" +:+ LF +:+ LF);
     ("/proj/CURSOR.md", "# Cursor notes");
     ("/proj/.github/copilot-instructions.md", "Use tabs.");
     ("/proj/.cursor/rules/jumbo/RULE.md", "old rule");
     ("/proj/README.md", "# Project")] [].

End MoreScenarios.

(** * Properties *)

(** ** UnprimedBrownfieldQualifier *)

Section QualifierProperties.
Import UnprimedBrownfieldQualifier.

Context {World ArchitectureView ComponentView DecisionView
         InvariantView GuidelineView : Type}.

Local Abbreviation View :=
  (@SolutionContextView ArchitectureView ComponentView DecisionView
     InvariantView GuidelineView).

Lemma length_pos_nil {A} (l : list A) : (0 <? length l)%nat = false <-> l = [].
Proof. destruct l; unfold Nat.ltb; simpl; split; intros; congruence. Qed.

(** C10: whenever the reader returns a solution context, isUnprimed returns,
    and it returns true exactly when the architecture is null and the
    components, decisions, invariants and guidelines lists are all empty. *)
Theorem isUnprimed_iff_nothing_recorded
    (solutionContextReader : Prog World View) (w w' : World) (context : View) :
  solutionContextReader w = (Returned context, w') ->
  exists unprimed,
    isUnprimed solutionContextReader w = (Returned unprimed, w') /\
    (unprimed = true <->
       architecture context = None /\ components context = [] /\
       decisions context = [] /\ invariants context = [] /\
       guidelines context = []).
Proof.
  intros Hread. eexists. split.
  - unfold isUnprimed, mbind, prog_bind, bind. rewrite Hread. reflexivity.
  - rewrite negb_true_iff, !orb_false_iff, !length_pos_nil.
    destruct (architecture context); intuition congruence.
Qed.

End QualifierProperties.

Section QualifierExamples.
Import UnprimedBrownfieldQualifier Scenario.

Lemma isUnprimed_iff_nothing_recorded_witness :
  exists unprimed,
    isUnprimed (ret nothingRecorded) tt = (Returned unprimed, tt) /\
    (unprimed = true <->
       architecture nothingRecorded = None /\ components nothingRecorded = [] /\
       decisions nothingRecorded = [] /\ invariants nothingRecorded = [] /\
       guidelines nothingRecorded = []).
Proof.
  apply (isUnprimed_iff_nothing_recorded (ret nothingRecorded) tt tt nothingRecorded).
  reflexivity.
Defined.

Example isUnprimed_fresh_project :
  isUnprimed (ret nothingRecorded) tt = (Returned true, tt).
Proof. reflexivity. Qed.

Example isUnprimed_one_decision :
  isUnprimed (ret oneDecision) tt = (Returned false, tt).
Proof. reflexivity. Qed.

End QualifierExamples.

(** ** The add-goal command handler *)

Lemma app_cons_eq_cons {A} (pre post l : list A) x a :
  pre ++ x :: post = a :: l ->
  (pre = [] /\ x = a /\ post = l) \/
  exists pre', pre = a :: pre' /\ pre' ++ x :: post = l.
Proof. destruct pre; naive_solver. Qed.

Lemma app_cons_eq_nil {A} (pre post : list A) x : pre ++ x :: post = [] -> False.
Proof. by destruct pre. Qed.

(** Finds every place where a call can sit in a trace that is known. *)
Ltac split_trace H :=
  repeat first
    [ apply app_cons_eq_nil in H; destruct H
    | apply app_cons_eq_cons in H;
      destruct H as [(-> & ? & ?) | (? & -> & H)]; [simplify_eq/= | ] ].

Section HandlerRuns.
Import AddGoal.

Context {World Event Aggregate GoalView : Type} `{!Imports World Event Aggregate}.

Local Abbreviation Run := (Run World Event GoalView).
Local Abbreviation Handler := (Handler World Event GoalView).
Local Abbreviation Call := (Call Event GoalView).

Ltac run_handler :=
  unfold updatePreviousGoalNextGoalId, await, note, lift, throw,
    mbind, mret, prog_bind, prog_ret, bind, ret;
  cbn [world trace app fst snd].

(** The chaining step appends its own calls to the trace, and they have one
    of the shapes of [chaining]. *)
Lemma updatePrevious_chaining (this : Handler) (X newId : string) (s : Run) :
  exists calls outcome s',
    updatePreviousGoalNextGoalId this X newId s = (outcome, s') /\
    trace s' = trace s ++ CallUpdatePrevious X newId :: calls /\
    chaining this X newId calls outcome.
Proof.
  run_handler. unfold foundAndRead.
  destruct (updateEventWriter this) as [uw|] eqn:Huw;
  destruct (updateEventReader this) as [ur|] eqn:Hur;
  destruct (goalReader this) as [gr|] eqn:Hgr;
    try (eexists [], _, _; split; [reflexivity|]; split; [reflexivity|];
         apply chaining_unconfigured; unfold chainingConfigured;
         rewrite ?Huw, ?Hur, ?Hgr; reflexivity).
  assert (Hcfg : chainingConfigured this = true)
    by (unfold chainingConfigured; rewrite Huw, Hur, Hgr; reflexivity).
  cbn [world trace].
  destruct (gr X (world s)) as [[[view|]|e] w1] eqn:Hfind; cbn [world trace].
  2: { eexists _, _, _; split; [reflexivity|]; split;
         [rewrite <- app_assoc; reflexivity | by apply chaining_not_found]. }
  2: { eexists _, _, _; split; [reflexivity|]; split;
         [rewrite <- app_assoc; reflexivity | by apply chaining_find_failed]. }
  destruct (ur X w1) as [[history|e] w2] eqn:Hread; cbn [world trace].
  2: { eexists _, _, _; split; [reflexivity|]; split;
         [rewrite <- !app_assoc; reflexivity | by apply chaining_read_failed]. }
  destruct (Goal_rehydrate X history) as [previousGoal|e] eqn:Hre; cbn [world trace].
  2: { eexists _, _, _; split; [reflexivity|]; split;
         [rewrite <- !app_assoc; reflexivity
         | by apply (chaining_rehydrate_failed this X newId view history e)]. }
  destruct (linkEvent previousGoal newId) as [updateEvent|e] eqn:Hlink; cbn [world trace].
  2: { eexists _, _, _; split; [reflexivity|]; split;
         [rewrite <- !app_assoc; reflexivity
         | by apply (chaining_update_failed this X newId view history previousGoal e)]. }
  destruct (uw updateEvent w2) as [[[]|e] w3] eqn:Happ; cbn [world trace].
  2: { eexists _, _, _; split; [reflexivity|]; split;
         [rewrite <- !app_assoc; reflexivity
         | by apply (chaining_append_failed this X newId view history
                       previousGoal updateEvent e)]. }
  destruct (eventBus this updateEvent w3) as [outcome w4] eqn:Hpub; cbn [world trace].
  eexists _, outcome, _; split; [reflexivity|]; split;
    [rewrite <- !app_assoc; reflexivity
    | by apply (chaining_published this X newId view history
                  previousGoal updateEvent outcome)].
Qed.

(** Every execution takes one of the shapes of [execution]. *)
Lemma execute_execution (this : Handler) (command : AddGoalCommand) (w : World) :
  execution this command (newGoalId w) (callsOf this command w) (outcomeOf this command w).
Proof.
  unfold callsOf, outcomeOf, newGoalId, execute, fresh_uuid, start, note, await, lift, when,
    mbind, mret, prog_bind, prog_ret, bind, ret.
  cbn [world trace app].
  destruct (randomUUID w) as [uuid w0]. cbn [fst snd world trace app].
  set (goalId := "goal_" +:+ uuid).
  destruct (addEvent command goalId) as [event|e] eqn:Hadd; cbn [fst snd world trace app].
  2: { by apply execution_add_failed. }
  destruct (eventWriter this event w0) as [[[]|e] w1]; cbn [fst snd world trace app].
  2: { by apply execution_append_failed. }
  destruct (eventBus this event w1) as [[[]|e] w2]; cbn [fst snd world trace app].
  2: { by apply execution_publish_failed. }
  destruct (previousGoalId command) as [X|] eqn:Hprev; cbn [truthy_string].
  2: { apply execution_unchained; [done | by rewrite Hprev]. }
  destruct (String.eqb X "") eqn:HX; cbn [negb fst snd].
  { apply execution_unchained; [done | by rewrite Hprev; cbn; rewrite HX]. }
  apply String.eqb_neq in HX.
  match goal with
  | |- context [updatePreviousGoalNextGoalId this X goalId ?s] =>
      destruct (updatePrevious_chaining this X goalId s)
        as (calls & outcome & s' & -> & Htrace & Hchain)
  end.
  cbn [trace app] in Htrace.
  replace (trace (match outcome with
                  | Returned _ => (Returned goalId, s')
                  | Thrown e => (Thrown e, s')
                  end).2) with (trace s') by (by destruct outcome).
  replace ((match outcome with
            | Returned _ => (Returned goalId, s')
            | Thrown e => (Thrown e, s')
            end).1) with (match outcome with
                          | Returned _ => Returned goalId
                          | Thrown e => Thrown e
                          end : Outcome string) by (by destruct outcome).
  rewrite Htrace. by apply (execution_chained this command goalId event X calls outcome).
Qed.

Lemma truthy_string_false (X : string) : truthy_string (Some X) = false -> X = "".
Proof. cbn. intros H. by apply negb_false_iff, String.eqb_eq in H. Qed.

Lemma truthy_js_or (a b : JsValue) : truthy (js_or a b) = truthy a || truthy b.
Proof. unfold js_or. by destruct (truthy a) eqn:Ha; rewrite ?Ha. Qed.

Lemma truthy_hasEmbeddedContext (command : AddGoalCommand) :
  truthy (hasEmbeddedContext command)
  = existsb (fun kv => truthy kv.2) (embeddedFields command).
Proof.
  unfold hasEmbeddedContext, embeddedFields. rewrite !truthy_js_or. cbn.
  by rewrite orb_false_r, !orb_assoc.
Qed.

End HandlerRuns.

(** One goal per shape of the execution [run], a proof of [execution]. *)
Ltac by_cases_of run :=
  let Hrun := fresh "Hrun" in
  pose proof run as Hrun;
  destruct Hrun as [ ? ? | ? ? ? | ? ? ? | ? ? ? | ? ? ? ? ? ? ? Hchain ];
  [ | | | | destruct Hchain; unfold AddGoal.foundAndRead in * ];
  cbn [app] in *.

(** The unchained shape is impossible for a non-empty previousGoalId. *)
Ltac not_unchained Hprev :=
  try match goal with
      | H : truthy_string (AddGoal.previousGoalId _) = false |- _ =>
          rewrite Hprev in H; apply truthy_string_false in H; congruence
      end.

Section HandlerStreams.
Import AddGoal Streams.

Context {World Event Aggregate GoalView : Type} `{!Imports World Event Aggregate}.
Context (streamIdOf : Event -> string) (streamOf : World -> string -> list Event).

Local Abbreviation Run := (Run World Event GoalView).
Local Abbreviation Handler := (Handler World Event GoalView).
Local Abbreviation Call := (Call Event GoalView).
Local Abbreviation written := (@written Event GoalView streamIdOf).
Local Abbreviation tracks := (@tracks World Event GoalView streamIdOf streamOf).

Lemma written_app (s : string) (calls calls' : list Call) :
  written s (calls ++ calls') = written s calls ++ written s calls'.
Proof. apply omap_app. Qed.

Lemma tracks_silent {A} (step : Prog Run A) :
  (forall r outcome r', step r = (outcome, r') -> r' = r) -> tracks step.
Proof.
  intros Hsame r outcome r' Hrun. rewrite (Hsame _ _ _ Hrun).
  exists []. split; [by rewrite app_nil_r|]. intros s. cbn. by rewrite app_nil_r.
Qed.

Lemma tracks_ret {A} (a : A) : tracks (mret a).
Proof. apply tracks_silent. by intros r outcome r' [= _ <-]. Qed.

Lemma tracks_throw {A} (e : JsError) : tracks (throw e : Prog Run A).
Proof. apply tracks_silent. by intros r outcome r' [= _ <-]. Qed.

Lemma tracks_lift {A} (o : Outcome A) : tracks (lift o : Prog Run A).
Proof. apply tracks_silent. by intros r outcome r' [= _ <-]. Qed.

Lemma tracks_bind {A B} (step : Prog Run A) (next : A -> Prog Run B) :
  tracks step -> (forall a, tracks (next a)) -> tracks (step ≫= next).
Proof.
  intros Hstep Hnext r outcome r'. unfold mbind, prog_bind, bind.
  destruct (step r) as [[a|e] r1] eqn:Hrun; intros Heq.
  - destruct (Hstep _ _ _ Hrun) as (calls & Htrace & Hstreams).
    destruct (Hnext a _ _ _ Heq) as (calls' & Htrace' & Hstreams').
    exists (calls ++ calls'). split; [by rewrite Htrace', Htrace, app_assoc|].
    intros s. by rewrite Hstreams', Hstreams, written_app, app_assoc.
  - simplify_eq. by apply (Hstep _ _ _ Hrun).
Qed.

Lemma tracks_when (c : bool) (step : Prog Run unit) : tracks step -> tracks (when c step).
Proof. destruct c; [done|]. intros _. apply tracks_ret. Qed.

(** A note of something that is no append. *)
Lemma tracks_note (c : Call) : isAppend c = false -> isUpdateAppend c = false -> tracks (note c).
Proof.
  intros Hc Hu r outcome r' [= _ <-]. exists [c]. split; [done|].
  intros s. cbn. destruct c; try discriminate; by rewrite app_nil_r.
Qed.

Lemma tracks_fresh_uuid : ownStream streamIdOf streamOf -> tracks fresh_uuid.
Proof.
  intros (Huuid & _) r outcome r'. unfold fresh_uuid.
  pose proof (Huuid (world r)) as Hsame.
  destruct (randomUUID (world r)) as [u w']. intros [= _ <-].
  exists []. split; [by rewrite app_nil_r|]. intros s. cbn. by rewrite app_nil_r, Hsame.
Qed.

(** A call on a port that writes to no stream, recorded as no append. *)
Lemma tracks_await_reads {A} (entry : Outcome A -> Call) (call : Prog World A) :
  reads streamOf call ->
  (forall o, isAppend (entry o) = false /\ isUpdateAppend (entry o) = false) ->
  tracks (await entry call).
Proof.
  intros Hreads Hentry r outcome r'. unfold await.
  destruct (call (world r)) as [o w'] eqn:Hcall. intros [= <- <-].
  exists [entry o]. split; [done|]. intros s. cbn.
  rewrite (Hreads _ _ _ s Hcall). destruct (Hentry o) as [Ha Hu].
  destruct (entry o); try discriminate; by rewrite app_nil_r.
Qed.

Lemma tracks_await_append (append : Event -> Prog World unit) (event : Event) :
  appends streamIdOf streamOf append ->
  tracks (await (CallAppend event) (append event)).
Proof.
  intros Happends r outcome r'. unfold await.
  destruct (append event (world r)) as [o w'] eqn:Hcall. intros [= <- <-].
  exists [CallAppend event o]. split; [done|]. intros s. cbn.
  rewrite (Happends _ _ _ _ s Hcall).
  destruct o as [[]|e]; [|done]. by destruct (String.eqb (streamIdOf event) s).
Qed.

Lemma tracks_await_update_append (append : Event -> Prog World unit) (event : Event) :
  appends streamIdOf streamOf append ->
  tracks (await (CallUpdateAppend event) (append event)).
Proof.
  intros Happends r outcome r'. unfold await.
  destruct (append event (world r)) as [o w'] eqn:Hcall. intros [= <- <-].
  exists [CallUpdateAppend event o]. split; [done|]. intros s. cbn.
  rewrite (Happends _ _ _ _ s Hcall).
  destruct o as [[]|e]; [|done]. by destruct (String.eqb (streamIdOf event) s).
Qed.

Lemma tracks_updatePrevious (this : Handler) (X newId : string) :
  ports streamIdOf streamOf this ->
  tracks (updatePreviousGoalNextGoalId this X newId).
Proof.
  intros [_ Hbus Huw Hur Hgr]. unfold updatePreviousGoalNextGoalId.
  apply tracks_bind; [by apply tracks_note|intros _].
  destruct (updateEventWriter this) as [uw|]; [|repeat case_match; apply tracks_throw].
  destruct (updateEventReader this) as [ur|]; [|repeat case_match; apply tracks_throw].
  destruct (goalReader this) as [gr|]; [|apply tracks_throw].
  apply tracks_bind; [by apply tracks_await_reads; [apply Hgr|]|intros [view|]];
    [|apply tracks_throw].
  apply tracks_bind; [by apply tracks_await_reads; [apply Hur|]|intros history].
  apply tracks_bind; [by apply tracks_note|intros _].
  apply tracks_bind; [apply tracks_lift|intros previousGoal].
  apply tracks_bind; [by apply tracks_note|intros _].
  apply tracks_bind; [apply tracks_lift|intros updateEvent].
  apply tracks_bind; [by apply tracks_await_update_append, Huw|intros _].
  by apply tracks_await_reads; [apply Hbus|].
Qed.

(** After an execution every stream holds what it held, followed by what
    the successful appends of the execution have put there. *)
Lemma execute_streams (this : Handler) (command : AddGoalCommand) (w : World) (s : string) :
  ports streamIdOf streamOf this ->
  ownStream streamIdOf streamOf ->
  streamOf (worldAfter this command w) s
  = streamOf w s ++ written s (callsOf this command w).
Proof.
  intros Hports Hown. unfold worldAfter, callsOf.
  assert (tracks (execute this command)) as Htracks.
  { pose proof Hports as [Hwriter Hbus _ _ _]. unfold execute.
    apply tracks_bind; [by apply tracks_fresh_uuid|intros uuid].
    apply tracks_bind; [by apply tracks_note|intros _].
    apply tracks_bind; [apply tracks_lift|intros event].
    apply tracks_bind; [by apply tracks_await_append|intros _].
    apply tracks_bind; [by apply tracks_await_reads; [apply Hbus|]|intros _].
    apply tracks_bind; [|intros _; apply tracks_ret].
    destruct (previousGoalId command) as [X|]; [|apply tracks_ret].
    by apply tracks_when, tracks_updatePrevious. }
  destruct (execute this command (start w)) as [outcome r'] eqn:Hrun.
  destruct (Htracks _ _ _ Hrun) as (calls & Htrace & Hstreams).
  cbn [snd]. rewrite Hstreams. cbn in Htrace. by rewrite Htrace.
Qed.

End HandlerStreams.

Section HandlerProperties.
Import AddGoal.

Context {World Event Aggregate GoalView : Type} `{!Imports World Event Aggregate}.

Local Abbreviation Handler := (Handler World Event GoalView).
Local Abbreviation Call := (Call Event GoalView).

(** C1: in every execution of execute, the call made just before a publish
    is the successful append of that same event, through the writer of the
    new goal's add event or through the writer of the chain-update event;
    and a failed append is the last call of the execution, so no publish
    follows it. *)
Theorem publish_follows_successful_append
    (this : Handler) (command : AddGoalCommand) (w : World) :
  (forall pre event outcome post,
      callsOf this command w = pre ++ CallPublish event outcome :: post ->
      last pre = Some (CallAppend event (Returned tt)) \/
      last pre = Some (CallUpdateAppend event (Returned tt))) /\
  (forall pre event e post,
      callsOf this command w = pre ++ CallAppend event (Thrown e) :: post ->
      post = []) /\
  (forall pre event e post,
      callsOf this command w = pre ++ CallUpdateAppend event (Thrown e) :: post ->
      post = []).
Proof.
  by_cases_of (execute_execution this command w).
  all: (split; [|split]); intros pre ev o post Heq; symmetry in Heq.
  all: split_trace Heq; auto.
Qed.

(** C3: when previousGoalId is X and the finder returns null for X, execute
    fails with the not-found error formatted with goalId = X; the finder's
    call is the last call of the execution, so X's stream is never read and
    no update event is appended. *)
Theorem not_found_fails_before_reading
    (this : Handler) (command : AddGoalCommand) (w : World) (X : string) :
  previousGoalId command = Some X ->
  In (CallFindById X (Returned None)) (callsOf this command w) ->
  outcomeOf this command w = Thrown (goalNotFound X) /\
  last (callsOf this command w) = Some (CallFindById X (Returned None)) /\
  (forall c, In c (callsOf this command w) ->
             isReadStream c = false /\ isUpdateAppend c = false).
Proof.
  by_cases_of (execute_execution this command w); intros Hprev Hin; cbn in Hin;
    try (intuition discriminate).
  simplify_eq. split; [done|]. split; [done|].
  intros c Hc. cbn in Hc. intuition (subst; reflexivity).
Qed.

(** C4, as amended: when previousGoalId is a non-empty X and one of the
    three chaining collaborators is absent, execute never returns normally;
    the only chaining call it makes is the entry into the chaining step (no
    lookup, no read, no update append); the only publish, if any, is the one
    of the new goal's add event right after its append; and once that
    publish has returned, the error thrown is the configuration error. *)
Theorem unconfigured_chaining_fails
    (this : Handler) (command : AddGoalCommand) (w : World) (X : string) :
  previousGoalId command = Some X ->
  X <> "" ->
  chainingConfigured this = false ->
  (exists e, outcomeOf this command w = Thrown e) /\
  (forall c, In c (callsOf this command w) -> isChainingCall c = true ->
             c = CallUpdatePrevious X (newGoalId w)) /\
  (forall pre event outcome post,
      callsOf this command w = pre ++ CallPublish event outcome :: post ->
      pre = [addCall command (newGoalId w); CallAppend event (Returned tt)]) /\
  (forall event, In (CallPublish event (Returned tt)) (callsOf this command w) ->
                 outcomeOf this command w = Thrown chainingNotConfigured).
Proof.
  by_cases_of (execute_execution this command w); intros Hprev HX Hcfg;
    try congruence; not_unchained Hprev.
  all: split; [by eexists|].
  all: split; [intros c Hc Hch; cbn in Hc; intuition (subst; try discriminate; congruence)|].
  all: split; [intros pre ev o post Heq; symmetry in Heq; by split_trace Heq|].
  all: intros ev Hin; cbn in Hin; intuition (try discriminate; done).
Qed.


(** C6, as amended: execute hands the aggregate's add the value
    [embeddedContext command] as its embedded context: the first call is
    that add, and what add answers for that argument is what execute goes
    on with: an event is the one it appends next, an error is the one it
    throws, with no further call.  The value is the object built from the
    eight optional fields exactly when at least one of them is truthy, and
    it is undefined exactly when none is. *)
Theorem embedded_context_iff_truthy_field
    (this : Handler) (command : AddGoalCommand) (w : World) :
  head (callsOf this command w)
  = Some (CallGoalAdd (newGoalId w) (objective command) (successCriteria command)
            (scopeIn command) (scopeOut command) (boundaries command)
            (embeddedContext command)) /\
  match Goal_add (Goal_create (newGoalId w)) (objective command) (successCriteria command)
          (scopeIn command) (scopeOut command) (boundaries command)
          (embeddedContext command) with
  | Returned event =>
      exists outcome, callsOf this command w !! 1 = Some (CallAppend event outcome)
  | Thrown e =>
      outcomeOf this command w = Thrown e /\ length (callsOf this command w) = 1
  end /\
  (embeddedContext command = JsObject (embeddedFields command) <->
   exists key v, In (key, v) (embeddedFields command) /\ truthy v = true) /\
  (embeddedContext command = JsUndefined <->
   forall key v, In (key, v) (embeddedFields command) -> truthy v = false).
Proof.
  split; [by by_cases_of (execute_execution this command w)|].
  split.
  { change (Goal_add _ _ _ _ _ _ _) with (addEvent command (newGoalId w)).
    by_cases_of (execute_execution this command w);
      match goal with H : addEvent _ _ = _ |- _ => rewrite H end; cbn; eauto. }
  unfold embeddedContext. rewrite truthy_hasEmbeddedContext.
  destruct (existsb _ _) eqn:Hex.
  - apply existsb_exists in Hex as ([key v] & Hin & Hv). cbn in Hv.
    split; split; try done; eauto.
    intros Hall. rewrite (Hall key v Hin) in Hv. discriminate.
  - split; split; try done.
    + intros (key & v & Hin & Hv).
      assert (existsb (fun kv => truthy kv.2) (embeddedFields command) = true)
        by (apply existsb_exists; by exists (key, v)).
      congruence.
    + intros _ key v Hin. destruct (truthy v) eqn:Hv; [|done].
      assert (existsb (fun kv => truthy kv.2) (embeddedFields command) = true)
        by (apply existsb_exists; by exists (key, v)).
      congruence.
Qed.

End HandlerProperties.

Section ChainInvariant.
Import AddGoal Goal.

Context {World GoalView : Type}.
Context (randomUUID : World -> string * World) (now NOT_FOUND : string).
Context (formatErrorMessage : string -> list (string * string) -> string).

Local Abbreviation GoalImports :=
  (specImports randomUUID now NOT_FOUND formatErrorMessage).
Local Abbreviation outcomeOf := (@outcomeOf World DomainEvent State GoalView GoalImports).
Local Abbreviation callsOf := (@callsOf World DomainEvent State GoalView GoalImports).

Lemma linkEvent_spec (previousGoal : State) (newId : string) (updateEvent : DomainEvent) :
  @linkEvent World DomainEvent State GoalImports previousGoal newId = Returned updateEvent ->
  streamId updateEvent = id previousGoal /\
  type updateEvent = "GoalUpdatedEvent" /\
  payload updateEvent = JsObject [("nextGoalId", JsString newId)].
Proof. cbn. intros [= <-]. done. Qed.

Lemma apply_id (g g' : State) (e : DomainEvent) : apply g e = Returned g' -> id g' = id g.
Proof. unfold apply. repeat case_match; intros; simplify_eq; done. Qed.

Lemma rehydrate_id (X : string) (history : list DomainEvent) (g : State) :
  rehydrate X history = Returned g -> id g = X.
Proof.
  unfold rehydrate.
  assert (Hgen : forall acc g0, acc = Returned g0 -> id g0 = X ->
            fold_left (fun acc e => g ← acc; apply g e) history acc = Returned g ->
            id g = X).
  { induction history as [|e history IH]; intros acc g0 Hacc Hid; cbn.
    - intros. simplify_eq. done.
    - subst acc. cbn. destruct (apply g0 e) as [g1|err] eqn:Happ.
      + apply IH with (g0 := g1); [done|]. by rewrite (apply_id _ _ _ Happ).
      + clear IH. intros Hfold. exfalso.
        induction history as [|e' history IH']; cbn in Hfold; [discriminate|auto]. }
  apply (Hgen _ (create X)); done.
Qed.


End ChainInvariant.

(** *** The in-memory store behind the ports *)

Section StorePorts.
Import AddGoal Goal InMemory Streams.

Context (now : string).

Lemma add_stream g o sc si so b ctx event :
  add now g o sc si so b ctx = Returned event ->
  streamId event = id g /\ version event = S (folded g).
Proof. unfold add. case_match; [by case_match|]. by intros [= <-]. Qed.

Lemma append_appends : appends streamId stream_of append.
Proof.
  intros event w outcome w' s. unfold append.
  destruct (negb (available w)); [intros [= <- <-]; by rewrite app_nil_r|].
  destruct (negb _); [intros [= <- <-]; by rewrite app_nil_r|].
  intros [= <- <-]. unfold stream_of at 1; cbn.
  destruct (String.eqb (streamId event) s) eqn:Hs.
  - apply String.eqb_eq in Hs as <-. by rewrite lookup_insert_eq.
  - apply String.eqb_neq in Hs. rewrite lookup_insert_ne by done.
    unfold stream_of. by rewrite app_nil_r.
Qed.

Lemma publish_reads (event : DomainEvent) : reads stream_of (publish event).
Proof.
  intros w outcome w' s. unfold publish. by repeat case_match; intros [= <- <-].
Qed.

Lemma readStream_reads (goalId : string) : reads stream_of (readStream goalId).
Proof. by intros w outcome w' s [= <- <-]. Qed.

Lemma findById_reads (goalId : string) : reads stream_of (findById goalId).
Proof. by intros w outcome w' s [= <- <-]. Qed.

(** The in-memory store keeps to the contracts of the ports. *)
Lemma chainingHandler_ports : ports streamId stream_of chainingHandler.
Proof.
  split; cbn.
  - apply append_appends.
  - apply publish_reads.
  - intros ? [= <-]. apply append_appends.
  - intros ? goalId [= <-]. apply readStream_reads.
  - intros ? goalId [= <-]. apply findById_reads.
Qed.

(** The aggregate written from the specification puts its events on its
    own stream. *)
Lemma imports_ownStream :
  @ownStream World DomainEvent State (imports now) streamId stream_of.
Proof.
  split; [|split].
  - intros w s. cbn. unfold nextUUID. by destruct (entropy w).
  - intros goalId o sc si so b ctx event Hadd. cbn in Hadd.
    by apply add_stream in Hadd as [-> _].
  - intros X history previousGoal newId updateEvent Hre Hlink. cbn in Hre, Hlink.
    injection Hlink as <-. cbn. by apply rehydrate_id in Hre.
Qed.

End StorePorts.

(** *** The handler over the in-memory store *)

Section HandlerScenarios.
Import AddGoal Goal InMemory Scenario.

Local Abbreviation outcomeOf := (@outcomeOf World DomainEvent State State goalImports).
Local Abbreviation callsOf := (@callsOf World DomainEvent State State goalImports).
Local Abbreviation newGoalId := (@newGoalId World DomainEvent State goalImports).

(** Picks the member of a list that was computed. *)
Ltac pick_member := vm_compute; repeat first [left; reflexivity | right].

(** The example scenario of the specification: A alone, then B after A. *)
Example add_goal_alone :
  run chainingHandler (goalCommand "A" None) (emptyWorld ["a"; "b"; "c"])
  = (Returned "goal_a",
     {| world := worldWithA;
        trace := [addCall (goalCommand "A" None) "goal_a";
                  CallAppend (goalAdded "goal_a" "A") (Returned tt);
                  CallPublish (goalAdded "goal_a" "A") (Returned tt)] |}) /\
  stream_of worldWithA "goal_a" = [goalAdded "goal_a" "A"].
Proof. split; vm_compute; reflexivity. Qed.

Example add_goal_after_previous :
  let after := run chainingHandler addBafterA worldWithA in
  after.1 = Returned "goal_b" /\
  stream_of (world after.2) "goal_b" = [goalAdded "goal_b" "B"] /\
  stream_of (world after.2) "goal_a"
  = [goalAdded "goal_a" "A"; goalLinked "goal_a" "goal_b" 2] /\
  (g ← rehydrate "goal_a" (stream_of (world after.2) "goal_a");
   Returned (field g "nextGoalId")) = Returned (JsString "goal_b").
Proof. repeat split; vm_compute; reflexivity. Qed.

(** The failure scenario of the specification: the previous goal does not
    exist; the new goal's stream holds its add event and nothing else. *)
Example add_goal_after_missing_previous :
  let after := run chainingHandler addCafterNothing worldWithA in
  after.1 = Thrown (Error "Goal not found: goal_nonexistent") /\
  stream_of (world after.2) "goal_b" = [goalAdded "goal_b" "C"] /\
  stream_of (world after.2) "goal_nonexistent" = [].
Proof. repeat split; vm_compute; reflexivity. Qed.


Lemma not_found_fails_before_reading_witness :
  previousGoalId addCafterNothing = Some "goal_nonexistent" /\
  In (CallFindById "goal_nonexistent" (Returned None))
     (callsOf chainingHandler addCafterNothing worldWithA) /\
  outcomeOf chainingHandler addCafterNothing worldWithA
  = Thrown (@goalNotFound World DomainEvent State goalImports "goal_nonexistent") /\
  last (callsOf chainingHandler addCafterNothing worldWithA)
  = Some (CallFindById "goal_nonexistent" (Returned None)) /\
  (forall c, In c (callsOf chainingHandler addCafterNothing worldWithA) ->
             isReadStream c = false /\ isUpdateAppend c = false).
Proof.
  assert (Hprev : previousGoalId addCafterNothing = Some "goal_nonexistent") by reflexivity.
  assert (Hnull : In (CallFindById "goal_nonexistent" (Returned None))
                     (callsOf chainingHandler addCafterNothing worldWithA))
    by pick_member.
  split; [exact Hprev|]. split; [exact Hnull|].
  exact (@not_found_fails_before_reading World DomainEvent State State goalImports
           chainingHandler addCafterNothing worldWithA "goal_nonexistent" Hprev Hnull).
Defined.

(** C4 as stated fails: with the optional collaborators absent and
    previousGoalId = "goal_a", a store that cannot be reached makes execute
    fail with the store's error, not with the configuration error; and with
    previousGoalId = "" execute returns normally, the link silently
    skipped. *)
Lemma configuration_error_counterexample :
  (previousGoalId addBafterA = Some "goal_a" /\
   chainingConfigured plainHandler = false /\
   outcomeOf plainHandler addBafterA storeDown = Thrown (Error "StoreUnavailable") /\
   outcomeOf plainHandler addBafterA storeDown <> Thrown chainingNotConfigured) /\
  (previousGoalId addWithEmptyPrevious = Some "" /\
   chainingConfigured plainHandler = false /\
   outcomeOf plainHandler addWithEmptyPrevious worldWithA = Returned "goal_b").
Proof.
  repeat split; try (vm_compute; reflexivity). vm_compute. discriminate.
Qed.

Lemma unconfigured_chaining_fails_witness :
  previousGoalId addBafterA = Some "goal_a" /\
  "goal_a" <> "" /\
  chainingConfigured plainHandler = false /\
  (exists e, outcomeOf plainHandler addBafterA worldWithA = Thrown e) /\
  (forall c, In c (callsOf plainHandler addBafterA worldWithA) ->
             isChainingCall c = true ->
             c = CallUpdatePrevious "goal_a" (newGoalId worldWithA)) /\
  (forall pre event outcome post,
      callsOf plainHandler addBafterA worldWithA
      = pre ++ CallPublish event outcome :: post ->
      pre = [@addCall DomainEvent State addBafterA (newGoalId worldWithA);
             CallAppend event (Returned tt)]) /\
  (forall event,
      In (CallPublish event (Returned tt)) (callsOf plainHandler addBafterA worldWithA) ->
      outcomeOf plainHandler addBafterA worldWithA = Thrown chainingNotConfigured).
Proof.
  assert (Hprev : previousGoalId addBafterA = Some "goal_a") by reflexivity.
  assert (HX : "goal_a" <> "") by discriminate.
  assert (Hcfg : chainingConfigured plainHandler = false) by reflexivity.
  split; [exact Hprev|]. split; [exact HX|]. split; [exact Hcfg|].
  exact (@unconfigured_chaining_fails World DomainEvent State State goalImports
           plainHandler addBafterA worldWithA "goal_a" Hprev HX Hcfg).
Defined.

Example unconfigured_chaining_throws :
  outcomeOf plainHandler addBafterA worldWithA = Thrown chainingNotConfigured /\
  stream_of (world (run plainHandler addBafterA worldWithA).2) "goal_b"
  = [goalAdded "goal_b" "B"].
Proof. split; vm_compute; reflexivity. Qed.


(** C6 as stated fails: a command whose nextGoalId is present but is the
    empty string, with no other optional field, has the embedded context
    omitted: the aggregate that answers with the embedded context it was
    handed answers undefined, and that is the event which is appended. *)
Lemma embedded_context_counterexample :
  nextGoalId addWithEmptyNext = JsString "" /\
  nextGoalId addWithEmptyNext <> JsUndefined /\
  @AddGoal.callsOf unit JsValue unit unit MoreScenarios.echoImports
    MoreScenarios.echoHandler addWithEmptyNext tt
  = [CallGoalAdd "goal_e" (JsString "E") (JsArray [JsString "done"])
       (JsArray []) (JsArray []) (JsArray []) JsUndefined;
     CallAppend JsUndefined (Returned tt);
     CallPublish JsUndefined (Returned tt)].
Proof. repeat split; try (vm_compute; reflexivity). discriminate. Qed.

(** With a field that is truthy the same aggregate answers the object of
    the eight fields. *)
Example embedded_context_is_handed_on :
  @AddGoal.callsOf unit JsValue unit unit MoreScenarios.echoImports
    MoreScenarios.echoHandler MoreScenarios.addWithArchitecture tt !! 1
  = Some (CallAppend
            (JsObject [("relevantInvariants", JsUndefined);
                       ("relevantGuidelines", JsUndefined);
                       ("relevantDependencies", JsUndefined);
                       ("relevantComponents", JsUndefined);
                       ("architecture", JsString "hexagonal");
                       ("filesToBeCreated", JsUndefined);
                       ("filesToBeChanged", JsUndefined);
                       ("nextGoalId", JsUndefined)])
            (Returned tt)).
Proof. vm_compute. reflexivity. Qed.

End HandlerScenarios.

(** ** File operations *)

Section FileOperations.
Import Fs.

Lemma failures_logged (c : FsCall) (err : option JsError) (w : World) :
  failures (logged c err w)
  = failures w ++ match err with Some e => [e] | None => [] end.
Proof. unfold failures, logged; cbn. rewrite omap_app. by destruct err. Qed.

Lemma next_fault_inv (w : World) :
  exists f w1, next_fault w = (f, w1) /\
    files w1 = files w /\ dirs w1 = dirs w /\ oplog w1 = oplog w /\
    console w1 = console w /\ now w1 = now w.
Proof. unfold next_fault. destruct (faults w); eauto 10. Qed.

(** Settles [failFast] for one operation, by cases on the fault it meets. *)
Ltac fs_op :=
  let w := fresh "w" in let o := fresh "o" in let w' := fresh "w'" in
  let Heq := fresh "Heq" in
  intros w o w';
  destruct (next_fault_inv w) as (? & ? & -> & ? & ? & ? & ? & ?);
  intros Heq;
  unfold tear in *; repeat case_match; simplify_eq;
  (split; [by cbn |]);
  intros ? ?; simplify_eq;
  rewrite ?failures_logged, ?app_nil_r; unfold failures, set_files, set_dirs; cbn;
  congruence.

Lemma failFast_ensureDir dir : failFast (ensureDir dir).
Proof. unfold ensureDir. fs_op. Qed.

Lemma failFast_pathExists path : failFast (pathExists path).
Proof. unfold pathExists. fs_op. Qed.

Lemma failFast_copy src dest : failFast (copy src dest).
Proof. unfold copy. fs_op. Qed.

Lemma failFast_readFile path : failFast (readFile path).
Proof. unfold readFile. fs_op. Qed.

Lemma failFast_writeFile path content : failFast (writeFile path content).
Proof. unfold writeFile. fs_op. Qed.

Lemma failFast_ret {A} (a : A) : failFast (mret a : Prog World A).
Proof. intros w o w' [= <- <-]. split; [done|]. by intros ? _. Qed.

Lemma failFast_throw {A} (e : JsError) : failFast (throw e : Prog World A).
Proof. intros w o w' [= <- <-]. split; [done|]. by intros ? _. Qed.

Lemma failFast_lift {A} (o : Outcome A) : failFast (lift o : Prog World A).
Proof. intros w o' w' [= <- <-]. split; [done|]. by intros ? _. Qed.

Lemma failFast_Date_now : failFast Date_now.
Proof. intros w o w' [= <- <-]. split; [done|]. by intros ? _. Qed.

Lemma failFast_bind {A B} (m : Prog World A) (k : A -> Prog World B) :
  failFast m -> (forall a, failFast (k a)) -> failFast (m ≫= k).
Proof.
  intros Hm Hk w o w'. unfold mbind, prog_bind, bind.
  destruct (m w) as [[a|e] w1] eqn:Hrun; intros Heq.
  - destruct (Hm _ _ _ Hrun) as [Hc Hf]. destruct (Hk a _ _ _ Heq) as [Hc' Hf'].
    split; [congruence|]. intros b ->. rewrite (Hf' b eq_refl). by apply (Hf a).
  - simplify_eq. destruct (Hm _ _ _ Hrun) as [Hc _]. split; [done|]. by intros ? ?.
Qed.

Lemma failFast_when (c : bool) (m : Prog World unit) :
  failFast m -> failFast (when c m).
Proof. destruct c; [done|]. intros _. apply failFast_ret. Qed.

(** A handler that cleans up and throws again keeps the whole fail-fast. *)
Lemma failFast_try_rethrow {A} (body : Prog World A) (handler : JsError -> Prog World A) :
  failFast body ->
  (forall e, failFast (handler e)) ->
  (forall e w, ~ returns (handler e) w) ->
  failFast (try_catch body handler).
Proof.
  intros Hb Hh Hthrows w o w'. unfold try_catch.
  destruct (body w) as [[a|e] w1] eqn:Hrun; intros Heq.
  - simplify_eq. by apply Hb.
  - destruct (Hb _ _ _ Hrun) as [Hc _]. destruct (Hh e _ _ _ Heq) as [Hc' _].
    split; [congruence|]. intros a ->. destruct (Hthrows e w1). by exists a, w'.
Qed.

(** [try { body } catch (error) { console.warn(...) }] *)
Lemma graceful_try_warn (body : Prog World unit) (line : JsError -> string) :
  failFast body ->
  graceful (try_catch body (fun error => console_warn (line error))).
Proof.
  intros Hb w. unfold try_catch.
  destruct (body w) as [[[]|e] w1] eqn:Hrun; destruct (Hb _ _ _ Hrun) as [Hc Hf].
  - exists w1. rewrite Hc, (Hf tt eq_refl). split; [done|]. lia.
  - eexists. split; [reflexivity|]. cbn. rewrite Hc, length_app. cbn. lia.
Qed.

Lemma graceful_seq (m1 m2 : Prog World unit) :
  graceful m1 -> graceful m2 -> graceful (m1 ;; m2).
Proof.
  intros H1 H2 w. unfold mbind, prog_bind, bind.
  destruct (H1 w) as (w1 & -> & Hc1 & Hf1). destruct (H2 w1) as (w2 & -> & Hc2 & Hf2).
  exists w2. split; [done|]. split; [lia|]. intros Hlt.
  destruct (decide (length (failures w) < length (failures w1))); lia.
Qed.

(** Settles what one operation leaves behind, by cases on the fault it meets. *)
Ltac fs_run :=
  let w := fresh "w" in let o := fresh "o" in let w' := fresh "w'" in
  intros w o w';
  destruct (next_fault_inv w) as (? & ? & -> & ? & ? & ? & ? & ?);
  intros ?; unfold ran, tear in *;
  repeat case_match; simplify_eq; cbn;
  repeat split; try congruence; try (intros; simplify_map_eq; congruence).

Lemma ensureDir_run dir w o w' :
  ensureDir dir w = (o, w') -> ran (EnsureDir dir) w o w' /\ files w' = files w.
Proof. revert w o w'. unfold ensureDir. fs_run. Qed.

Lemma pathExists_run path w o w' :
  pathExists path w = (o, w') ->
  exists answer,
    o = Returned answer /\
    oplog w' = oplog w ++ [(PathExists path answer, None)] /\
    files w' = files w /\ dirs w' = dirs w /\
    (answer = true -> is_Some (files w !! path) \/ path ∈ dirs w).
Proof.
  unfold pathExists.
  destruct (next_fault_inv w) as (f & w1 & -> & Hfiles & Hdirs & Hlog & _ & _).
  destruct f as [|e torn]; intros [= <- <-]; eexists; (split; [reflexivity|]); cbn;
    rewrite Hlog, Hfiles, Hdirs; repeat split; try done.
  intros Hanswer. destruct (files w !! path); [left; eauto|right].
  by apply bool_decide_eq_true in Hanswer.
Qed.

Lemma copy_run src dest w o w' :
  copy src dest w = (o, w') ->
  ran (Copy src dest) w o w' /\
  (forall p, p <> dest -> files w' !! p = files w !! p) /\
  (o = Returned tt -> files w' !! dest = files w !! src).
Proof. revert w o w'. unfold copy. fs_run. Qed.

Lemma readFile_run path w o w' :
  readFile path w = (o, w') ->
  ran (ReadFile path) w o w' /\ files w' = files w /\
  (forall content, o = Returned content -> files w !! path = Some content).
Proof. revert w o w'. unfold readFile. fs_run. Qed.

Lemma writeFile_run path content w o w' :
  writeFile path content w = (o, w') ->
  ran (WriteFile path content) w o w' /\
  (forall p, p <> path -> files w' !! p = files w !! p) /\
  (o = Returned tt -> files w' !! path = Some content).
Proof. revert w o w'. unfold writeFile. fs_run. Qed.

Lemma opsSince_app (w w' : World) new :
  oplog w' = oplog w ++ new -> opsSince w w' = new.
Proof. unfold opsSince. intros ->. apply drop_app_length. Qed.

End FileOperations.

Create HintDb failfast.
#[global] Hint Resolve failFast_ret failFast_throw failFast_lift failFast_Date_now
  failFast_when failFast_ensureDir failFast_pathExists failFast_copy
  failFast_readFile failFast_writeFile : failfast.

(** Walks through a body made of file operations. *)
Ltac fail_fast :=
  repeat first
    [ apply failFast_bind; [| intros ? ]
    | progress auto with failfast
    | progress cbv zeta
    | match goal with |- Fs.failFast (if ?c then _ else _) => destruct c end
    | match goal with |- Fs.failFast (match ?c with _ => _ end) => destruct c end ].

(** Rewrites the log of every later state in terms of the first one. *)
Ltac chain_logs :=
  unfold Fs.ran in *;
  repeat match goal with
         | H : Fs.oplog ?w' = Fs.oplog ?w ++ _ |- _ => rewrite H in *; clear H
         end;
  rewrite <- ?app_assoc in *; cbn [app] in *.

(** ** SafeGeminiSettingsMerger *)

Section MergerProperties.
Import Fs SafeGeminiSettingsMerger.
Context `{JSON}.

Lemma failFast_mergeAttempt settingsPath newSettings :
  failFast (mergeAttempt settingsPath newSettings).
Proof. unfold mergeAttempt. fail_fast. Qed.

Lemma rollback_throws backupPath settingsPath error (w : World) :
  ~ returns (rollback backupPath settingsPath error) w.
Proof.
  unfold rollback, returns, when, throw, mbind, mret, prog_bind, prog_ret, bind, ret.
  intros (a & w' & Hrun). repeat case_match; simplify_eq.
Qed.

Lemma failFast_rollback backupPath settingsPath error :
  failFast (rollback backupPath settingsPath error).
Proof. unfold rollback. fail_fast. Qed.

Lemma failFast_mergeSettings projectRoot newSettings :
  failFast (mergeSettings projectRoot newSettings).
Proof.
  unfold mergeSettings. fail_fast.
  apply failFast_try_rethrow;
    [apply failFast_mergeAttempt | apply failFast_rollback | apply rollback_throws].
Qed.

Lemma string_app_ne (s t : string) : t <> "" -> s +:+ t <> s.
Proof.
  intros Ht. induction s as [|a s IH]; cbn; [done|].
  intros [= Heq]. by apply IH.
Qed.

Lemma backupPath_ne (projectRoot : string) (now : N) :
  backupPathOf projectRoot now <> settingsPathOf projectRoot.
Proof. unfold backupPathOf. apply string_app_ne. done. Qed.

End MergerProperties.

Section MergerScenarios.
Import Fs SafeGeminiSettingsMerger Scenario.

(** C8: the merge is not idempotent.  Merging, into a settings file that
    holds {}, a matcher that lists the same hook twice writes both hooks;
    merging the same settings again finds the matcher, deduplicates by
    command and rewrites the file with a single hook.  Both runs return
    normally, and already on values the merge of the merged settings differs
    from the merged settings. *)
Theorem mergeSettings_second_run_rewrites_file :
  files emptySettings !! settingsPath = Some "{}" /\
  (merge repeatedHook emptySettings).1 = Returned tt /\
  (merge repeatedHook afterFirstMerge).1 = Returned tt /\
  files afterFirstMerge !! settingsPath
  = Some (@JSON_stringify MiniJson.codec
            (startupMatcher [jumboHookObject; jumboHookObject]) 2 +:+ LF) /\
  files afterSecondMerge !! settingsPath
  = Some (@JSON_stringify MiniJson.codec (startupMatcher [jumboHookObject]) 2 +:+ LF) /\
  files afterSecondMerge !! settingsPath <> files afterFirstMerge !! settingsPath /\
  deepMerge (deepMerge (JsObject []) repeatedHook) repeatedHook
  <> deepMerge (JsObject []) repeatedHook.
Proof.
  repeat split; try (vm_compute; reflexivity).
  all: vm_compute; discriminate.
Qed.

(** A third run changes nothing any more. *)
Example mergeSettings_third_run_is_stable :
  files (merge repeatedHook afterSecondMerge).2 !! settingsPath
  = files afterSecondMerge !! settingsPath.
Proof. vm_compute. reflexivity. Qed.

(** With distinct commands the second run leaves the file as it is. *)
Example mergeSettings_jumbo_hook_twice :
  let once := (merge GeminiConfigurer.jumboHook (project [] [])).2 in
  files (merge GeminiConfigurer.jumboHook once).2 !! settingsPath
  = files once !! settingsPath.
Proof. vm_compute. reflexivity. Qed.

End MergerScenarios.

(** ** The configurers *)

Section ConfigurerProperties.
Import Fs SafeGeminiSettingsMerger.
Context `{AgentInstructions} `{JSON}.

Lemma graceful_ensureGeminiMd projectRoot :
  graceful (GeminiConfigurer.ensureGeminiMd projectRoot).
Proof. apply graceful_try_warn. fail_fast. Qed.

Lemma graceful_ensureGeminiSettings projectRoot :
  graceful (GeminiConfigurer.ensureGeminiSettings projectRoot).
Proof. apply graceful_try_warn, failFast_mergeSettings. Qed.

Lemma graceful_ensureCopilotInstructions projectRoot :
  graceful (CopilotConfigurer.ensureCopilotInstructions projectRoot).
Proof. apply graceful_try_warn. fail_fast. Qed.

Lemma graceful_ensureCursorMd projectRoot :
  graceful (CursorConfigurer.ensureCursorMd projectRoot).
Proof. apply graceful_try_warn. fail_fast. Qed.

Lemma graceful_ensureCursorRule projectRoot :
  graceful (CursorConfigurer.ensureCursorRule projectRoot).
Proof. apply graceful_try_warn. fail_fast. Qed.

(** C7: for every project root, every state of the file system and every
    fault that any of its file operations meets, configure of the Gemini,
    the Copilot and the Cursor configurer returns normally; it never removes
    a console line, and whenever a file operation failed during the call it
    has logged a warning. *)
Theorem configurers_never_throw (projectRoot : string) (w : World) :
  (exists w',
      GeminiConfigurer.configure projectRoot w = (Returned tt, w') /\
      length (console w) <= length (console w') /\
      (length (failures w) < length (failures w') ->
       length (console w) < length (console w'))) /\
  (exists w',
      CopilotConfigurer.configure projectRoot w = (Returned tt, w') /\
      length (console w) <= length (console w') /\
      (length (failures w) < length (failures w') ->
       length (console w) < length (console w'))) /\
  (exists w',
      CursorConfigurer.configure projectRoot w = (Returned tt, w') /\
      length (console w) <= length (console w') /\
      (length (failures w) < length (failures w') ->
       length (console w) < length (console w'))).
Proof.
  split; [|split].
  - apply (graceful_seq _ _ (graceful_ensureGeminiMd projectRoot)
             (graceful_ensureGeminiSettings projectRoot)).
  - apply graceful_ensureCopilotInstructions.
  - apply (graceful_seq _ _ (graceful_ensureCursorMd projectRoot)
             (graceful_ensureCursorRule projectRoot)).
Qed.

End ConfigurerProperties.

Section ConfigurerScenarios.
Import Fs Scenario.

(** On a disk where every operation fails the Gemini configurer still
    returns, with one warning per file it could not bring up to date; on a
    healthy disk it writes both files and stays silent. *)
Example gemini_configure_on_read_only_disk :
  let after :=
    @GeminiConfigurer.configure instructions MiniJson.codec "/proj" readOnlyDisk in
  after.1 = Returned tt /\
  console after.2
  = ["Warning: Failed to update GEMINI.md: EROFS: read-only file system";
     "Warning: Failed to configure Gemini CLI hook: EROFS: read-only file system"] /\
  files after.2 = files readOnlyDisk.
Proof. repeat split; vm_compute; reflexivity. Qed.

Example gemini_configure_on_healthy_disk :
  let after :=
    @GeminiConfigurer.configure instructions MiniJson.codec "/proj" (project [] []) in
  after.1 = Returned tt /\
  console after.2 = [] /\
  files after.2 !! "/proj/GEMINI.md"
  = Some ("See AGENTS.md for instructions on using Jumbo." +:+ SafeGeminiSettingsMerger.LF) /\
  files after.2 !! settingsPath
  = Some (@SafeGeminiSettingsMerger.JSON_stringify MiniJson.codec
            (startupMatcher [jumboHookObject]) 2 +:+ SafeGeminiSettingsMerger.LF).
Proof. repeat split; vm_compute; reflexivity. Qed.

Example cursor_and_copilot_configure_on_read_only_disk :
  (@CursorConfigurer.configure instructions "/proj" readOnlyDisk).1 = Returned tt /\
  length (console (@CursorConfigurer.configure instructions "/proj" readOnlyDisk).2) = 2 /\
  (@CopilotConfigurer.configure instructions "/proj" readOnlyDisk).1 = Returned tt /\
  length (console (@CopilotConfigurer.configure instructions "/proj" readOnlyDisk).2) = 1.
Proof. repeat split; vm_compute; reflexivity. Qed.

End ConfigurerScenarios.

(** * Further properties

    What the embedded code shows beyond the statements of the
    specification: where errors go, what the merge keeps, what the file
    operations touch, and what a second run does. *)

(** ** The add-goal command handler: errors and returns *)

Section HandlerErrors.
Import AddGoal HandlerCalls.

Context {World Event Aggregate GoalView : Type} `{!Imports World Event Aggregate}.

Local Abbreviation Handler := (Handler World Event GoalView).
Local Abbreviation Call := (Call Event GoalView).

(** X1: execute swallows no error of a collaborator: when a call on the
    event writer, the event bus, the goal reader, the stream reader or the
    update writer throws e, execute throws that same e and that call is the
    last call it makes. *)
Theorem collaborator_error_reaches_caller
    (this : Handler) (command : AddGoalCommand) (w : World) (c : Call) (e : JsError) :
  In c (callsOf this command w) ->
  thrownBy c = Some e ->
  outcomeOf this command w = Thrown e /\
  last (callsOf this command w) = Some c.
Proof.
  by_cases_of (execute_execution this command w); intros Hin Hthrown; cbn in Hin.
  all: try match goal with o : Outcome unit |- _ => destruct o as [[]|?] end.
  all: repeat (destruct Hin as [<-|Hin];
               [cbn in Hthrown; try discriminate Hthrown; simplify_eq; by split|]).
  all: destruct Hin.
Qed.

(** X2: when the aggregate's add rejects the command with e, execute throws
    e and has called no collaborator: nothing is appended and nothing is
    published. *)
Theorem rejected_goal_is_not_written
    (this : Handler) (command : AddGoalCommand) (w : World) (e : JsError) :
  addEvent command (newGoalId w) = Thrown e ->
  outcomeOf this command w = Thrown e /\
  callsOf this command w = [addCall command (newGoalId w)].
Proof.
  by_cases_of (execute_execution this command w); intros Hadd; try congruence.
  split; [congruence|done].
Qed.

(** X3: every error execute throws has one of these origins: the
    aggregate's add threw it; the last call on a collaborator threw it; or
    previousGoalId is a non-empty X and either the chaining collaborators
    are not configured (the configuration error), or the finder returned
    null for X (the not-found error), or rehydrating X from the history
    read, or the update of the rehydrated goal, threw it. *)
Theorem execute_error_origins
    (this : Handler) (command : AddGoalCommand) (w : World) (e : JsError) :
  outcomeOf this command w = Thrown e ->
  addEvent command (newGoalId w) = Thrown e \/
  (exists c, last (callsOf this command w) = Some c /\ thrownBy c = Some e) \/
  exists X,
    previousGoalId command = Some X /\ X <> "" /\
    ((chainingConfigured this = false /\ e = chainingNotConfigured) \/
     (last (callsOf this command w) = Some (CallFindById X (Returned None)) /\
      e = goalNotFound X) \/
     exists history,
       In (CallReadStream X (Returned history)) (callsOf this command w) /\
       (Goal_rehydrate X history = Thrown e \/
        exists previousGoal,
          Goal_rehydrate X history = Returned previousGoal /\
          linkEvent previousGoal (newGoalId w) = Thrown e)).
Proof.
  by_cases_of (execute_execution this command w); intros Hout; simplify_eq.
  - by left.
  - right. left. by eexists.
  - right. left. by eexists.
  - right. right. eexists. split; [done|]. split; [done|]. by left.
  - right. left. by eexists.
  - right. right. eexists. split; [done|]. split; [done|]. right. by left.
  - right. left. by eexists.
  - right. right. eexists. split; [done|]. split; [done|]. right. right.
    eexists. split; [cbn; eauto 10|]. by left.
  - right. right. eexists. split; [done|]. split; [done|]. right. right.
    eexists. split; [cbn; eauto 10|]. right. eauto.
  - right. left. by eexists.
  - destruct outcome as [[]|e']; simplify_eq. right. left. by eexists.
Qed.

(** X4: when execute returns, the id it returns is goal_ followed by the
    uuid drawn, no call on a collaborator has thrown, and the first calls
    were add on the new aggregate, the successful append of its event and
    the successful publish of that event; with an absent or empty
    previousGoalId these three calls are all it made. *)
Theorem execute_returns_after_writes
    (this : Handler) (command : AddGoalCommand) (w : World) (goalId : string) :
  outcomeOf this command w = Returned goalId ->
  goalId = newGoalId w /\
  (forall c, In c (callsOf this command w) -> thrownBy c = None) /\
  exists event rest,
    addEvent command goalId = Returned event /\
    callsOf this command w
    = addCall command goalId :: CallAppend event (Returned tt)
      :: CallPublish event (Returned tt) :: rest /\
    (truthy_string (previousGoalId command) = false -> rest = []).
Proof.
  by_cases_of (execute_execution this command w); intros Hout; simplify_eq.
  - split; [done|]. split.
    + intros c Hc. cbn in Hc. by repeat (destruct Hc as [<-|Hc]; [done|]).
    + by eexists _, _.
  - destruct outcome as [[]|e']; simplify_eq. split; [done|]. split.
    + intros c Hc. cbn in Hc. by repeat (destruct Hc as [<-|Hc]; [done|]).
    + eexists _, _. split; [done|]. split; [done|].
      intros Hfalsy. match goal with
                     | Hp : previousGoalId _ = Some _ |- _ => rewrite Hp in Hfalsy
                     end.
      by apply truthy_string_false in Hfalsy.
Qed.

(** X5: with an absent or empty previousGoalId execute never enters the
    chaining step, whatever the handler is configured with: no lookup, no
    read of a stream, no rehydration, no update append. *)
Theorem falsy_previous_skips_chaining
    (this : Handler) (command : AddGoalCommand) (w : World) (c : Call) :
  truthy_string (previousGoalId command) = false ->
  In c (callsOf this command w) ->
  isChainingCall c = false.
Proof.
  by_cases_of (execute_execution this command w); intros Hfalsy Hin; cbn in Hin.
  all: try (match goal with
            | Hp : previousGoalId _ = Some _ |- _ =>
                rewrite Hp in Hfalsy; apply truthy_string_false in Hfalsy; congruence
            end).
  all: by repeat (destruct Hin as [<-|Hin]; [done|]).
Qed.

End HandlerErrors.

Section FurtherHandlerScenarios.
Import AddGoal HandlerCalls Goal InMemory Scenario MoreScenarios.

Local Abbreviation outcomeOf := (@outcomeOf World DomainEvent State State goalImports).
Local Abbreviation callsOf := (@callsOf World DomainEvent State State goalImports).
Local Abbreviation newGoalId := (@newGoalId World DomainEvent State goalImports).
Local Abbreviation addEvent := (@addEvent World DomainEvent State goalImports).

(** Picks the member of a list that was computed. *)
Ltac pick_member := vm_compute; repeat first [left; reflexivity | right].

Lemma collaborator_error_reaches_caller_witness :
  In (CallAppend (goalAdded "goal_a" "B") (Thrown (Error "StoreUnavailable")))
     (callsOf chainingHandler addBafterA storeDown) /\
  thrownBy (@CallAppend DomainEvent State (goalAdded "goal_a" "B")
              (Thrown (Error "StoreUnavailable")))
  = Some (Error "StoreUnavailable") /\
  outcomeOf chainingHandler addBafterA storeDown = Thrown (Error "StoreUnavailable") /\
  last (callsOf chainingHandler addBafterA storeDown)
  = Some (CallAppend (goalAdded "goal_a" "B") (Thrown (Error "StoreUnavailable"))).
Proof.
  assert (Hin : In (CallAppend (goalAdded "goal_a" "B") (Thrown (Error "StoreUnavailable")))
                   (callsOf chainingHandler addBafterA storeDown))
    by pick_member.
  split; [exact Hin|]. split; [reflexivity|].
  exact (@collaborator_error_reaches_caller World DomainEvent State State goalImports
           chainingHandler addBafterA storeDown _ _ Hin eq_refl).
Defined.

Lemma rejected_goal_is_not_written_witness :
  addEvent addWithoutObjective (newGoalId (emptyWorld ["a"]))
  = Thrown (Error "ValidationError: objective is required") /\
  outcomeOf chainingHandler addWithoutObjective (emptyWorld ["a"])
  = Thrown (Error "ValidationError: objective is required") /\
  callsOf chainingHandler addWithoutObjective (emptyWorld ["a"])
  = [addCall addWithoutObjective (newGoalId (emptyWorld ["a"]))].
Proof.
  assert (Hadd : addEvent addWithoutObjective (newGoalId (emptyWorld ["a"]))
                 = Thrown (Error "ValidationError: objective is required"))
    by (vm_compute; reflexivity).
  split; [exact Hadd|].
  exact (@rejected_goal_is_not_written World DomainEvent State State goalImports
           chainingHandler addWithoutObjective (emptyWorld ["a"]) _ Hadd).
Defined.

Lemma execute_error_origins_witness :
  outcomeOf plainHandler addBafterA worldWithA = Thrown chainingNotConfigured /\
  (addEvent addBafterA (newGoalId worldWithA) = Thrown chainingNotConfigured \/
   (exists c, last (callsOf plainHandler addBafterA worldWithA) = Some c /\
              thrownBy c = Some chainingNotConfigured) \/
   exists X,
     previousGoalId addBafterA = Some X /\ X <> "" /\
     ((chainingConfigured plainHandler = false /\
       chainingNotConfigured = chainingNotConfigured) \/
      (last (callsOf plainHandler addBafterA worldWithA)
       = Some (CallFindById X (Returned None)) /\
       chainingNotConfigured = @goalNotFound World DomainEvent State goalImports X) \/
      exists history,
        In (CallReadStream X (Returned history))
           (callsOf plainHandler addBafterA worldWithA) /\
        (rehydrate X history = Thrown chainingNotConfigured \/
         exists previousGoal,
           rehydrate X history = Returned previousGoal /\
           @linkEvent World DomainEvent State goalImports previousGoal
             (newGoalId worldWithA) = Thrown chainingNotConfigured))).
Proof.
  assert (Hout : outcomeOf plainHandler addBafterA worldWithA = Thrown chainingNotConfigured)
    by (vm_compute; reflexivity).
  split; [exact Hout|].
  exact (@execute_error_origins World DomainEvent State State goalImports
           plainHandler addBafterA worldWithA _ Hout).
Defined.

Lemma execute_returns_after_writes_witness :
  outcomeOf chainingHandler (goalCommand "A" None) (emptyWorld ["a"; "b"; "c"])
  = Returned "goal_a" /\
  "goal_a" = newGoalId (emptyWorld ["a"; "b"; "c"]) /\
  (forall c, In c (callsOf chainingHandler (goalCommand "A" None)
                     (emptyWorld ["a"; "b"; "c"])) ->
             thrownBy c = None) /\
  exists event rest,
    addEvent (goalCommand "A" None) "goal_a" = Returned event /\
    callsOf chainingHandler (goalCommand "A" None) (emptyWorld ["a"; "b"; "c"])
    = addCall (goalCommand "A" None) "goal_a" :: CallAppend event (Returned tt)
      :: CallPublish event (Returned tt) :: rest /\
    (truthy_string (previousGoalId (goalCommand "A" None)) = false -> rest = []).
Proof.
  assert (Hout : outcomeOf chainingHandler (goalCommand "A" None)
                   (emptyWorld ["a"; "b"; "c"]) = Returned "goal_a")
    by (vm_compute; reflexivity).
  split; [exact Hout|].
  exact (@execute_returns_after_writes World DomainEvent State State goalImports
           chainingHandler (goalCommand "A" None) (emptyWorld ["a"; "b"; "c"]) _ Hout).
Defined.

Lemma falsy_previous_skips_chaining_witness :
  truthy_string (previousGoalId addWithEmptyPrevious) = false /\
  In (CallPublish (goalAdded "goal_b" "D") (Returned tt))
     (callsOf plainHandler addWithEmptyPrevious worldWithA) /\
  isChainingCall (@CallPublish DomainEvent State (goalAdded "goal_b" "D") (Returned tt))
  = false.
Proof.
  assert (Hfalsy : truthy_string (previousGoalId addWithEmptyPrevious) = false)
    by reflexivity.
  assert (Hin : In (CallPublish (goalAdded "goal_b" "D") (Returned tt))
                   (callsOf plainHandler addWithEmptyPrevious worldWithA))
    by pick_member.
  split; [exact Hfalsy|]. split; [exact Hin|].
  exact (@falsy_previous_skips_chaining World DomainEvent State State goalImports
           plainHandler addWithEmptyPrevious worldWithA _ Hfalsy Hin).
Defined.

End FurtherHandlerScenarios.

(** ** SafeGeminiSettingsMerger: the merge on values *)

Section PropertyLists.

Lemma lookup_assign_prop key v props :
  lookup_prop key (assign_prop key v props) = Some v.
Proof.
  induction props as [|[k old] rest IH]; cbn.
  - by rewrite String.eqb_refl.
  - destruct (String.eqb k key) eqn:Hk; cbn; rewrite Hk; [done|apply IH].
Qed.

Lemma lookup_assign_prop_ne key key' v props :
  key <> key' -> lookup_prop key' (assign_prop key v props) = lookup_prop key' props.
Proof.
  intros Hne. induction props as [|[k old] rest IH]; cbn.
  - apply String.eqb_neq in Hne. by rewrite Hne.
  - destruct (String.eqb k key) eqn:Hk; cbn.
    + apply String.eqb_eq in Hk as ->. apply String.eqb_neq in Hne. by rewrite Hne.
    + by rewrite IH.
Qed.

Lemma assign_prop_same key v props :
  lookup_prop key props = Some v -> assign_prop key v props = props.
Proof.
  induction props as [|[k old] rest IH]; cbn; [done|].
  destruct (String.eqb k key) eqn:Hk; [by intros [= ->]|].
  intros Hl. by rewrite IH.
Qed.

Lemma assign_prop_twice key v v' props :
  assign_prop key v' (assign_prop key v props) = assign_prop key v' props.
Proof.
  induction props as [|[k old] rest IH]; cbn.
  - by rewrite String.eqb_refl.
  - destruct (String.eqb k key) eqn:Hk; cbn; rewrite Hk; [done|by rewrite IH].
Qed.

Lemma lookup_prop_In key v props : lookup_prop key props = Some v -> In (key, v) props.
Proof.
  induction props as [|[k old] rest IH]; cbn; [done|].
  destruct (String.eqb k key) eqn:Hk.
  - apply String.eqb_eq in Hk as ->. intros [= ->]. by left.
  - intros Hl. right. by apply IH.
Qed.

Lemma lookup_prop_None key props :
  lookup_prop key props = None <-> ~ In key (map fst props).
Proof.
  induction props as [|[k old] rest IH]; cbn; [tauto|].
  destruct (String.eqb k key) eqn:Hk.
  - apply String.eqb_eq in Hk as ->. split; [done|]. intros Hn. destruct Hn. by left.
  - apply String.eqb_neq in Hk. rewrite IH. tauto.
Qed.

Lemma In_lookup_prop key v props :
  NoDup (map fst props) -> In (key, v) props -> lookup_prop key props = Some v.
Proof.
  induction props as [|[k old] rest IH]; cbn; [done|].
  intros Hnd [Heq|Hin].
  - simplify_eq. by rewrite String.eqb_refl.
  - apply NoDup_cons in Hnd as [Hk Hnd].
    destruct (String.eqb k key) eqn:Hkk.
    + apply String.eqb_eq in Hkk as ->. destruct Hk.
      apply list_elem_of_In. change key with (fst (key, v)). by apply in_map.
    + by apply IH.
Qed.

Lemma assign_prop_keys key v props :
  map fst (assign_prop key v props)
  = match lookup_prop key props with
    | Some _ => map fst props
    | None => map fst props ++ [key]
    end.
Proof.
  induction props as [|[k old] rest IH]; cbn; [done|].
  destruct (String.eqb k key) eqn:Hk; cbn; [done|].
  rewrite IH. by destruct (lookup_prop key rest).
Qed.

Lemma assign_prop_NoDup key v props :
  NoDup (map fst props) -> NoDup (map fst (assign_prop key v props)).
Proof.
  intros Hnd. rewrite assign_prop_keys.
  destruct (lookup_prop key props) eqn:Hl; [done|].
  apply NoDup_app. split; [done|]. split; [|apply NoDup_singleton].
  intros x Hx ->%list_elem_of_singleton.
  apply lookup_prop_None in Hl. apply Hl. by apply list_elem_of_In.
Qed.

End PropertyLists.

Section HookMaps.
Import MergedSettings.
Context {A : Type} (key : A -> string) (val : A -> JsValue).

Lemma put_all_NoDup l m :
  NoDup (map fst m) -> NoDup (map fst (fold_left (put key val) l m)).
Proof.
  revert m. induction l as [|x l IH]; intros m Hnd; cbn; [done|].
  apply IH. by apply assign_prop_NoDup.
Qed.

Lemma put_all_snoc l x m :
  fold_left (put key val) (l ++ [x]) m
  = assign_prop (key x) (val x) (fold_left (put key val) l m).
Proof. by rewrite fold_left_app. Qed.

(** Every entry of the map comes from the start or from a [set]. *)
Lemma put_all_In l m k v :
  In (k, v) (fold_left (put key val) l m) ->
  In (k, v) m \/ exists x, In x l /\ k = key x /\ v = val x.
Proof.
  revert m. induction l as [|x l IH]; intros m Hin; cbn in *; [by left|].
  apply IH in Hin as [Hin|(y & Hy & -> & ->)]; [|right; eauto].
  clear IH. unfold put in Hin.
  induction m as [|[k' old] rest IHm]; cbn in Hin.
  - destruct Hin as [[= <- <-]|[]]. right. eauto.
  - destruct (String.eqb k' (key x)) eqn:Hk.
    + apply String.eqb_eq in Hk as ->. destruct Hin as [[= <- <-]|Hin].
      * right. eauto.
      * left. by right.
    + destruct Hin as [Hin|Hin]; [left; by left|].
      destruct (IHm Hin) as [?|?]; [left; by right|by right].
Qed.

(** A key that was set is present afterwards; the last [set] decides. *)
Lemma put_all_lookup_last l x m :
  In x l ->
  (forall y, In y l -> key y = key x -> val y = val x) ->
  lookup_prop (key x) (fold_left (put key val) l m) = Some (val x).
Proof.
  revert m. induction l as [|y l IH] using rev_ind; intros m Hin Hsame; [done|].
  rewrite put_all_snoc.
  destruct (String.eqb (key y) (key x)) eqn:Hk.
  - apply String.eqb_eq in Hk.
    rewrite Hk, <- (Hsame y); [|apply in_or_app; right; by left|done].
    rewrite <- Hk. apply lookup_assign_prop.
  - apply String.eqb_neq in Hk. rewrite lookup_assign_prop_ne by done.
    apply in_app_or in Hin as [Hin|[->|[]]]; [|done].
    apply IH; [done|]. intros z Hz. apply Hsame, in_or_app. by left.
Qed.

(** Keys are never removed. *)
Lemma put_all_keeps l m k :
  is_Some (lookup_prop k m) -> is_Some (lookup_prop k (fold_left (put key val) l m)).
Proof.
  revert m. induction l as [|y l IH]; intros m Hk; cbn; [done|].
  apply IH. unfold put. destruct (String.eqb (key y) k) eqn:Heq.
  - apply String.eqb_eq in Heq as <-. rewrite lookup_assign_prop. eauto.
  - apply String.eqb_neq in Heq. by rewrite lookup_assign_prop_ne.
Qed.

(** Setting what is there already changes nothing. *)
Lemma put_all_absorbed l m :
  (forall x, In x l -> lookup_prop (key x) m = Some (val x)) ->
  fold_left (put key val) l m = m.
Proof.
  induction l as [|x l IH]; intros Hl; cbn; [done|].
  unfold put at 2. rewrite assign_prop_same by (apply Hl; by left).
  apply IH. intros y Hy. apply Hl. by right.
Qed.

(** Distinct keys are entered one after the other. *)
Lemma put_all_fresh l m :
  NoDup (map fst m ++ map key l) ->
  fold_left (put key val) l m = m ++ map (fun x => (key x, val x)) l.
Proof.
  revert m. induction l as [|x l IH]; intros m Hnd; cbn; [by rewrite app_nil_r|].
  assert (lookup_prop (key x) m = None) as Hfresh.
  { apply lookup_prop_None. intros Hin%list_elem_of_In.
    apply NoDup_app in Hnd as (_ & Hdisj & _). apply (Hdisj _ Hin). cbn. left. }
  assert (put key val m x = m ++ [(key x, val x)]) as ->.
  { unfold put. clear -Hfresh. induction m as [|[k old] rest IHm]; cbn in *; [done|].
    destruct (String.eqb k (key x)); [done|]. by rewrite IHm. }
  rewrite IH, <- app_assoc; [done|].
  rewrite map_app. cbn. rewrite <- app_assoc. exact Hnd.
Qed.

End HookMaps.

Section MergerValidity.
Import SafeGeminiSettingsMerger MergedSettings.

Lemma for_each_Forall {A} (body : A -> Outcome unit) (l : list A) :
  for_each body l = Returned tt <-> Forall (fun x => body x = Returned tt) l.
Proof.
  induction l as [|x l IH]; cbn; [by split|].
  destruct (body x) as [[]|e] eqn:Hx.
  - rewrite IH. split; [by constructor|by inversion 1].
  - split; [done|]. inversion 1; congruence.
Qed.

Lemma validateHook_inv (hook : JsValue) :
  validateHook hook = Returned tt ->
  exists props c,
    hook = JsObject props /\
    lookup_prop "type" props = Some (JsString "command") /\
    lookup_prop "command" props = Some (JsString c).
Proof.
  unfold validateHook. destruct hook as [| | | | | |props]; try done. cbn.
  destruct (lookup_prop "type" props) as [[| | | |t| |]|] eqn:Ht; try done. cbn.
  destruct (String.eqb t "command") eqn:Heq; [|done]. apply String.eqb_eq in Heq as ->. cbn.
  destruct (lookup_prop "command" props) as [[| | | |c| |]|] eqn:Hc; try done. eauto.
Qed.

Lemma validateHook_hook_object (hook : GeminiHook) :
  validateHook (hook_object hook) = Returned tt.
Proof. done. Qed.

Lemma command_of_hook_object (hook : GeminiHook) :
  command_of (hook_object hook) = command hook.
Proof. done. Qed.

Lemma matcher_name_ne (k : MatcherKind) : matcher_name k <> "".
Proof. by destruct k. Qed.

Lemma validateMatcher_inv (m : JsValue) :
  validateMatcher m = Returned tt ->
  exists props name hs,
    m = JsObject props /\
    lookup_prop "matcher" props = Some (JsString name) /\ name <> "" /\
    lookup_prop "hooks" props = Some (JsArray hs) /\
    Forall (fun h => validateHook h = Returned tt) hs.
Proof.
  unfold validateMatcher. destruct m as [| | | | | |props]; try done. cbn.
  destruct (lookup_prop "matcher" props) as [[| | | |name| |]|] eqn:Hn; try done;
    cbn; try (by destruct (negb _)).
  destruct (String.eqb name "") eqn:Hname; [done|]. apply String.eqb_neq in Hname. cbn.
  destruct (lookup_prop "hooks" props) as [[| | | | |hs|]|] eqn:Hh; try done. cbn.
  intros Hall%for_each_Forall. eauto 10.
Qed.

Lemma validateMatcher_intro props name hs :
  lookup_prop "matcher" props = Some (JsString name) -> name <> "" ->
  lookup_prop "hooks" props = Some (JsArray hs) ->
  Forall (fun h => validateHook h = Returned tt) hs ->
  validateMatcher (JsObject props) = Returned tt.
Proof.
  intros Hn Hne Hh Hall. unfold validateMatcher. cbn. rewrite Hn. cbn.
  apply String.eqb_neq in Hne. rewrite Hne. cbn. rewrite Hh. cbn.
  by apply for_each_Forall.
Qed.

Lemma validateMatcher_matcher_object (m : GeminiSessionStartMatcher) :
  validateMatcher (matcher_object m) = Returned tt.
Proof.
  eapply validateMatcher_intro; [done|apply matcher_name_ne|done|].
  apply Forall_forall. intros h (x & <- & _)%list_elem_of_In%in_map_iff. done.
Qed.

Lemma mergeMatcherHooks_eq (existingMatcher : JsValue) (newMatcher : GeminiSessionStartMatcher) :
  mergeMatcherHooks existingMatcher newMatcher
  = JsObject (assign_prop "hooks"
                (JsArray (map snd (hookMapOf (hooksOf existingMatcher) (hooks newMatcher))))
                (spread existingMatcher)).
Proof. done. Qed.

Lemma hookMapOf_NoDup olds news : NoDup (map fst (hookMapOf olds news)).
Proof. unfold hookMapOf. do 2 apply put_all_NoDup. cbn. constructor. Qed.

Lemma hookMapOf_valid olds news :
  Forall (fun h => validateHook h = Returned tt) olds ->
  Forall (fun h => validateHook h = Returned tt) (map snd (hookMapOf olds news)).
Proof.
  intros Hold. apply Forall_forall. intros v ([k v'] & <- & Hin)%list_elem_of_In%in_map_iff.
  cbn. unfold hookMapOf in Hin.
  apply put_all_In in Hin as [Hin|(x & _ & _ & ->)]; [|done].
  apply put_all_In in Hin as [[]|(x & Hx & _ & ->)].
  rewrite Forall_forall in Hold. apply Hold. by apply list_elem_of_In.
Qed.

Lemma validateMatcher_mergeMatcherHooks existingMatcher newMatcher :
  validateMatcher existingMatcher = Returned tt ->
  validateMatcher (mergeMatcherHooks existingMatcher newMatcher) = Returned tt.
Proof.
  intros (props & name & hs & -> & Hn & Hne & Hh & Hall)%validateMatcher_inv.
  rewrite mergeMatcherHooks_eq. cbn [spread].
  eapply validateMatcher_intro; [|done| |].
  - by rewrite lookup_assign_prop_ne.
  - apply lookup_assign_prop.
  - apply hookMapOf_valid. unfold hooksOf. cbn. by rewrite Hh.
Qed.

Lemma mergeSessionStartHooks_eq existing additions :
  mergeSessionStartHooks existing additions = fold_left mergeStep additions existing.
Proof. done. Qed.

Lemma findIndex_Some {A} (p : A -> bool) (l : list A) (i : nat) :
  findIndex p l = Some i ->
  exists x, l !! i = Some x /\ p x = true /\
            forall j y, j < i -> l !! j = Some y -> p y = false.
Proof.
  revert i. induction l as [|x l IH]; intros i; cbn; [done|].
  destruct (p x) eqn:Hx.
  - intros [= <-]. exists x. split; [done|]. split; [done|]. lia.
  - destruct (findIndex p l) as [i'|] eqn:Hl; [|done]. cbn. intros [= <-].
    destruct (IH i' eq_refl) as (y & Hy & Hpy & Hfirst). exists y.
    split; [done|]. split; [done|].
    intros [|j] z Hj; cbn; [congruence|]. apply Hfirst. lia.
Qed.

Lemma findIndex_None {A} (p : A -> bool) (l : list A) :
  findIndex p l = None -> forall x, In x l -> p x = false.
Proof.
  induction l as [|x l IH]; cbn; [done|].
  destruct (p x) eqn:Hx; [done|]. destruct (findIndex p l); [done|].
  intros _ y [<-|Hy]; auto.
Qed.

Lemma mergeStep_valid merged newMatcher :
  Forall (fun m => validateMatcher m = Returned tt) merged ->
  Forall (fun m => validateMatcher m = Returned tt) (mergeStep merged newMatcher).
Proof.
  intros Hall. unfold mergeStep.
  destruct (findIndex _ merged) as [i|] eqn:Hfind.
  - destruct (merged !! i) as [M|] eqn:HM; [|done].
    apply Forall_insert; [done|]. apply validateMatcher_mergeMatcherHooks.
    rewrite Forall_forall in Hall. apply Hall. by eapply list_elem_of_lookup_2.
  - apply Forall_app. split; [done|]. constructor; [|done].
    apply validateMatcher_matcher_object.
Qed.

Lemma mergeSessionStartHooks_valid existing additions :
  Forall (fun m => validateMatcher m = Returned tt) existing ->
  Forall (fun m => validateMatcher m = Returned tt)
    (mergeSessionStartHooks existing additions).
Proof.
  rewrite mergeSessionStartHooks_eq. revert existing.
  induction additions as [|n ns IH]; intros existing Hall; cbn; [done|].
  by apply IH, mergeStep_valid.
Qed.

End MergerValidity.

Section DeepMergeValidity.
Import SafeGeminiSettingsMerger MergedSettings.

Lemma validateSettings_object props :
  validateSettings (JsObject props)
  = validateHooksMember (default JsUndefined (lookup_prop "hooks" props)).
Proof. done. Qed.

Lemma pretty_N_go_not_h (x : N) (s : string) :
  (forall s', s <> String "h" s') -> forall s', pretty_N_go x s <> String "h" s'.
Proof.
  revert s. induction (N.lt_wf_0 x) as [x _ IH]; intros s Hs s'.
  assert (x = 0 \/ 0 < x)%N as [->|?] by lia.
  - rewrite pretty_N_go_0. apply Hs.
  - rewrite pretty_N_go_step by done. apply IH.
    { by apply N.div_lt. }
    intros s''. unfold pretty_N_char. by repeat case_match.
Qed.

Lemma pretty_nat_ne_hooks (i : nat) : pretty i <> "hooks".
Proof.
  unfold pretty, pretty_nat, pretty, pretty_N.
  destruct (decide (N.of_nat i = 0%N)); [done|].
  apply pretty_N_go_not_h. done.
Qed.

Lemma lookup_prop_indexed (g : nat -> string) (key : string) (items : list JsValue) :
  (forall i, g i <> key) ->
  lookup_prop key (imap (fun i item => (g i, item)) items) = None.
Proof.
  revert g. induction items as [|x items IH]; intros g Hg; cbn; [done|].
  specialize (Hg 0) as Hg0. apply String.eqb_neq in Hg0. rewrite Hg0.
  apply (IH (g ∘ S)). intros i. apply Hg.
Qed.

Lemma lookup_hooks_spread_array items :
  lookup_prop "hooks" (spread (JsArray items)) = None.
Proof. apply lookup_prop_indexed, pretty_nat_ne_hooks. Qed.

(** What a value that passed [validateSettings] looks like. *)
Lemma validateSettings_inv (settings : JsValue) :
  validateSettings settings = Returned tt ->
  validateHooksMember (default JsUndefined (lookup_prop "hooks" (spread settings)))
  = Returned tt /\
  getPropOpt settings "hooks" = default JsUndefined (lookup_prop "hooks" (spread settings)).
Proof.
  destruct settings; try done.
  - intros _. by rewrite lookup_hooks_spread_array.
Qed.

Lemma validateHooksMember_inv (hooks : JsValue) :
  validateHooksMember hooks = Returned tt ->
  hooks = JsUndefined \/ (exists items, hooks = JsArray items) \/
  exists props, hooks = JsObject props /\
    (default JsUndefined (lookup_prop "SessionStart" props) = JsUndefined \/
     exists matchers,
       lookup_prop "SessionStart" props = Some (JsArray matchers) /\
       Forall (fun m => validateMatcher m = Returned tt) matchers).
Proof.
  destruct hooks as [| | | | |items|props]; try done; [by left|right; left; eauto|].
  intros Hv. right. right. exists props. split; [done|].
  unfold validateHooksMember in Hv. cbn in Hv.
  destruct (lookup_prop "SessionStart" props) as [[| | | | |ms|]|]; try done; auto.
  right. exists ms. split; [done|]. by apply for_each_Forall.
Qed.

Lemma sessionStartOf_valid (settings : JsValue) :
  validateSettings settings = Returned tt ->
  Forall (fun m => validateMatcher m = Returned tt) (sessionStartOf settings).
Proof.
  intros [Hv Hhooks]%validateSettings_inv. unfold sessionStartOf. rewrite Hhooks.
  apply validateHooksMember_inv in Hv as [->|[[items ->]|(props & -> & Hss)]]; try done.
  cbn. destruct Hss as [->|(ms & -> & Hall)]; done.
Qed.

Lemma deepMerge_valid (existing : JsValue) (newSettings : GeminiSettings) :
  validateSettings existing = Returned tt ->
  validateSettings (deepMerge existing newSettings) = Returned tt.
Proof.
  intros Hvalid. pose proof (sessionStartOf_valid _ Hvalid) as Hss.
  apply validateSettings_inv in Hvalid as [Hv Hhooks].
  unfold deepMerge. unfold sessionStartOf in Hss. rewrite Hhooks in *.
  destruct (settings_hooks newSettings) as [newHooks|];
    [destruct (SessionStart newHooks) as [newSessionStart|]|];
    rewrite validateSettings_object, ?assign_prop_twice, ?lookup_assign_prop; cbn [default];
    [pose proof (mergeSessionStartHooks_valid _ newSessionStart Hss) as Hmerged;
     apply for_each_Forall in Hmerged| |done].
  all: set (hooks0 := default JsUndefined (lookup_prop "hooks" (spread existing))) in *.
  all: clearbody hooks0.
  all: pose proof Hv as Hsame.
  all: apply validateHooksMember_inv in Hv as [->|[[items ->]|(props & -> & _)]]; try done.
  cbn [nullish_or setProp]. unfold validateHooksMember. cbn.
  by rewrite lookup_assign_prop.
Qed.

End DeepMergeValidity.

Section MergeAlgebra.
Import SafeGeminiSettingsMerger MergedSettings.

Local Abbreviation valid := (fun m => validateMatcher m = Returned tt).

Lemma findIndex_insert {A} (p : A -> bool) (l : list A) (j : nat) (x x' : A) :
  l !! j = Some x -> p x' = p x -> findIndex p (<[j:=x']> l) = findIndex p l.
Proof.
  revert j. induction l as [|y l IH]; intros [|j] Hj Hp; simpl in *; try done.
  - simplify_eq. by rewrite Hp.
  - change (list_insert j x' l) with (<[j:=x']> l). by rewrite (IH j).
Qed.

Lemma findIndex_app_l {A} (p : A -> bool) (l l' : list A) (i : nat) :
  findIndex p l = Some i -> findIndex p (l ++ l') = Some i.
Proof.
  revert i. induction l as [|y l IH]; intros i; cbn; [done|].
  destruct (p y); [done|]. destruct (findIndex p l) as [i'|]; [|done].
  cbn. intros [= <-]. by rewrite (IH i').
Qed.

Lemma findIndex_app_r {A} (p : A -> bool) (l : list A) (x : A) :
  findIndex p l = None -> p x = true -> findIndex p (l ++ [x]) = Some (length l).
Proof.
  induction l as [|y l IH]; cbn; intros Hl Hx; [by rewrite Hx|].
  destruct (p y); [done|]. destruct (findIndex p l); [done|]. by rewrite IH.
Qed.

Lemma hasKind_matcher_object (n : GeminiSessionStartMatcher) :
  hasKind (matcher n) (matcher_object n) = true.
Proof. unfold hasKind. cbn. apply String.eqb_refl. Qed.

Lemma hasKind_mergeMatcherHooks kind M n :
  valid M -> hasKind kind (mergeMatcherHooks M n) = hasKind kind M.
Proof.
  intros (props & name & hs & -> & _)%validateMatcher_inv.
  rewrite mergeMatcherHooks_eq. unfold hasKind. cbn.
  by rewrite lookup_assign_prop_ne.
Qed.

Lemma hooksOf_mergeMatcherHooks M n :
  valid M ->
  hooksOf (mergeMatcherHooks M n) = map snd (hookMapOf (hooksOf M) (hooks n)).
Proof.
  intros (props & name & hs & -> & _)%validateMatcher_inv.
  rewrite mergeMatcherHooks_eq. unfold hooksOf at 1. cbn.
  by rewrite lookup_assign_prop.
Qed.

(** Every entry of the hook map sits under its own command. *)
Lemma hookMapOf_keyed olds news k v :
  In (k, v) (hookMapOf olds news) -> command_of v = k.
Proof.
  unfold hookMapOf. intros Hin.
  apply put_all_In in Hin as [Hin|(x & _ & -> & ->)]; [|done].
  by apply put_all_In in Hin as [[]|(x & _ & -> & ->)].
Qed.

Lemma hookMapOf_commands olds news :
  map command_of (map snd (hookMapOf olds news)) = map fst (hookMapOf olds news).
Proof.
  rewrite map_map. apply map_ext_in. intros [k v] Hin. cbn.
  by apply hookMapOf_keyed in Hin.
Qed.

Lemma commandsOf_mergeMatcherHooks M n :
  valid M -> NoDup (commandsOf (mergeMatcherHooks M n)).
Proof.
  intros HM. unfold commandsOf. rewrite hooksOf_mergeMatcherHooks by done.
  rewrite hookMapOf_commands. apply hookMapOf_NoDup.
Qed.

Lemma put_all_lookup_stable {A} (key : A -> string) (val : A -> JsValue) l m k v :
  lookup_prop k m = Some v ->
  (forall y, In y l -> key y = k -> val y = v) ->
  lookup_prop k (fold_left (put key val) l m) = Some v.
Proof.
  revert m. induction l as [|y l IH]; intros m Hk Hsame; cbn; [done|].
  apply IH; [|intros z Hz; apply Hsame; by right].
  unfold put. destruct (String.eqb (key y) k) eqn:Heq.
  - apply String.eqb_eq in Heq. rewrite <- (Hsame y); [|by left|done].
    rewrite <- Heq. apply lookup_assign_prop.
  - apply String.eqb_neq in Heq. by rewrite lookup_assign_prop_ne.
Qed.

Lemma hook_object_inj h h' : command h' = command h -> hook_object h' = hook_object h.
Proof. destruct h, h'. cbn. by intros ->. Qed.

Lemma absorbs_matcher_object n : absorbs n (matcher_object n).
Proof.
  intros h Hh. unfold hooksOf. cbn. split; [by apply in_map|].
  intros x (h' & <- & _)%in_map_iff Hc. by apply hook_object_inj.
Qed.

Lemma In_hookMapOf_lookup olds news x :
  In x (map snd (hookMapOf olds news)) <->
  lookup_prop (command_of x) (hookMapOf olds news) = Some x.
Proof.
  split.
  - intros ([k v] & <- & Hin)%in_map_iff. cbn.
    rewrite (hookMapOf_keyed _ _ _ _ Hin).
    apply In_lookup_prop; [apply hookMapOf_NoDup|done].
  - intros Hl%lookup_prop_In. by apply (in_map snd) in Hl.
Qed.

Lemma absorbs_new M n : valid M -> absorbs n (mergeMatcherHooks M n).
Proof.
  intros HM h Hh. rewrite hooksOf_mergeMatcherHooks by done.
  assert (lookup_prop (command h) (hookMapOf (hooksOf M) (hooks n)) = Some (hook_object h))
    as Hl.
  { unfold hookMapOf.
    apply (put_all_lookup_last command hook_object (hooks n) h); [done|].
    intros y _. apply hook_object_inj. }
  split.
  - apply In_hookMapOf_lookup. by rewrite command_of_hook_object.
  - intros x Hx%In_hookMapOf_lookup Hc. rewrite Hc in Hx. congruence.
Qed.

Lemma absorbs_stable M n n' : valid M -> absorbs n M -> absorbs n (mergeMatcherHooks M n').
Proof.
  intros HM Habs h Hh. destruct (Habs h Hh) as [Hin Honly].
  rewrite hooksOf_mergeMatcherHooks by done.
  assert (lookup_prop (command h) (hookMapOf (hooksOf M) (hooks n')) = Some (hook_object h))
    as Hl.
  { unfold hookMapOf. apply put_all_lookup_stable.
    - rewrite <- (command_of_hook_object h).
      apply (put_all_lookup_last command_of (fun hook => hook) (hooksOf M) (hook_object h));
        [done|].
      intros y Hy Hc. apply Honly; [done|]. by rewrite Hc.
    - intros y _. apply hook_object_inj. }
  split.
  - apply In_hookMapOf_lookup. by rewrite command_of_hook_object.
  - intros x Hx%In_hookMapOf_lookup Hc. rewrite Hc in Hx. congruence.
Qed.

Lemma valid_lookup (merged : list JsValue) i M :
  Forall valid merged -> merged !! i = Some M -> valid M.
Proof.
  intros Hall HM. rewrite Forall_forall in Hall. apply Hall.
  by eapply list_elem_of_lookup_2.
Qed.

Lemma found_established (P : JsValue -> Prop) n merged :
  Forall valid merged ->
  P (matcher_object n) ->
  (forall M, valid M -> P (mergeMatcherHooks M n)) ->
  found P n (mergeStep merged n).
Proof.
  intros Hall Hpush Hmerge. unfold mergeStep.
  destruct (findIndex _ merged) as [i|] eqn:Hfind.
  - destruct (findIndex_Some _ _ _ Hfind) as (M & HM & Hkind & _). rewrite HM.
    pose proof (valid_lookup _ _ _ Hall HM) as Hvalid.
    exists i, (mergeMatcherHooks M n). split; [|split].
    + rewrite (findIndex_insert _ _ _ M); [done..|]. by apply hasKind_mergeMatcherHooks.
    + apply list_lookup_insert_eq. by eapply lookup_lt_Some.
    + by apply Hmerge.
  - exists (length merged), (matcher_object n). split; [|split; [|done]].
    + apply findIndex_app_r; [done|apply hasKind_matcher_object].
    + by rewrite lookup_app_r, Nat.sub_diag.
Qed.

Lemma found_preserved (P : JsValue -> Prop) n n' merged :
  Forall valid merged ->
  (forall M, valid M -> P M -> P (mergeMatcherHooks M n')) ->
  found P n merged -> found P n (mergeStep merged n').
Proof.
  intros Hall Hstable (i & M & Hfind & HM & HP). unfold mergeStep.
  destruct (findIndex (hasKind (matcher n')) merged) as [j|] eqn:Hfind'.
  - destruct (findIndex_Some _ _ _ Hfind') as (M' & HM' & _). rewrite HM'.
    pose proof (valid_lookup _ _ _ Hall HM') as Hvalid.
    destruct (decide (j = i)) as [->|Hne].
    + simplify_eq. exists i, (mergeMatcherHooks M n'). split; [|split].
      * rewrite (findIndex_insert _ _ _ M); [done..|]. by apply hasKind_mergeMatcherHooks.
      * apply list_lookup_insert_eq. by eapply lookup_lt_Some.
      * by apply Hstable.
    + exists i, M. split; [|split; [|done]].
      * rewrite (findIndex_insert _ _ _ M'); [done..|]. by apply hasKind_mergeMatcherHooks.
      * by rewrite list_lookup_insert_ne.
  - exists i, M. split; [|split; [|done]].
    + by apply findIndex_app_l.
    + apply lookup_app_l_Some. done.
Qed.

Lemma fold_mergeStep_valid additions merged :
  Forall valid merged -> Forall valid (fold_left mergeStep additions merged).
Proof. apply mergeSessionStartHooks_valid. Qed.

Lemma found_through (P : JsValue -> Prop) n post merged :
  Forall valid merged ->
  (forall M n', valid M -> P M -> P (mergeMatcherHooks M n')) ->
  found P n merged -> found P n (fold_left mergeStep post merged).
Proof.
  intros Hvalid Hstable. revert merged Hvalid.
  induction post as [|n' post IH]; intros merged Hvalid Hfound; cbn; [done|].
  apply IH; [by apply mergeStep_valid|].
  apply found_preserved; [done| |done]. intros M HM HP. by apply Hstable.
Qed.

Lemma found_after (P : JsValue -> Prop) n pre post existing :
  Forall valid existing ->
  (forall M n', valid M -> P M -> P (mergeMatcherHooks M n')) ->
  found P n (mergeStep (fold_left mergeStep pre existing) n) ->
  found P n (mergeSessionStartHooks existing (pre ++ n :: post)).
Proof.
  rewrite mergeSessionStartHooks_eq. intros Hall Hstable Hest.
  rewrite fold_left_app. cbn.
  apply found_through; [|done..].
  by apply mergeStep_valid, fold_mergeStep_valid.
Qed.

End MergeAlgebra.

Section MergeTheorems.
Import SafeGeminiSettingsMerger MergedSettings.

Local Abbreviation valid := (fun m => validateMatcher m = Returned tt).

Lemma without_assign_prop key v props :
  without key (assign_prop key v props) = without key props.
Proof.
  unfold without. induction props as [|[k old] rest IH]; cbn.
  - by rewrite String.eqb_refl.
  - destruct (String.eqb k key) eqn:Hk; cbn; rewrite Hk; cbn; [done|by rewrite IH].
Qed.

Lemma found_established_when (P : JsValue -> Prop) n merged :
  Forall valid merged ->
  (findIndex (hasKind (matcher n)) merged = None -> P (matcher_object n)) ->
  (forall M, valid M -> P (mergeMatcherHooks M n)) ->
  found P n (mergeStep merged n).
Proof.
  intros Hall Hpush Hmerge. unfold mergeStep.
  destruct (findIndex _ merged) as [i|] eqn:Hfind.
  - destruct (findIndex_Some _ _ _ Hfind) as (M & HM & Hkind & _). rewrite HM.
    pose proof (valid_lookup _ _ _ Hall HM) as Hvalid.
    exists i, (mergeMatcherHooks M n). split; [|split].
    + rewrite (findIndex_insert _ _ _ M); [done..|]. by apply hasKind_mergeMatcherHooks.
    + apply list_lookup_insert_eq. by eapply lookup_lt_Some.
    + by apply Hmerge.
  - exists (length merged), (matcher_object n). split; [|split; [|by apply Hpush]].
    + apply findIndex_app_r; [done|apply hasKind_matcher_object].
    + by rewrite lookup_app_r, Nat.sub_diag.
Qed.

Lemma absorbs_after existing pre n post :
  Forall valid existing ->
  found (absorbs n) n (mergeSessionStartHooks existing (pre ++ n :: post)).
Proof.
  intros Hall. apply found_after; [done|by intros; apply absorbs_stable|].
  apply found_established.
  - by apply fold_mergeStep_valid.
  - apply absorbs_matcher_object.
  - intros. by apply absorbs_new.
Qed.

(** X6: after mergeSessionStartHooks, every hook of every added matcher is
    in the merged list: the first matcher of the added matcher's kind
    exists and its hooks contain the hook object. *)
Theorem mergeSessionStartHooks_holds_additions
    (existing : list JsValue) (additions : list GeminiSessionStartMatcher)
    (newMatcher : GeminiSessionStartMatcher) (hook : GeminiHook) :
  for_each validateMatcher existing = Returned tt ->
  In newMatcher additions ->
  In hook (hooks newMatcher) ->
  exists index merged,
    findIndex (hasKind (matcher newMatcher)) (mergeSessionStartHooks existing additions)
    = Some index /\
    mergeSessionStartHooks existing additions !! index = Some merged /\
    In (hook_object hook) (hooksOf merged).
Proof.
  intros Hall%for_each_Forall (pre & post & ->)%in_split Hhook.
  destruct (absorbs_after existing pre newMatcher post Hall) as (i & M & Hfind & HM & Habs).
  exists i, M. split; [done|]. split; [done|]. by apply Habs.
Qed.

Lemma tidy_after existing pre n post :
  Forall valid existing ->
  is_Some (findIndex (hasKind (matcher n)) existing) \/ NoDup (map command (hooks n)) ->
  found (fun M => NoDup (commandsOf M)) n
    (mergeSessionStartHooks existing (pre ++ n :: post)).
Proof.
  intros Hall Hwhy.
  apply found_after; [done|by intros; apply commandsOf_mergeMatcherHooks|].
  apply found_established_when.
  - by apply fold_mergeStep_valid.
  - intros Hnone. destruct Hwhy as [[i Hi]|Hnd].
    + assert (found (fun _ => True) n existing) as Hfound.
      { destruct (findIndex_Some _ _ _ Hi) as (M & HM & _). by exists i, M. }
      apply (found_through _ _ pre) in Hfound as (? & ? & ? & _); [congruence|done..].
    + unfold commandsOf, hooksOf. cbn. rewrite map_map.
      erewrite map_ext; [exact Hnd|]. done.
  - intros. by apply commandsOf_mergeMatcherHooks.
Qed.

(** X7: deduplication by command: for an added matcher whose kind was
    already there, or which itself lists no command twice, the first
    matcher of that kind in the merged list holds no two hooks with the
    same command. *)
Theorem mergeSessionStartHooks_deduplicates
    (existing : list JsValue) (additions : list GeminiSessionStartMatcher)
    (newMatcher : GeminiSessionStartMatcher) :
  for_each validateMatcher existing = Returned tt ->
  In newMatcher additions ->
  is_Some (findIndex (hasKind (matcher newMatcher)) existing) \/
  NoDup (map command (hooks newMatcher)) ->
  exists index merged,
    findIndex (hasKind (matcher newMatcher)) (mergeSessionStartHooks existing additions)
    = Some index /\
    mergeSessionStartHooks existing additions !! index = Some merged /\
    NoDup (commandsOf merged).
Proof.
  intros Hall%for_each_Forall (pre & post & ->)%in_split Hwhy.
  apply tidy_after; done.
Qed.

(** A matcher that holds every hook of [n] once is left as it is. *)
Lemma mergeMatcherHooks_absorbed M n :
  valid M -> NoDup (commandsOf M) ->
  (forall h, In h (hooks n) -> In (hook_object h) (hooksOf M)) ->
  mergeMatcherHooks M n = M.
Proof.
  intros (props & name & hs & -> & _ & _ & Hh & _)%validateMatcher_inv Hnd Hin.
  rewrite mergeMatcherHooks_eq. unfold commandsOf, hooksOf in *. cbn in *.
  rewrite Hh in *. cbn in *.
  assert (hookMapOf hs (hooks n) = map (fun x => (command_of x, x)) hs) as ->.
  { unfold hookMapOf.
    rewrite (put_all_fresh command_of (fun hook => hook) hs []) by done. cbn.
    apply put_all_absorbed. intros h Hh'.
    apply In_lookup_prop.
    - rewrite map_map. cbn. done.
    - apply in_map_iff. exists (hook_object h). split; [done|]. by apply Hin. }
  rewrite map_map. cbn. rewrite map_id. by rewrite assign_prop_same.
Qed.

Lemma fold_left_fixed {A B} (f : A -> B -> A) (l : list B) (a : A) :
  (forall b, In b l -> f a b = a) -> fold_left f l a = a.
Proof.
  induction l as [|b l IH]; intros Hfix; cbn; [done|].
  rewrite Hfix by (by left). apply IH. intros; apply Hfix; by right.
Qed.

(** Merging the same additions again changes nothing, provided no added
    matcher lists a command twice. *)
Lemma mergeSessionStartHooks_fixed
    (existing : list JsValue) (additions : list GeminiSessionStartMatcher) :
  for_each validateMatcher existing = Returned tt ->
  (forall newMatcher, In newMatcher additions -> NoDup (map command (hooks newMatcher))) ->
  mergeSessionStartHooks (mergeSessionStartHooks existing additions) additions
  = mergeSessionStartHooks existing additions.
Proof.
  intros Hall%for_each_Forall Hnd.
  rewrite (mergeSessionStartHooks_eq (mergeSessionStartHooks _ _)).
  apply fold_left_fixed. intros n Hn.
  pose proof (mergeSessionStartHooks_valid _ additions Hall) as Hvalid.
  pose proof Hn as (pre & post & ->)%in_split.
  destruct (absorbs_after existing pre n post Hall) as (i & M & Hfind & HM & Habs).
  destruct (tidy_after existing pre n post Hall (or_intror (Hnd n Hn)))
    as (i' & M' & Hfind' & HM' & Htidy).
  simplify_eq. unfold mergeStep. rewrite Hfind, HM.
  rewrite mergeMatcherHooks_absorbed.
  - by apply list_insert_id.
  - by eapply valid_lookup.
  - done.
  - intros h Hh. by apply Habs.
Qed.

(** X8: mergeSessionStartHooks is idempotent on additions none of whose
    matchers lists a command twice: merging them into the merged list
    again gives the merged list. *)
Theorem mergeSessionStartHooks_idempotent
    (existing : list JsValue) (additions : list GeminiSessionStartMatcher) :
  for_each validateMatcher existing = Returned tt ->
  (forall newMatcher, In newMatcher additions -> NoDup (map command (hooks newMatcher))) ->
  mergeSessionStartHooks (mergeSessionStartHooks existing additions) additions
  = mergeSessionStartHooks existing additions.
Proof. apply mergeSessionStartHooks_fixed. Qed.

End MergeTheorems.

Section MergeKeeps.
Import SafeGeminiSettingsMerger MergedSettings.

Local Abbreviation valid := (fun m => validateMatcher m = Returned tt).

Lemma extends_refl M : extends M M.
Proof. by split. Qed.

Lemma put_all_sets {A} (key : A -> string) (val : A -> JsValue) l m x :
  In x l -> is_Some (lookup_prop (key x) (fold_left (put key val) l m)).
Proof.
  revert m. induction l as [|y l IH]; intros m Hin; [destruct Hin|].
  destruct Hin as [->|Hin]; cbn; [|by apply IH].
  apply put_all_keeps. unfold put. rewrite lookup_assign_prop. eauto.
Qed.

Lemma extends_mergeMatcherHooks M n : valid M -> extends M (mergeMatcherHooks M n).
Proof.
  intros HM. split.
  - rewrite mergeMatcherHooks_eq. cbn [spread]. apply without_assign_prop.
  - intros c (x & <- & Hx)%in_map_iff. unfold commandsOf.
    rewrite hooksOf_mergeMatcherHooks, hookMapOf_commands by done.
    assert (is_Some (lookup_prop (command_of x) (hookMapOf (hooksOf M) (hooks n))))
      as [v Hv].
    { unfold hookMapOf. apply put_all_keeps.
      by apply (put_all_sets command_of (fun hook => hook)). }
    apply lookup_prop_In in Hv. by apply (in_map fst) in Hv.
Qed.

Lemma mergeStep_keeps merged n i M :
  Forall valid merged -> merged !! i = Some M ->
  exists M', mergeStep merged n !! i = Some M' /\ extends M M' /\
             (hasKind (matcher n) M = false -> M' = M).
Proof.
  intros Hall HM. unfold mergeStep.
  destruct (findIndex _ merged) as [j|] eqn:Hfind.
  - destruct (findIndex_Some _ _ _ Hfind) as (Mj & HMj & Hkind & _). rewrite HMj.
    destruct (decide (j = i)) as [->|Hne].
    + simplify_eq. exists (mergeMatcherHooks M n). split; [|split].
      * apply list_lookup_insert_eq. by eapply lookup_lt_Some.
      * apply extends_mergeMatcherHooks. by eapply valid_lookup.
      * congruence.
    + exists M. rewrite list_lookup_insert_ne by done. split; [done|].
      split; [apply extends_refl|done].
  - exists M. split; [by apply lookup_app_l_Some|]. split; [apply extends_refl|done].
Qed.

(** X9: mergeSessionStartHooks removes and reorders nothing: every
    existing matcher keeps its index and all its members other than
    hooks, every command among its hooks is still among them, and a
    matcher whose kind no addition has is left exactly as it was. *)
Theorem mergeSessionStartHooks_keeps_existing
    (existing : list JsValue) (additions : list GeminiSessionStartMatcher)
    (index : nat) (existingMatcher : JsValue) :
  for_each validateMatcher existing = Returned tt ->
  existing !! index = Some existingMatcher ->
  exists merged,
    mergeSessionStartHooks existing additions !! index = Some merged /\
    without "hooks" (spread merged) = without "hooks" (spread existingMatcher) /\
    (forall c, In c (commandsOf existingMatcher) -> In c (commandsOf merged)) /\
    ((forall newMatcher, In newMatcher additions ->
        hasKind (matcher newMatcher) existingMatcher = false) ->
     merged = existingMatcher).
Proof.
  rewrite mergeSessionStartHooks_eq. intros Hall%for_each_Forall.
  revert existing existingMatcher Hall.
  induction additions as [|n ns IH]; intros existing M Hall HM; cbn.
  { exists M. split; [done|]. split; [done|]. split; done. }
  destruct (mergeStep_keeps existing n index M Hall HM) as (M1 & HM1 & [Hk1 Hc1] & Hsame1).
  destruct (IH (mergeStep existing n) M1 (mergeStep_valid _ _ Hall) HM1)
    as (M2 & HM2 & Hk2 & Hc2 & Hsame2).
  exists M2. split; [done|]. split; [congruence|]. split; [auto|].
  intros Hkinds. assert (M1 = M) as -> by (apply Hsame1, Hkinds; by left).
  apply Hsame2. intros n' Hn'. apply Hkinds. by right.
Qed.

End MergeKeeps.

Section DeepMergeTheorems.
Import SafeGeminiSettingsMerger MergedSettings.

(** X10: deepMerge keeps settings valid: when the existing settings pass
    validateSettings, so does the merged result, whatever is merged in;
    STEP 4 of mergeSettings cannot fail. *)
Theorem deepMerge_preserves_validity (existing : JsValue) (newSettings : GeminiSettings) :
  validateSettings existing = Returned tt ->
  validateSettings (deepMerge existing newSettings) = Returned tt.
Proof. apply deepMerge_valid. Qed.

(** X11: what validation guarantees: in settings that passed
    validateSettings, every SessionStart matcher has a non-empty string as
    its matcher and an array as its hooks, and every hook in it has the
    type "command" and a string as its command. *)
Theorem validated_settings_are_well_formed (settings : JsValue) :
  validateSettings settings = Returned tt ->
  Forall (fun m =>
            exists name hs,
              getPropOpt m "matcher" = JsString name /\ name <> "" /\
              getPropOpt m "hooks" = JsArray hs /\
              Forall (fun hook =>
                        getPropOpt hook "type" = JsString "command" /\
                        exists c, getPropOpt hook "command" = JsString c) hs)
    (sessionStartOf settings).
Proof.
  intros Hvalid%sessionStartOf_valid. eapply Forall_impl; [exact Hvalid|].
  intros m (props & name & hs & -> & Hname & Hne & Hhooks & Hall)%validateMatcher_inv.
  exists name, hs. cbn. rewrite Hname, Hhooks. repeat split; try done.
  eapply Forall_impl; [exact Hall|].
  intros hook (hp & c & -> & Htype & Hcommand)%validateHook_inv. cbn.
  rewrite Htype, Hcommand. eauto.
Qed.

(** X12: deepMerge keeps the user's settings: every member other than
    hooks, and every member of hooks other than SessionStart, is in the
    result with its value and in its place.  New settings without hooks
    give back a copy of the members of the existing settings: for an
    object that is the object itself, for an array it is the object that
    holds the elements under their indices. *)
Theorem deepMerge_keeps_user_settings (existing : JsValue) (newSettings : GeminiSettings) :
  validateSettings existing = Returned tt ->
  without "hooks" (spread (deepMerge existing newSettings))
  = without "hooks" (spread existing) /\
  without "SessionStart" (spread (getPropOpt (deepMerge existing newSettings) "hooks"))
  = without "SessionStart" (spread (getPropOpt existing "hooks")) /\
  (settings_hooks newSettings = None ->
   (forall props, existing = JsObject props -> deepMerge existing newSettings = existing) /\
   (forall items, existing = JsArray items ->
      deepMerge existing newSettings
      = JsObject (imap (fun index item => (pretty index, item)) items))).
Proof.
  intros Hvalid. apply validateSettings_inv in Hvalid as [Hv Hhooks].
  unfold deepMerge. rewrite Hhooks.
  destruct (settings_hooks newSettings) as [newHooks|];
    [destruct (SessionStart newHooks) as [newSessionStart|]|];
    cbn [spread getPropOpt]; rewrite ?assign_prop_twice, ?without_assign_prop,
      ?lookup_assign_prop; cbn [default].
  all: (split; [done|]); (split; [|try done]).
  all: set (hooks0 := default JsUndefined (lookup_prop "hooks" (spread existing))) in *.
  all: clearbody hooks0.
  all: try (apply validateHooksMember_inv in Hv as [->|[[items ->]|(props & -> & _)]];
            try done; cbn; apply without_assign_prop).
  intros _. split; [by intros props ->|by intros items ->].
Qed.

Lemma nullish_or_self v : nullish_or (nullish_or v (JsObject [])) (JsObject [])
  = nullish_or v (JsObject []).
Proof. by destruct v. Qed.

(** X13: when the new settings carry SessionStart matchers and the
    existing hooks member is absent or an object, the SessionStart list
    of deepMerge's result is mergeSessionStartHooks of the existing list
    and the new matchers. *)
Theorem deepMerge_merges_session_start
    (existing : JsValue) (newSettings : GeminiSettings) (newHooks : GeminiHooks)
    (newSessionStart : list GeminiSessionStartMatcher) :
  validateSettings existing = Returned tt ->
  (forall items, getPropOpt existing "hooks" <> JsArray items) ->
  settings_hooks newSettings = Some newHooks ->
  SessionStart newHooks = Some newSessionStart ->
  sessionStartOf (deepMerge existing newSettings)
  = mergeSessionStartHooks (sessionStartOf existing) newSessionStart.
Proof.
  intros Hvalid Hobj Hnew Hstart. apply validateSettings_inv in Hvalid as [Hv Hhooks].
  unfold sessionStartOf at 1. unfold deepMerge. rewrite Hnew, Hstart.
  fold (sessionStartOf existing). cbn [getPropOpt].
  rewrite assign_prop_twice, lookup_assign_prop. cbn [default].
  rewrite Hhooks in Hobj.
  set (hooks0 := default JsUndefined (lookup_prop "hooks" (spread existing))) in *.
  clearbody hooks0.
  apply validateHooksMember_inv in Hv as [->|[[items ->]|(props & -> & _)]]; cbn.
  - done.
  - by destruct (Hobj items).
  - by rewrite lookup_assign_prop.
Qed.

(** X14: deepMerge is idempotent on validated settings when no added
    matcher lists a command twice: merging the same new settings into the
    result gives the result. *)
Theorem deepMerge_idempotent (existing : JsValue) (newSettings : GeminiSettings) :
  validateSettings existing = Returned tt ->
  (forall newHooks newSessionStart newMatcher,
      settings_hooks newSettings = Some newHooks ->
      SessionStart newHooks = Some newSessionStart ->
      In newMatcher newSessionStart ->
      NoDup (map command (hooks newMatcher))) ->
  deepMerge (deepMerge existing newSettings) newSettings = deepMerge existing newSettings.
Proof.
  intros Hvalid Hnd. pose proof (sessionStartOf_valid _ Hvalid) as Hss.
  apply for_each_Forall in Hss.
  apply validateSettings_inv in Hvalid as [Hv Hhooks].
  destruct (settings_hooks newSettings) as [newHooks|] eqn:Hnew.
  2: { unfold deepMerge. by rewrite Hnew. }
  destruct (SessionStart newHooks) as [newSessionStart|] eqn:Hstart.
  - unfold deepMerge. rewrite Hnew, Hstart. cbn [spread getPropOpt].
    rewrite !assign_prop_twice, !lookup_assign_prop. cbn [default id].
    do 2 f_equal.
    assert (forall merged,
              mergeSessionStartHooks (sessionStartOf existing) newSessionStart = merged ->
              mergeSessionStartHooks merged newSessionStart = merged) as Hidem.
    { intros merged <-. apply mergeSessionStartHooks_fixed; eauto. }
    unfold sessionStartOf in *. rewrite Hhooks in *.
    set (hooks0 := default JsUndefined (lookup_prop "hooks" (spread existing))) in *.
    clearbody hooks0.
    apply validateHooksMember_inv in Hv as [->|[[items ->]|(props & -> & _)]]; cbn in *.
    + by rewrite Hidem.
    + done.
    + rewrite lookup_assign_prop. cbn. rewrite assign_prop_twice. by rewrite Hidem.
  - unfold deepMerge. rewrite Hnew, Hstart. cbn [spread].
    rewrite lookup_assign_prop. cbn [default id]. rewrite nullish_or_self.
    by rewrite assign_prop_twice.
Qed.

End DeepMergeTheorems.

Section FurtherMergerScenarios.
Import SafeGeminiSettingsMerger MergedSettings Scenario MoreScenarios.

Lemma deepMerge_preserves_validity_witness :
  validateSettings userSettings = Returned tt /\
  validateSettings (deepMerge userSettings GeminiConfigurer.jumboHook) = Returned tt.
Proof.
  split; [reflexivity|].
  exact (deepMerge_preserves_validity userSettings GeminiConfigurer.jumboHook eq_refl).
Defined.

Lemma validated_settings_are_well_formed_witness :
  validateSettings userSettings = Returned tt /\
  Forall (fun m =>
            exists name hs,
              getPropOpt m "matcher" = JsString name /\ name <> "" /\
              getPropOpt m "hooks" = JsArray hs /\
              Forall (fun hook =>
                        getPropOpt hook "type" = JsString "command" /\
                        exists c, getPropOpt hook "command" = JsString c) hs)
    [userStartup].
Proof.
  split; [reflexivity|].
  exact (validated_settings_are_well_formed userSettings eq_refl).
Defined.

Lemma deepMerge_keeps_user_settings_witness :
  validateSettings userSettings = Returned tt /\
  without "hooks" (spread (deepMerge userSettings GeminiConfigurer.jumboHook))
  = [("theme", JsString "dark")] /\
  without "SessionStart"
    (spread (getPropOpt (deepMerge userSettings GeminiConfigurer.jumboHook) "hooks"))
  = [("SessionEnd", JsArray [])] /\
  validateSettings (JsArray [JsNumber 1]) = Returned tt /\
  deepMerge userSettings {| settings_hooks := None |} = userSettings /\
  deepMerge (JsArray [JsNumber 1]) {| settings_hooks := None |}
  = JsObject [("0", JsNumber 1)].
Proof.
  split; [reflexivity|].
  pose proof (deepMerge_keeps_user_settings userSettings GeminiConfigurer.jumboHook eq_refl)
    as (Htop & Hhooks & _).
  split; [exact Htop|]. split; [exact Hhooks|]. split; [reflexivity|].
  split.
  - exact (proj1 (proj2 (proj2 (deepMerge_keeps_user_settings userSettings
                                  {| settings_hooks := None |} eq_refl)) eq_refl)
             _ eq_refl).
  - exact (proj2 (proj2 (proj2 (deepMerge_keeps_user_settings (JsArray [JsNumber 1])
                                  {| settings_hooks := None |} eq_refl)) eq_refl)
             _ eq_refl).
Defined.

Lemma deepMerge_merges_session_start_witness :
  validateSettings userSettings = Returned tt /\
  (forall items, getPropOpt userSettings "hooks" <> JsArray items) /\
  sessionStartOf (deepMerge userSettings GeminiConfigurer.jumboHook)
  = mergeSessionStartHooks (sessionStartOf userSettings) [jumboStartup].
Proof.
  assert (Hobject : forall items, getPropOpt userSettings "hooks" <> JsArray items)
    by (intros items; discriminate).
  split; [reflexivity|]. split; [exact Hobject|].
  exact (deepMerge_merges_session_start userSettings GeminiConfigurer.jumboHook _ _
           eq_refl Hobject eq_refl eq_refl).
Defined.

Lemma mergeSessionStartHooks_holds_additions_witness :
  for_each validateMatcher [userStartup] = Returned tt /\
  In jumboStartup [jumboStartup] /\
  In jumboCommand (hooks jumboStartup) /\
  exists index merged,
    findIndex (hasKind startup) (mergeSessionStartHooks [userStartup] [jumboStartup])
    = Some index /\
    mergeSessionStartHooks [userStartup] [jumboStartup] !! index = Some merged /\
    In (hook_object jumboCommand) (hooksOf merged).
Proof.
  split; [reflexivity|]. split; [by left|]. split; [by left|].
  exact (mergeSessionStartHooks_holds_additions [userStartup] [jumboStartup]
           jumboStartup jumboCommand eq_refl (or_introl eq_refl) (or_introl eq_refl)).
Defined.

Lemma mergeSessionStartHooks_keeps_existing_witness :
  for_each validateMatcher [userStartup] = Returned tt /\
  [userStartup] !! 0 = Some userStartup /\
  exists merged,
    mergeSessionStartHooks [userStartup] [jumboStartup] !! 0 = Some merged /\
    without "hooks" (spread merged)
    = [("matcher", JsString "startup"); ("description", JsString "mine")] /\
    In "echo hello" (commandsOf merged).
Proof.
  split; [reflexivity|]. split; [reflexivity|].
  destruct (mergeSessionStartHooks_keeps_existing [userStartup] [jumboStartup] 0
              userStartup eq_refl eq_refl) as (merged & Hat & Hmembers & Hcommands & _).
  exists merged. split; [exact Hat|]. split; [exact Hmembers|].
  apply Hcommands. by left.
Defined.

Lemma mergeSessionStartHooks_deduplicates_witness :
  for_each validateMatcher [userStartup] = Returned tt /\
  In jumboStartup [jumboStartup; jumboStartup] /\
  is_Some (findIndex (hasKind (matcher jumboStartup)) [userStartup]) /\
  exists index merged,
    findIndex (hasKind startup)
      (mergeSessionStartHooks [userStartup] [jumboStartup; jumboStartup]) = Some index /\
    mergeSessionStartHooks [userStartup] [jumboStartup; jumboStartup] !! index
    = Some merged /\
    NoDup (commandsOf merged).
Proof.
  assert (Hthere : is_Some (findIndex (hasKind (matcher jumboStartup)) [userStartup]))
    by (by exists 0).
  split; [reflexivity|]. split; [by left|]. split; [exact Hthere|].
  exact (mergeSessionStartHooks_deduplicates [userStartup] [jumboStartup; jumboStartup]
           jumboStartup eq_refl (or_introl eq_refl) (or_introl Hthere)).
Defined.

Lemma jumboStartup_commands_differ (newMatcher : GeminiSessionStartMatcher) :
  In newMatcher [jumboStartup] -> NoDup (map command (hooks newMatcher)).
Proof. intros [<-|[]]. apply NoDup_singleton. Qed.

Lemma mergeSessionStartHooks_idempotent_witness :
  for_each validateMatcher [userStartup] = Returned tt /\
  mergeSessionStartHooks (mergeSessionStartHooks [userStartup] [jumboStartup]) [jumboStartup]
  = mergeSessionStartHooks [userStartup] [jumboStartup].
Proof.
  split; [reflexivity|].
  exact (mergeSessionStartHooks_idempotent [userStartup] [jumboStartup] eq_refl
           jumboStartup_commands_differ).
Defined.

Lemma jumboHook_commands_differ newHooks newSessionStart newMatcher :
  settings_hooks GeminiConfigurer.jumboHook = Some newHooks ->
  SessionStart newHooks = Some newSessionStart ->
  In newMatcher newSessionStart ->
  NoDup (map command (hooks newMatcher)).
Proof. intros [= <-] [= <-] [<-|[]]. apply NoDup_singleton. Qed.

Lemma deepMerge_idempotent_witness :
  validateSettings userSettings = Returned tt /\
  deepMerge (deepMerge userSettings GeminiConfigurer.jumboHook) GeminiConfigurer.jumboHook
  = deepMerge userSettings GeminiConfigurer.jumboHook.
Proof.
  split; [reflexivity|].
  exact (deepMerge_idempotent userSettings GeminiConfigurer.jumboHook eq_refl
           jumboHook_commands_differ).
Defined.

(** The user's hook and Jumbo's, side by side after the merge. *)
Example deepMerge_user_settings :
  deepMerge userSettings GeminiConfigurer.jumboHook
  = JsObject
      [("theme", JsString "dark");
       ("hooks", JsObject
          [("SessionStart", JsArray
              [JsObject [("matcher", JsString "startup");
                         ("hooks", JsArray [userHook; jumboHookObject]);
                         ("description", JsString "mine")]]);
           ("SessionEnd", JsArray [])])].
Proof. reflexivity. Qed.

End FurtherMergerScenarios.

(** ** SafeGeminiSettingsMerger: the files it touches *)

Section Confinement.
Import Fs Disk.

(** Settles [confined] for one operation, by cases on the fault it meets. *)
Ltac fs_frame :=
  let w := fresh "w" in let o := fresh "o" in let w' := fresh "w'" in
  intros w o w';
  destruct (next_fault_inv w) as (? & ? & -> & ? & ? & ? & ? & ?);
  intros ?; unfold tear in *;
  repeat case_match; simplify_eq; cbn;
  split; try congruence; intros p Hp;
  try congruence;
  rewrite lookup_insert_ne by (intros <-; apply Hp; auto); congruence.

Lemma confined_ensureDir paths dir : confined paths (ensureDir dir).
Proof. unfold ensureDir. fs_frame. Qed.

Lemma confined_pathExists paths path : confined paths (pathExists path).
Proof. unfold pathExists. fs_frame. Qed.

Lemma confined_readFile paths path : confined paths (readFile path).
Proof. unfold readFile. fs_frame. Qed.

Lemma confined_copy paths src dest : In dest paths -> confined paths (copy src dest).
Proof. intros Hin. unfold copy. fs_frame. Qed.

Lemma confined_writeFile paths path content :
  In path paths -> confined paths (writeFile path content).
Proof. intros Hin. unfold writeFile. fs_frame. Qed.

Lemma confined_console_warn paths line : confined paths (console_warn line).
Proof. intros w o w' [= <- <-]. by split. Qed.

Lemma confined_ret {A} paths (a : A) : confined paths (mret a : Prog World A).
Proof. intros w o w' [= <- <-]. by split. Qed.

Lemma confined_throw {A} paths (e : JsError) : confined paths (throw e : Prog World A).
Proof. intros w o w' [= <- <-]. by split. Qed.

Lemma confined_lift {A} paths (o : Outcome A) : confined paths (lift o : Prog World A).
Proof. intros w o' w' [= <- <-]. by split. Qed.

Lemma confined_bind {A B} paths (m : Prog World A) (k : A -> Prog World B) :
  confined paths m -> (forall a, confined paths (k a)) -> confined paths (m ≫= k).
Proof.
  intros Hm Hk w o w'. unfold mbind, prog_bind, bind.
  destruct (m w) as [[a|e] w1] eqn:Hrun; intros Heq.
  - destruct (Hm _ _ _ Hrun) as [Hn Hf]. destruct (Hk a _ _ _ Heq) as [Hn' Hf'].
    split; [congruence|]. intros p Hp. by rewrite Hf', Hf.
  - simplify_eq. by apply (Hm _ _ _ Hrun).
Qed.

Lemma confined_when paths (c : bool) (m : Prog World unit) :
  confined paths m -> confined paths (when c m).
Proof. destruct c; [done|]. intros _. apply confined_ret. Qed.

Lemma confined_try_catch {A} paths (body : Prog World A) (handler : JsError -> Prog World A) :
  confined paths body -> (forall e, confined paths (handler e)) ->
  confined paths (try_catch body handler).
Proof.
  intros Hb Hh w o w'. unfold try_catch.
  destruct (body w) as [[a|e] w1] eqn:Hrun; intros Heq.
  - simplify_eq. by apply (Hb _ _ _ Hrun).
  - destruct (Hb _ _ _ Hrun) as [Hn Hf]. destruct (Hh e _ _ _ Heq) as [Hn' Hf'].
    split; [congruence|]. intros p Hp. by rewrite Hf', Hf.
Qed.

End Confinement.

Create HintDb confined.
#[global] Hint Resolve confined_ret confined_throw confined_lift
  confined_ensureDir confined_pathExists confined_readFile confined_console_warn
  : confined.

(** Walks through a body made of file operations. *)
Ltac confine :=
  repeat first
    [ apply confined_bind; [| intros ? ]
    | apply confined_try_catch; [| intros ? ]
    | apply confined_when
    | apply confined_copy; cbn [In]; auto 10
    | apply confined_writeFile; cbn [In]; auto 10
    | progress auto with confined
    | progress cbv zeta
    | match goal with |- Disk.confined _ (if ?c then _ else _) => destruct c end
    | match goal with |- Disk.confined _ (match ?c with _ => _ end) => destruct c end ].

Section MergerFrame.
Import Fs Disk SafeGeminiSettingsMerger.
Context `{JSON}.

Lemma confined_mergeAttempt paths settingsPath newSettings :
  In settingsPath paths -> confined paths (mergeAttempt settingsPath newSettings).
Proof. intros Hin. unfold mergeAttempt. confine. Qed.

Lemma confined_rollback paths backupPath settingsPath error :
  In settingsPath paths -> confined paths (rollback backupPath settingsPath error).
Proof. intros Hin. unfold rollback. confine. Qed.

(** mergeSettings writes to the settings file and to its backup only. *)
Lemma mergeSettings_frame
    (projectRoot : string) (newSettings : GeminiSettings)
    (w w' : World) (outcome : Outcome unit) (p : string) :
  mergeSettings projectRoot newSettings w = (outcome, w') ->
  p <> settingsPathOf projectRoot ->
  p <> backupPathOf projectRoot (now w) ->
  files w' !! p = files w !! p.
Proof.
  intros Hrun Hsp Hbp.
  unfold mergeSettings in Hrun.
  unfold Date_now at 1, mbind at 1, prog_bind at 1, bind at 1 in Hrun.
  match type of Hrun with
  | ?m w = _ =>
      assert (confined [settingsPathOf projectRoot; backupPathOf projectRoot (now w)] m)
        as Hconf
  end.
  { confine; first [apply confined_mergeAttempt | apply confined_rollback];
      cbn [In]; auto 10. }
  apply (Hconf _ _ _ Hrun). cbn [In]. intros [?|[?|[]]]; congruence.
Qed.

(** X15: whatever faults its file operations meet, mergeSettings changes
    no file other than .gemini/settings.json and the backup it names with
    the clock reading, neither of the two being a directory. *)
Theorem mergeSettings_touches_two_files
    (projectRoot : string) (newSettings : GeminiSettings)
    (w w' : World) (outcome : Outcome unit) (p : string) :
  settingsPathOf projectRoot ∉ dirs w ->
  backupPathOf projectRoot (now w) ∉ dirs w ->
  mergeSettings projectRoot newSettings w = (outcome, w') ->
  p <> settingsPathOf projectRoot ->
  p <> backupPathOf projectRoot (now w) ->
  files w' !! p = files w !! p.
Proof. intros _ _. apply mergeSettings_frame. Qed.

End MergerFrame.

Section MergerRollback.
Import Fs Disk SafeGeminiSettingsMerger MergedSettings.
Context `{JSON}.

(** Names the operation of a log entry that is a member of a known list. *)
Ltac entry_of Hin :=
  cbn in Hin; repeat (destruct Hin as [Hin|Hin]; [simplify_eq; eauto 6|]); destruct Hin.

Lemma parseAndValidate_valid (content : string) (existing : JsValue) :
  parseAndValidate content = Returned existing -> validateSettings existing = Returned tt.
Proof.
  unfold parseAndValidate.
  destruct (JSON_parse content) as [parsed|]; cbn; [|done].
  destruct (validateSettings parsed) as [[]|] eqn:Hvalid; cbn; [|done].
  by intros [= <-].
Qed.

(** STEP 2 to STEP 5 work on the settings file alone, and throw the error
    of the first step that fails: a file operation, or the parsing and
    validation of what was read.  STEP 4 never fails. *)
Lemma mergeAttempt_run settingsPath newSettings content w o w' :
  files w !! settingsPath = Some content ->
  mergeAttempt settingsPath newSettings w = (o, w') ->
  exists new,
    oplog w' = oplog w ++ new /\
    (forall p, p <> settingsPath -> files w' !! p = files w !! p) /\
    (forall op err, In (op, err) new ->
       (exists answer, op = PathExists settingsPath answer) \/
       op = ReadFile settingsPath \/
       exists text, op = WriteFile settingsPath text) /\
    match o with
    | Returned _ => omap snd new = []
    | Thrown error =>
        head (omap snd new) = Some error \/
        omap snd new = [] /\ parseAndValidate content = Thrown error
    end.
Proof.
  intros Hfile Hrun.
  unfold mergeAttempt, lift, mbind, mret, prog_bind, prog_ret, bind, ret in Hrun.
  destruct (pathExists settingsPath w) as [o1 w1] eqn:Hexists.
  apply pathExists_run in Hexists as (seen & -> & Hlog1 & Hfiles1 & _ & _).
  destruct seen.
  - destruct (readFile settingsPath w1) as [[read|e] w2] eqn:Hread;
      apply readFile_run in Hread as (Hlog2 & Hfiles2 & Hcontent).
    2: { simplify_eq. chain_logs. eexists. split; [done|].
         split; [by intros; rewrite Hfiles2, Hfiles1|].
         split; [|by left]. intros op err Hin. entry_of Hin. }
    specialize (Hcontent _ eq_refl). rewrite Hfiles1, Hfile in Hcontent.
    injection Hcontent as <-.
    destruct (parseAndValidate content) as [existing|e] eqn:Hparse.
    2: { simplify_eq. chain_logs. eexists. split; [done|].
         split; [by intros; rewrite Hfiles2, Hfiles1|].
         split; [|by right]. intros op err Hin. entry_of Hin. }
    rewrite (deepMerge_valid existing newSettings (parseAndValidate_valid _ _ Hparse)) in Hrun.
    apply writeFile_run in Hrun as (Hlog3 & Hothers & _).
    chain_logs. eexists. split; [done|].
    split; [by intros; rewrite Hothers, Hfiles2, Hfiles1|].
    split; [intros op err Hin; entry_of Hin|].
    destruct o as [[]|e]; [done|by left].
  - rewrite (deepMerge_valid (JsObject []) newSettings eq_refl) in Hrun.
    apply writeFile_run in Hrun as (Hlog3 & Hothers & _).
    chain_logs. eexists. split; [done|].
    split; [by intros; rewrite Hothers, Hfiles1|].
    split; [intros op err Hin; entry_of Hin|].
    destruct o as [[]|e]; [done|by left].
Qed.

(** STEP 7 never returns.  It works on the backup and the settings file
    alone; with a backup to go back to, it puts the backup back and throws
    the error it was given, unless its check comes back false or its copy
    fails. *)
Lemma rollback_run backupPath settingsPath error w o w' :
  rollback backupPath settingsPath error w = (o, w') ->
  exists new,
    oplog w' = oplog w ++ new /\
    (forall p, p <> settingsPath -> files w' !! p = files w !! p) /\
    (forall content, files w !! backupPath = Some content ->
       In (PathExists backupPath false, None) new \/
       (exists err, In (Copy backupPath settingsPath, Some err) new) \/
       omap snd new = [] /\ o = Thrown error /\ files w' !! settingsPath = Some content).
Proof.
  intros Hrun.
  unfold rollback, when, throw, mbind, mret, prog_bind, prog_ret, bind, ret in Hrun.
  destruct (pathExists backupPath w) as [o1 w1] eqn:Hexists.
  apply pathExists_run in Hexists as (seen & -> & Hlog1 & Hfiles1 & _ & _).
  destruct seen.
  - destruct (copy backupPath settingsPath w1) as [[[]|e] w2] eqn:Hcopy;
      apply copy_run in Hcopy as (Hlog2 & Hothers & Hcopied); simplify_eq; chain_logs.
    + eexists. split; [done|]. split; [by intros; rewrite Hothers, Hfiles1|].
      intros content Hbackup. right. right. split; [done|]. split; [done|].
      by rewrite Hcopied, Hfiles1.
    + eexists. split; [done|]. split; [by intros; rewrite Hothers, Hfiles1|].
      intros content Hbackup. right. left. exists e. right. by left.
  - simplify_eq. chain_logs. eexists. split; [done|]. split; [by intros; rewrite Hfiles1|].
    intros content Hbackup. left. by left.
Qed.

(** What a call of mergeSettings goes through when the settings file is
    there: it fails before the backup is taken and leaves the files alone;
    or the check of STEP 1 comes back false; or the backup is taken and
    stays as it is, while STEP 2 to STEP 5 and, when they throw, STEP 7
    work on the settings file. *)
Lemma mergeSettings_run
    (projectRoot : string) (newSettings : GeminiSettings)
    (w w' : World) (content : string) (outcome : Outcome unit) :
  let settingsPath := settingsPathOf projectRoot in
  let backupPath := backupPathOf projectRoot (now w) in
  let dir := path_join [projectRoot; ".gemini"] in
  files w !! settingsPath = Some content ->
  mergeSettings projectRoot newSettings w = (outcome, w') ->
  (exists e call,
      (opsSince w w' = [(call, Some e)] \/
       opsSince w w' = [(EnsureDir dir, None); (PathExists settingsPath true, None);
                        (call, Some e)]) /\
      outcome = Thrown e /\ files w' !! settingsPath = Some content) \/
  (exists post,
      opsSince w w' = (EnsureDir dir, None) :: (PathExists settingsPath false, None) :: post) \/
  (exists attempt rolled,
      opsSince w w'
      = [(EnsureDir dir, None); (PathExists settingsPath true, None);
         (Copy settingsPath backupPath, None)] ++ attempt ++ rolled /\
      files w' !! backupPath = Some content /\
      (forall op err, In (op, err) attempt ->
         (exists answer, op = PathExists settingsPath answer) \/
         op = ReadFile settingsPath \/
         exists text, op = WriteFile settingsPath text) /\
      ((outcome = Returned tt /\ rolled = [] /\ omap snd attempt = []) \/
       (exists error,
          (head (omap snd attempt) = Some error \/
           omap snd attempt = [] /\ parseAndValidate content = Thrown error) /\
          (In (PathExists backupPath false, None) rolled \/
           (exists err, In (Copy backupPath settingsPath, Some err) rolled) \/
           omap snd rolled = [] /\ outcome = Thrown error /\
           files w' !! settingsPath = Some content)))).
Proof.
  intros sp bp dir Hfile Hrun.
  pose proof (backupPath_ne projectRoot (now w)) as Hne. fold sp bp in Hne.
  unfold mergeSettings in Hrun.
  unfold Date_now at 1, mbind at 1, prog_bind at 1, bind at 1 in Hrun.
  fold sp bp dir in Hrun.
  unfold try_catch, when, mbind, mret, prog_bind, prog_ret, bind, ret in Hrun.
  destruct (ensureDir dir w) as [[[]|e] w1] eqn:Hdir;
    apply ensureDir_run in Hdir as (Hlog1 & Hfiles1).
  2: { simplify_eq. left. exists e, (EnsureDir dir). unfold ran in Hlog1.
       rewrite (opsSince_app w w' _ Hlog1). split; [by left|]. split; [done|].
       by rewrite Hfiles1. }
  destruct (pathExists sp w1) as [o2 w2] eqn:Hexists.
  apply pathExists_run in Hexists as (seen & -> & Hlog2 & Hfiles2 & _ & _).
  destruct seen.
  2: { right. left.
       destruct (mergeAttempt sp newSettings w2) as [[[]|e] w3] eqn:Hattempt;
         apply (mergeAttempt_run _ _ content) in Hattempt as (new & Hlog3 & _);
         try (by rewrite Hfiles2, Hfiles1).
       - simplify_eq. chain_logs. rewrite (opsSince_app w w' _ Hlog3). eauto.
       - apply rollback_run in Hrun as (new' & Hlog4 & _).
         chain_logs. rewrite (opsSince_app w w' _ Hlog4). eauto. }
  destruct (copy sp bp w2) as [[[]|e] w3] eqn:Hcopy;
    apply copy_run in Hcopy as (Hlog3 & Hothers3 & Hbackup).
  2: { simplify_eq. left. exists e, (Copy sp bp). chain_logs.
       rewrite (opsSince_app w w' _ Hlog3). split; [by right|]. split; [done|].
       by rewrite Hothers3, Hfiles2, Hfiles1. }
  specialize (Hbackup eq_refl). rewrite Hfiles2, Hfiles1, Hfile in Hbackup.
  assert (files w3 !! sp = Some content) as Hfile3
    by (by rewrite Hothers3, Hfiles2, Hfiles1).
  right. right.
  destruct (mergeAttempt sp newSettings w3) as [[[]|e] w4] eqn:Hattempt;
    apply (mergeAttempt_run _ _ content) in Hattempt
      as (attempt & Hlog4 & Hothers4 & Hops & Hdone); try done.
  - simplify_eq. exists attempt, []. chain_logs.
    rewrite (opsSince_app w w' _ Hlog4), app_nil_r.
    split; [done|]. split; [by rewrite Hothers4|]. split; [done|]. by left.
  - assert (files w4 !! bp = Some content) as Hbackup4 by (by rewrite Hothers4).
    apply rollback_run in Hrun as (rolled & Hlog5 & Hothers5 & Hrolled).
    exists attempt, rolled. chain_logs. rewrite (opsSince_app w w' _ Hlog5).
    split; [done|]. split; [by rewrite Hothers5, Hothers4|]. split; [done|].
    right. exists e. split; [done|]. by apply Hrolled.
Qed.

(** C9, as amended: if .gemini/settings.json held some content before the
    call and mergeSettings throws, then the file holds that same content
    afterwards and the error thrown is the one of the first step that
    failed (the first failed file operation or, if none failed, the parse
    or validation error), provided that the check of STEP 1 was answered
    before the backup was decided on, that the check of the catch block
    found the backup, and that the copy of the backup over the settings
    file did not fail. *)
Theorem mergeSettings_restores_on_error
    (projectRoot : string) (newSettings : GeminiSettings)
    (w w' : World) (content : string) (error : JsError) :
  files w !! settingsPathOf projectRoot = Some content ->
  mergeSettings projectRoot newSettings w = (Thrown error, w') ->
  backupDecided (settingsPathOf projectRoot) (backupPathOf projectRoot (now w)) w w' ->
  rollbackUnhindered (backupPathOf projectRoot (now w)) (settingsPathOf projectRoot) w w' ->
  files w' !! settingsPathOf projectRoot = Some content /\
  (firstFailure w w' = Some error \/
   firstFailure w w' = None /\ parseAndValidate content = Thrown error).
Proof.
  intros Hfile Hrun Hdecided [Hseen Hcopied].
  unfold firstFailure.
  destruct (mergeSettings_run _ _ _ _ _ _ Hfile Hrun)
    as [(e & call & Hops & [= <-] & Hkept)
       |[(post & Hops)
        |(attempt & rolled & Hops & _ & Hattempt & Hdone)]].
  - split; [done|]. left. by destruct Hops as [-> | ->].
  - destruct (Hdecided [(EnsureDir (path_join [projectRoot; ".gemini"]), None)] post Hops)
      as (o & Hin).
    entry_of Hin.
  - destruct Hdone as [(Hout & _)|(e & Hwhy & Hrolled)]; [done|].
    rewrite Hops in *.
    destruct Hrolled as [Hin|[(err & Hin)|(Hclean & [= <-] & Hrestored)]].
    + destruct Hseen. apply in_or_app. right. apply in_or_app. by right.
    + destruct (Hcopied err). apply in_or_app. right. apply in_or_app. by right.
    + split; [done|]. cbn. rewrite omap_app, Hclean, app_nil_r.
      destruct Hwhy as [Hfirst|[Hnone Hparse]]; [by left|right]. by rewrite Hnone.
Qed.

(** X16: once the backup was decided on with the check of STEP 1 answered,
    the old settings are not lost: if .gemini/settings.json held some
    content before the call then afterwards, whatever faults the other file
    operations met, that content is still in the settings file or in the
    backup; and when mergeSettings returns normally the backup holds it. *)
Theorem mergeSettings_keeps_old_content
    (projectRoot : string) (newSettings : GeminiSettings)
    (w w' : World) (content : string) (outcome : Outcome unit) :
  files w !! settingsPathOf projectRoot = Some content ->
  mergeSettings projectRoot newSettings w = (outcome, w') ->
  backupDecided (settingsPathOf projectRoot) (backupPathOf projectRoot (now w)) w w' ->
  (files w' !! settingsPathOf projectRoot = Some content \/
   files w' !! backupPathOf projectRoot (now w) = Some content) /\
  (outcome = Returned tt ->
   files w' !! backupPathOf projectRoot (now w) = Some content).
Proof.
  intros Hfile Hrun Hdecided.
  destruct (mergeSettings_run _ _ _ _ _ _ Hfile Hrun)
    as [(e & call & Hops & -> & Hkept)
       |[(post & Hops)
        |(attempt & rolled & Hops & Hbackup & _)]].
  - split; [by left|done].
  - destruct (Hdecided [(EnsureDir (path_join [projectRoot; ".gemini"]), None)] post Hops)
      as (o & Hin).
    entry_of Hin.
  - split; [by right|done].
Qed.

End MergerRollback.

Section HealthyDisk.
Import Fs Disk.

Lemma next_fault_healthy w : healthy w -> next_fault w = (Works, w).
Proof. unfold healthy, next_fault. by intros ->. Qed.

Lemma ensureDir_healthy dir w :
  healthy w ->
  ensureDir dir w = (Returned tt, logged (EnsureDir dir) None (set_dirs (union {[dir]}) w)).
Proof. intros Hw. unfold ensureDir. by rewrite next_fault_healthy. Qed.

Lemma pathExists_healthy path w :
  healthy w ->
  let answer := match files w !! path with
                | Some _ => true
                | None => bool_decide (path ∈ dirs w)
                end in
  pathExists path w = (Returned answer, logged (PathExists path answer) None w).
Proof. intros Hw. unfold pathExists. by rewrite next_fault_healthy. Qed.

Lemma copy_healthy src dest content w :
  healthy w -> files w !! src = Some content ->
  copy src dest w
  = (Returned tt, logged (Copy src dest) None (set_files <[dest := content]> w)).
Proof. intros Hw Hsrc. unfold copy. by rewrite next_fault_healthy, Hsrc. Qed.

Lemma readFile_healthy path content w :
  healthy w -> files w !! path = Some content ->
  readFile path w = (Returned content, logged (ReadFile path) None w).
Proof. intros Hw Hsrc. unfold readFile. by rewrite next_fault_healthy, Hsrc. Qed.

Lemma readFile_healthy_missing path w :
  healthy w -> files w !! path = None ->
  let e := if bool_decide (path ∈ dirs w) then EISDIR else ENOENT "open" path in
  readFile path w = (Thrown e, logged (ReadFile path) (Some e) w).
Proof. intros Hw Hsrc. unfold readFile. by rewrite next_fault_healthy, Hsrc. Qed.

Lemma writeFile_healthy path content w :
  healthy w ->
  writeFile path content w
  = (Returned tt, logged (WriteFile path content) None (set_files <[path := content]> w)).
Proof. intros Hw. unfold writeFile. by rewrite next_fault_healthy. Qed.

End HealthyDisk.

(** Runs the next file operation of a healthy disk. *)
Ltac run_healthy :=
  unfold Js.try_catch, Js.when, Js.lift, Js.throw, mbind, mret, Js.prog_bind, Js.prog_ret,
    Js.bind, Js.ret;
  repeat first
    [ rewrite ensureDir_healthy by done
    | rewrite pathExists_healthy by done
    | erewrite copy_healthy
        by (try done; cbn [Fs.files Fs.logged Fs.set_files Fs.set_dirs];
            simplify_map_eq; done)
    | erewrite readFile_healthy
        by (try done; cbn [Fs.files Fs.logged Fs.set_files Fs.set_dirs];
            simplify_map_eq; done)
    | rewrite writeFile_healthy by done
    | progress cbn [Fs.files Fs.dirs Fs.faults Fs.now Fs.logged Fs.set_files Fs.set_dirs
                    fst snd] ].

Section MergerOnHealthyDisk.
Import Fs Disk SafeGeminiSettingsMerger MergedSettings.
Context `{JSON}.

(** X17: on a disk without faults, with an existing settings file,
    mergeSettings returns normally exactly when the content parses and
    validates, and then the file holds the merged settings; otherwise it
    throws the parse or validation error and the file holds what it held;
    in both cases the backup holds the old content. *)
Theorem mergeSettings_on_healthy_disk
    (projectRoot : string) (newSettings : GeminiSettings) (w : World) (content : string) :
  healthy w ->
  files w !! settingsPathOf projectRoot = Some content ->
  exists w',
    mergeSettings projectRoot newSettings w
    = (match parseAndValidate content with
       | Returned _ => Returned tt
       | Thrown error => Thrown error
       end, w') /\
    files w'
    = <[settingsPathOf projectRoot :=
          match parseAndValidate content with
          | Returned existing => JSON_stringify (deepMerge existing newSettings) 2 +:+ LF
          | Thrown _ => content
          end]>
        (<[backupPathOf projectRoot (now w) := content]> (files w)).
Proof.
  intros Hw Hfile.
  pose proof (backupPath_ne projectRoot (now w)) as Hne.
  unfold mergeSettings, mergeAttempt, rollback.
  unfold Date_now at 1, mbind at 1, prog_bind at 1, bind at 1.
  set (sp := settingsPathOf projectRoot) in *.
  set (bp := backupPathOf projectRoot (now w)) in *.
  run_healthy. rewrite Hfile. run_healthy.
  rewrite lookup_insert_ne by done. rewrite Hfile. run_healthy.
  destruct (parseAndValidate content) as [existing|error] eqn:Hparse.
  - assert (validateSettings existing = Returned tt) as Hvalid.
    { unfold parseAndValidate in Hparse.
      destruct (JSON_parse content) as [parsed|]; cbn in Hparse; [|done].
      destruct (validateSettings parsed) as [[]|] eqn:Hv; cbn in Hparse; [|done].
      by simplify_eq. }
    rewrite (deepMerge_valid _ newSettings Hvalid). run_healthy.
    eexists. split; [reflexivity|]. done.
  - run_healthy. rewrite lookup_insert_eq. run_healthy.
    eexists. split; [reflexivity|]. done.
Qed.

(** X18: on a disk without faults where .gemini is a directory that holds
    no settings file, mergeSettings returns normally, writes the new
    settings merged into the empty object, and changes no other file: there
    is no backup. *)
Theorem mergeSettings_creates_settings
    (projectRoot : string) (newSettings : GeminiSettings) (w : World) :
  healthy w ->
  isDirectory w (path_join [projectRoot; ".gemini"]) ->
  files w !! settingsPathOf projectRoot = None ->
  settingsPathOf projectRoot ∉ dirs w ->
  exists w',
    mergeSettings projectRoot newSettings w = (Returned tt, w') /\
    files w'
    = <[settingsPathOf projectRoot :=
          JSON_stringify (deepMerge (JsObject []) newSettings) 2 +:+ LF]> (files w).
Proof.
  intros Hw [_ Hthere] Hfile Hdir.
  unfold mergeSettings, mergeAttempt, rollback.
  unfold Date_now at 1, mbind at 1, prog_bind at 1, bind at 1.
  set (sp := settingsPathOf projectRoot) in *.
  set (dir := path_join [projectRoot; ".gemini"]) in *.
  assert (bool_decide (sp ∈ {[dir]} ∪ dirs w) = false) as Hmissing.
  { apply bool_decide_eq_false_2.
    intros [Hin%elem_of_singleton|Hin]%elem_of_union; [|done]. by rewrite Hin in Hdir. }
  run_healthy. rewrite Hfile, Hmissing. run_healthy. rewrite Hfile, Hmissing. run_healthy.
  rewrite (deepMerge_valid (JsObject []) newSettings eq_refl). run_healthy.
  eexists. split; [reflexivity|]. done.
Qed.

End MergerOnHealthyDisk.

Section FurtherDiskScenarios.
Import Fs Disk SafeGeminiSettingsMerger Scenario MoreScenarios.

(** Settles that a path is none of the directories of a disk that is
    known. *)
Ltac not_a_directory :=
  let Hin := fresh "Hin" in
  intros Hin; apply (bool_decide_pack _) in Hin; vm_compute in Hin; exact Hin.

(** Settles [backupDecided] for a run that is known. *)
Ltac backup_decided :=
  let pre := fresh "pre" in let post := fresh "post" in let Heq := fresh "Heq" in
  intros pre post Heq; vm_compute in Heq; symmetry in Heq;
  split_trace Heq; eexists; cbn; eauto 10.

(** Settles [rollbackUnhindered] for a run that is known. *)
Ltac rollback_unhindered :=
  let Hin := fresh "Hin" in
  split; [intros Hin|intros ? Hin]; vm_compute in Hin; intuition discriminate.

Lemma mergeSettings_touches_two_files_witness :
  (settingsPath ∉ dirs ownFiles) /\
  (backupPath ∉ dirs ownFiles) /\
  "/proj/README.md" <> settingsPath /\
  "/proj/README.md" <> backupPath /\
  files (merge GeminiConfigurer.jumboHook ownFiles).2 !! "/proj/README.md"
  = files ownFiles !! "/proj/README.md".
Proof.
  assert (Hsp : settingsPathOf "/proj" ∉ dirs ownFiles) by not_a_directory.
  assert (Hbp : backupPathOf "/proj" (now ownFiles) ∉ dirs ownFiles) by not_a_directory.
  assert (Hsettings : "/proj/README.md" <> settingsPathOf "/proj")
    by (vm_compute; discriminate).
  assert (Hbackup : "/proj/README.md" <> backupPathOf "/proj" (now ownFiles))
    by (vm_compute; discriminate).
  split; [exact Hsp|]. split; [exact Hbp|]. split; [exact Hsettings|].
  split; [exact Hbackup|].
  exact (@mergeSettings_touches_two_files MiniJson.codec "/proj" GeminiConfigurer.jumboHook
           ownFiles _ _ "/proj/README.md" Hsp Hbp (surjective_pairing _) Hsettings Hbackup).
Defined.

(** C9 as stated fails, in two ways.  The settings file holds {} and the
    write of STEP 5 fails after emptying the file.  In the first run the
    copy of STEP 7 fails too: the file is left empty, and the error that
    reaches the caller is the one of the failed copy, not the one of the
    failed write.  In the second run the access of the STEP 1 check had
    failed, which pathExists answers with false: no backup was taken, STEP 7
    finds none, and the file is left empty. *)
Lemma mergeSettings_can_lose_content :
  (files diskFillsUp !! settingsPath = Some "{}" /\
   (merge repeatedHook diskFillsUp).1 = Thrown diskFull /\
   firstFailure diskFillsUp (merge repeatedHook diskFillsUp).2 = Some ioError /\
   files (merge repeatedHook diskFillsUp).2 !! settingsPath = Some "" /\
   files (merge repeatedHook diskFillsUp).2 !! settingsPath
   <> files diskFillsUp !! settingsPath) /\
  (files checkDefeated !! settingsPath = Some "{}" /\
   (merge repeatedHook checkDefeated).1 = Thrown ioError /\
   opsSince checkDefeated (merge repeatedHook checkDefeated).2
   = [(EnsureDir "/proj/.gemini", None);
      (PathExists settingsPath false, None);
      (PathExists settingsPath true, None);
      (ReadFile settingsPath, None);
      (WriteFile settingsPath
         (@JSON_stringify MiniJson.codec
            (startupMatcher [jumboHookObject; jumboHookObject]) 2 +:+ LF),
       Some ioError);
      (PathExists backupPath false, None)] /\
   files (merge repeatedHook checkDefeated).2 !! backupPath = None /\
   files (merge repeatedHook checkDefeated).2 !! settingsPath = Some "" /\
   files (merge repeatedHook checkDefeated).2 !! settingsPath
   <> files checkDefeated !! settingsPath).
Proof.
  repeat split; try (vm_compute; reflexivity); vm_compute; discriminate.
Qed.

Lemma mergeSettings_restores_on_error_witness :
  files writeFails !! settingsPath = Some "{}" /\
  (merge repeatedHook writeFails).1 = Thrown ioError /\
  backupDecided settingsPath backupPath writeFails (merge repeatedHook writeFails).2 /\
  rollbackUnhindered backupPath settingsPath writeFails (merge repeatedHook writeFails).2 /\
  In (WriteFile settingsPath
        (@JSON_stringify MiniJson.codec
           (startupMatcher [jumboHookObject; jumboHookObject]) 2 +:+ LF),
      Some ioError)
     (opsSince writeFails (merge repeatedHook writeFails).2) /\
  files (merge repeatedHook writeFails).2 !! settingsPath = Some "{}" /\
  firstFailure writeFails (merge repeatedHook writeFails).2 = Some ioError.
Proof.
  assert (Hfile : files writeFails !! settingsPathOf "/proj" = Some "{}")
    by (vm_compute; reflexivity).
  assert (Hthrown : (merge repeatedHook writeFails).1 = Thrown ioError)
    by (vm_compute; reflexivity).
  assert (Hrun : @mergeSettings MiniJson.codec "/proj" repeatedHook writeFails
                 = (Thrown ioError, (merge repeatedHook writeFails).2)).
  { rewrite <- Hthrown. apply surjective_pairing. }
  assert (Hdecided : backupDecided (settingsPathOf "/proj")
                       (backupPathOf "/proj" (now writeFails)) writeFails
                       (merge repeatedHook writeFails).2) by backup_decided.
  assert (Hrolled : rollbackUnhindered (backupPathOf "/proj" (now writeFails))
                      (settingsPathOf "/proj") writeFails
                      (merge repeatedHook writeFails).2) by rollback_unhindered.
  assert (Hwritten :
            In (WriteFile settingsPath
                  (@JSON_stringify MiniJson.codec
                     (startupMatcher [jumboHookObject; jumboHookObject]) 2 +:+ LF),
                Some ioError)
               (opsSince writeFails (merge repeatedHook writeFails).2))
    by (vm_compute; do 5 right; left; reflexivity).
  pose proof (@mergeSettings_restores_on_error MiniJson.codec "/proj" repeatedHook
                writeFails _ "{}" ioError Hfile Hrun Hdecided Hrolled)
    as [Hrestored [Hfirst|[_ Hparse]]].
  - split; [exact Hfile|]. split; [exact Hthrown|]. split; [exact Hdecided|].
    split; [exact Hrolled|]. split; [exact Hwritten|]. split; [exact Hrestored|exact Hfirst].
  - vm_compute in Hparse. discriminate Hparse.
Defined.

Lemma mergeSettings_keeps_old_content_witness :
  files diskFillsUp !! settingsPath = Some "{}" /\
  backupDecided settingsPath backupPath diskFillsUp (merge repeatedHook diskFillsUp).2 /\
  (files (merge repeatedHook diskFillsUp).2 !! settingsPath = Some "{}" \/
   files (merge repeatedHook diskFillsUp).2 !! backupPath = Some "{}") /\
  ((merge repeatedHook diskFillsUp).1 = Returned tt ->
   files (merge repeatedHook diskFillsUp).2 !! backupPath = Some "{}").
Proof.
  assert (Hfile : files diskFillsUp !! settingsPathOf "/proj" = Some "{}")
    by (vm_compute; reflexivity).
  assert (Hdecided : backupDecided (settingsPathOf "/proj")
                       (backupPathOf "/proj" (now diskFillsUp)) diskFillsUp
                       (merge repeatedHook diskFillsUp).2) by backup_decided.
  split; [exact Hfile|]. split; [exact Hdecided|].
  exact (@mergeSettings_keeps_old_content MiniJson.codec "/proj" repeatedHook
           diskFillsUp _ "{}" _ Hfile (surjective_pairing _) Hdecided).
Defined.

(** In that run the settings file was left empty: it is the backup that
    still holds the old content. *)
Example old_content_is_in_the_backup :
  files (merge repeatedHook diskFillsUp).2 !! settingsPath = Some "" /\
  files (merge repeatedHook diskFillsUp).2 !! backupPath = Some "{}".
Proof. split; vm_compute; reflexivity. Qed.

(** When the access of the STEP 2 check fails the settings file is taken to
    be missing: mergeSettings returns normally and the file holds the new
    settings alone; what the user had is in the backup. *)
Example mergeSettings_overwrites_after_defeated_check :
  (merge GeminiConfigurer.jumboHook secondCheckDefeated).1 = Returned tt /\
  files (merge GeminiConfigurer.jumboHook secondCheckDefeated).2 !! settingsPath
  = Some (@JSON_stringify MiniJson.codec (startupMatcher [jumboHookObject]) 2 +:+ LF) /\
  files (merge GeminiConfigurer.jumboHook secondCheckDefeated).2 !! backupPath
  = files secondCheckDefeated !! settingsPath.
Proof. repeat split; vm_compute; reflexivity. Qed.

Lemma mergeSettings_on_healthy_disk_witness :
  healthy emptySettings /\
  files emptySettings !! settingsPath = Some "{}" /\
  exists w',
    merge GeminiConfigurer.jumboHook emptySettings
    = (match @parseAndValidate MiniJson.codec "{}" with
       | Returned _ => Returned tt
       | Thrown error => Thrown error
       end, w') /\
    files w'
    = <[settingsPath :=
          match @parseAndValidate MiniJson.codec "{}" with
          | Returned existing =>
              @JSON_stringify MiniJson.codec
                (deepMerge existing GeminiConfigurer.jumboHook) 2 +:+ LF
          | Thrown _ => "{}"
          end]>
        (<[backupPath := "{}"]> (files emptySettings)).
Proof.
  assert (Hfile : files emptySettings !! settingsPathOf "/proj" = Some "{}")
    by (vm_compute; reflexivity).
  split; [reflexivity|]. split; [exact Hfile|].
  exact (@mergeSettings_on_healthy_disk MiniJson.codec "/proj" GeminiConfigurer.jumboHook
           emptySettings "{}" eq_refl Hfile).
Defined.

Lemma mergeSettings_creates_settings_witness :
  healthy geminiDirectory /\
  isDirectory geminiDirectory "/proj/.gemini" /\
  files geminiDirectory !! settingsPath = None /\
  (settingsPath ∉ dirs geminiDirectory) /\
  exists w',
    merge GeminiConfigurer.jumboHook geminiDirectory = (Returned tt, w') /\
    files w'
    = <[settingsPath :=
          @JSON_stringify MiniJson.codec
            (deepMerge (JsObject []) GeminiConfigurer.jumboHook) 2 +:+ LF]>
        (files geminiDirectory).
Proof.
  assert (Hthere : isDirectory geminiDirectory (path_join ["/proj"; ".gemini"])).
  { split; [vm_compute; reflexivity|]. apply (bool_decide_unpack _). vm_compute. exact I. }
  assert (Hfile : files geminiDirectory !! settingsPathOf "/proj" = None)
    by (vm_compute; reflexivity).
  assert (Hdir : settingsPathOf "/proj" ∉ dirs geminiDirectory) by not_a_directory.
  split; [reflexivity|]. split; [exact Hthere|]. split; [exact Hfile|]. split; [exact Hdir|].
  exact (@mergeSettings_creates_settings MiniJson.codec "/proj" GeminiConfigurer.jumboHook
           geminiDirectory eq_refl Hthere Hfile Hdir).
Defined.

End FurtherDiskScenarios.

(** ** The configurers on a disk without faults *)

Section StringMethods.

Lemma string_app_cons (c : ascii) (a b : string) : String c a +:+ b = String c (a +:+ b).
Proof. done. Qed.

Lemma string_app_nil_l (b : string) : "" +:+ b = b.
Proof. done. Qed.

Lemma string_app_assoc (a b c : string) : (a +:+ b) +:+ c = a +:+ (b +:+ c).
Proof. induction a as [|x a IH]; [done|]. by rewrite !string_app_cons, IH. Qed.

Lemma string_app_nil_r (a : string) : a +:+ "" = a.
Proof. induction a as [|x a IH]; [done|]. by rewrite string_app_cons, IH. Qed.

Lemma prefix_app (sub post : string) : String.prefix sub (sub +:+ post) = true.
Proof.
  induction sub as [|c sub IH]; [by destruct post|].
  rewrite string_app_cons. cbn. destruct (ascii_dec c c); [done|congruence].
Qed.

Lemma prefix_inv (sub s : string) :
  String.prefix sub s = true -> exists post, s = sub +:+ post.
Proof.
  revert s. induction sub as [|c sub IH]; intros s; [by exists s|].
  destruct s as [|d s]; [done|]. cbn. destruct (ascii_dec c d) as [->|]; [|done].
  intros (post & ->)%IH. exists post. by rewrite string_app_cons.
Qed.

Lemma includes_inv (s sub : string) :
  includes s sub = true -> exists pre post, s = pre +:+ sub +:+ post.
Proof.
  induction s as [|c s IH]; cbn [includes].
  - rewrite orb_false_r. intros (post & Hp)%prefix_inv. by exists "", post.
  - intros [(post & Hp)%prefix_inv|(pre & post & ->)%IH]%orb_true_iff.
    + by exists "", post.
    + exists (String c pre), post. by rewrite string_app_cons.
Qed.

Lemma includes_prefix (s sub : string) :
  String.prefix sub s = true -> includes s sub = true.
Proof. intros Hp. destruct s; cbn [includes]; by rewrite Hp. Qed.

Lemma includes_intro (pre sub post : string) : includes (pre +:+ sub +:+ post) sub = true.
Proof.
  induction pre as [|c pre IH].
  - rewrite string_app_nil_l. apply includes_prefix, prefix_app.
  - rewrite string_app_cons. cbn [includes]. rewrite IH. apply orb_true_r.
Qed.

Lemma includes_app_r (a b sub : string) :
  includes b sub = true -> includes (a +:+ b) sub = true.
Proof.
  intros (pre & post & ->)%includes_inv. rewrite <- string_app_assoc. apply includes_intro.
Qed.

Lemma includes_app_l (a b sub : string) :
  includes a sub = true -> includes (a +:+ b) sub = true.
Proof.
  intros (pre & post & ->)%includes_inv. rewrite !string_app_assoc. apply includes_intro.
Qed.

Lemma string_rev_onto_app (s acc : string) :
  string_rev_onto s acc = string_rev s +:+ acc.
Proof.
  unfold string_rev. revert acc. induction s as [|c s IH]; intros acc; cbn; [done|].
  rewrite (IH (String c acc)), (IH (String c "")). by rewrite string_app_assoc.
Qed.

Lemma string_rev_app (a b : string) : string_rev (a +:+ b) = string_rev b +:+ string_rev a.
Proof.
  induction a as [|c a IH]; [by rewrite string_app_nil_r|].
  rewrite string_app_cons. unfold string_rev in *. cbn.
  rewrite (string_rev_onto_app (a +:+ b)), (string_rev_onto_app a).
  unfold string_rev. by rewrite IH, string_app_assoc.
Qed.

Lemma string_rev_involutive (a : string) : string_rev (string_rev a) = a.
Proof.
  induction a as [|c a IH]; [done|].
  change (String c a) with (String c "" +:+ a) at 1.
  rewrite string_rev_app, string_rev_app. cbn. by rewrite IH.
Qed.

Lemma trimStart_app (pre x : string) c t :
  x = String c t -> is_white_space c = false ->
  trimStart (pre +:+ x) = trimStart pre +:+ x.
Proof.
  intros -> Hc. induction pre as [|a pre IH].
  { rewrite string_app_nil_l. cbn [trimStart]. by rewrite Hc. }
  rewrite string_app_cons. cbn [trimStart]. rewrite IH.
  by destruct (is_white_space a).
Qed.

Lemma trimEnd_app (x post : string) c t :
  string_rev x = String c t -> is_white_space c = false ->
  trimEnd (x +:+ post) = x +:+ trimEnd post.
Proof.
  intros Hx Hc. unfold trimEnd.
  rewrite string_rev_app, (trimStart_app _ _ c t Hx Hc), string_rev_app.
  by rewrite string_rev_involutive.
Qed.

(** Trimming keeps every occurrence of a text that neither starts nor ends
    with white space. *)
Lemma includes_trim (s sub : string) c t c' t' :
  sub = String c t -> is_white_space c = false ->
  string_rev sub = String c' t' -> is_white_space c' = false ->
  includes s sub = true -> includes (trim s) sub = true.
Proof.
  intros Hsub Hc Hrev Hc' (pre & post & ->)%includes_inv.
  unfold trim. rewrite <- string_app_assoc.
  rewrite (trimEnd_app (pre +:+ sub) post c' (t' +:+ string_rev pre)); [|
    by rewrite string_rev_app, Hrev|done].
  rewrite string_app_assoc.
  rewrite (trimStart_app pre (sub +:+ trimEnd post) c (t +:+ trimEnd post));
    [|by rewrite Hsub|done].
  apply includes_intro.
Qed.

Lemma includes_trim_agents (s : string) :
  includes s "AGENTS.md" = true -> includes (trim s) "AGENTS.md" = true.
Proof. by apply (includes_trim s "AGENTS.md" "A" "GENTS.md" "d" "m.STNEGA"). Qed.

Lemma trimEnd_prefix (s : string) : exists tail, s = trimEnd s +:+ tail.
Proof.
  unfold trimEnd.
  assert (forall r, exists ws, r = ws +:+ trimStart r) as Hstart.
  { induction r as [|c r [ws IH]]; [by exists ""|]. cbn.
    destruct (is_white_space c); [|by exists ""].
    exists (String c ws). by rewrite string_app_cons, <- IH. }
  destruct (Hstart (string_rev s)) as [ws Hws].
  exists (string_rev ws).
  rewrite <- string_rev_app, <- Hws. by rewrite string_rev_involutive.
Qed.

End StringMethods.

Section PathJoin.
Import Fs.

Lemma split_slash_cons (path : string) : exists part parts, split_slash path = part :: parts.
Proof.
  induction path as [|c rest (part & parts & IH)]; cbn; [by eauto|].
  destruct (Ascii.eqb c "/"); [by eauto|]. rewrite IH. eauto.
Qed.

Lemma split_slash_app (a b : string) :
  split_slash (a +:+ "/" +:+ b) = split_slash a ++ split_slash b.
Proof.
  induction a as [|c a IH]; [done|].
  rewrite string_app_cons. cbn [split_slash]. rewrite IH.
  destruct (Ascii.eqb c "/"); [done|].
  destruct (split_slash_cons a) as (part & parts & ->). done.
Qed.

Lemma concat_snoc (l : list string) (x : string) :
  String.concat "/" (l ++ [x])
  = match l with [] => "" | _ :: _ => String.concat "/" l +:+ "/" end +:+ x.
Proof.
  induction l as [|y l IH]; [done|].
  cbn [app]. change (String.concat "/" (y :: l ++ [x]))
    with (match l ++ [x] with [] => y | _ :: _ => y +:+ "/" +:+ String.concat "/" (l ++ [x]) end).
  rewrite IH. destruct l as [|z l]; cbn [app].
  - cbn [String.concat]. by rewrite string_app_nil_l, string_app_assoc.
  - change (String.concat "/" (y :: z :: l))
      with (y +:+ "/" +:+ String.concat "/" (z :: l)).
    by rewrite !string_app_assoc.
Qed.

Lemma app_eq_nil_string (a b : string) : b <> "" -> String.eqb (a +:+ b) "" = false.
Proof.
  intros Hb. apply String.eqb_neq. destruct a; [done|]. by rewrite string_app_cons.
Qed.

Lemma starts_with_slash_app (a b : string) :
  a <> "" -> starts_with_slash (a +:+ b) = starts_with_slash a.
Proof. by destruct a. Qed.

Lemma ends_with_slash_app (a b : string) :
  b <> "" -> ends_with_slash (a +:+ b) = ends_with_slash b.
Proof.
  intros Hb. induction a as [|c a IH]; [done|].
  rewrite string_app_cons. cbn [ends_with_slash]. rewrite IH.
  destruct (a +:+ b) eqn:Hab; [|done].
  destruct a; [done|]. by rewrite string_app_cons in Hab.
Qed.

Lemma normalize_last (args : list string) (name : string) :
  split_slash name = [name] -> name <> "" -> name <> "." -> name <> ".." ->
  ends_with_slash name = false ->
  exists before, normalize (String.concat "/" (args ++ [name])) = before +:+ name.
Proof.
  intros Hsplit Hne Hdot Hdots Hlast.
  assert (forall allow res, normalizeStep allow res name = name :: res) as Hstep.
  { intros allow res. unfold normalizeStep.
    apply String.eqb_neq in Hne, Hdot, Hdots. by rewrite Hne, Hdot, Hdots. }
  rewrite concat_snoc.
  set (front := match args with [] => "" | _ :: _ => String.concat "/" args +:+ "/" end).
  unfold normalize. rewrite (app_eq_nil_string front name Hne).
  rewrite (ends_with_slash_app front name Hne), Hlast.
  set (allow := negb (starts_with_slash (front +:+ name))).
  assert (exists parts, split_slash (front +:+ name) = parts ++ [name]) as [parts ->].
  { unfold front. destruct args as [|arg args'].
    - exists []. by rewrite string_app_nil_l.
    - exists (split_slash (String.concat "/" (arg :: args'))).
      by rewrite string_app_assoc, split_slash_app, Hsplit. }
  unfold normalizeString. rewrite fold_left_app. cbn [fold_left]. rewrite Hstep.
  cbn [rev]. rewrite concat_snoc.
  set (kept := match rev _ with [] => "" | _ :: _ => _ end).
  rewrite (app_eq_nil_string kept name Hne). rewrite string_app_nil_r.
  eexists. by rewrite <- string_app_assoc.
Qed.

(** The last part of a joined path is its last segment, when that segment
    is a plain name. *)
Lemma path_join_last (segments : list string) (name : string) :
  split_slash name = [name] -> name <> "" -> name <> "." -> name <> ".." ->
  ends_with_slash name = false ->
  exists before, path_join (segments ++ [name]) = before +:+ name.
Proof.
  intros Hsplit Hne Hdot Hdots Hlast.
  unfold path_join. rewrite List.filter_app. cbn [List.filter].
  apply String.eqb_neq in Hne as Hne'. rewrite Hne'. cbn [negb].
  destruct (List.filter _ segments) as [|arg args]; cbn [app].
  - by apply (normalize_last []).
  - by apply (normalize_last (arg :: args)).
Qed.

End PathJoin.

Section EnsuredFiles.
Import Disk.

Lemma ensured_settled marker create amend path files dirs :
  includes create marker = true ->
  (forall content, includes (amend content) marker = true) ->
  settled marker path (ensured marker create amend path files dirs) dirs.
Proof.
  intros Hcreate Hamend. unfold ensured, settled.
  destruct (files !! path) as [content|] eqn:Hfile.
  - destruct (includes content marker) eqn:Hinc.
    + left. eauto.
    + left. exists (amend content). by rewrite lookup_insert_eq.
  - destruct (bool_decide (path ∈ dirs)) eqn:Hdir.
    + right. split; [done|]. by apply bool_decide_eq_true in Hdir.
    + left. exists create. by rewrite lookup_insert_eq.
Qed.

Lemma settled_ensured marker create amend path files dirs :
  settled marker path files dirs ->
  ensured marker create amend path files dirs = files.
Proof.
  unfold ensured. intros [(content & -> & ->)|[-> Hdir]]; [done|].
  by rewrite bool_decide_eq_true_2.
Qed.

Lemma settled_mono marker path files files' (dirs dirs' : gset string) :
  settled marker path files dirs ->
  files' !! path = files !! path -> dirs ⊆ dirs' ->
  settled marker path files' dirs'.
Proof.
  intros [(content & Hfile & Hinc)|[Hfile Hdir]] Hsame Hsub.
  - left. exists content. by rewrite Hsame.
  - right. rewrite Hsame. split; [done|]. by apply Hsub.
Qed.

Lemma ensured_settled_mono marker create amend path files (dirs dirs' : gset string) :
  includes create marker = true ->
  (forall content, includes (amend content) marker = true) ->
  dirs ⊆ dirs' ->
  settled marker path (ensured marker create amend path files dirs) dirs'.
Proof.
  intros Hcreate Hamend Hsub.
  eapply settled_mono; [by apply ensured_settled|done|done].
Qed.

Lemma ensured_other marker create amend path files dirs p :
  p <> path -> ensured marker create amend path files dirs !! p = files !! p.
Proof.
  intros Hne. unfold ensured. repeat case_match; try done; by rewrite lookup_insert_ne.
Qed.

Lemma ensured_installs marker create amend path files dirs :
  includes create marker = true ->
  (forall content, includes (amend content) marker = true) ->
  path ∉ dirs ->
  exists content,
    ensured marker create amend path files dirs !! path = Some content /\
    includes content marker = true.
Proof.
  intros Hcreate Hamend Hdir.
  destruct (ensured_settled marker create amend path files dirs Hcreate Hamend)
    as [?|[_ ?]]; done.
Qed.

End EnsuredFiles.

Section ConfigurersOnHealthyDisk.
Import Fs Disk SafeGeminiSettingsMerger.
Context `{AgentInstructions}.

(** What ensureGeminiMd and ensureCursorMd leave in their file. *)
Lemma ensureGeminiMd_healthy projectRoot w :
  healthy w ->
  let path := path_join [projectRoot; "GEMINI.md"] in
  exists w',
    GeminiConfigurer.ensureGeminiMd projectRoot w = (Returned tt, w') /\
    healthy w' /\ dirs w' = dirs w /\
    files w'
    = ensured "AGENTS.md" (trim getAgentFileReference +:+ LF)
        (fun content => trimEnd content +:+ LF +:+ getAgentFileReference)
        path (files w) (dirs w).
Proof.
  intros Hw path. unfold GeminiConfigurer.ensureGeminiMd. fold path. cbv zeta.
  unfold ensured. run_healthy. destruct (files w !! path) as [content|] eqn:Hfile.
  - cbn [negb]. run_healthy.
    destruct (includes content "AGENTS.md"); cbn [negb]; run_healthy;
      eexists; (split; [reflexivity|]); done.
  - destruct (bool_decide (path ∈ dirs w)); cbn [negb]; run_healthy.
    + rewrite readFile_healthy_missing by done. unfold console_warn.
      eexists; (split; [reflexivity|]); done.
    + eexists; (split; [reflexivity|]); done.
Qed.

Lemma ensureCursorMd_healthy projectRoot w :
  healthy w ->
  let path := path_join [projectRoot; "CURSOR.md"] in
  exists w',
    CursorConfigurer.ensureCursorMd projectRoot w = (Returned tt, w') /\
    healthy w' /\ dirs w' = dirs w /\
    files w'
    = ensured "AGENTS.md" (trim getAgentFileReference +:+ LF)
        (fun content => trimEnd content +:+ LF +:+ getAgentFileReference)
        path (files w) (dirs w).
Proof.
  intros Hw path. unfold CursorConfigurer.ensureCursorMd. fold path. cbv zeta.
  unfold ensured. run_healthy. destruct (files w !! path) as [content|] eqn:Hfile.
  - cbn [negb]. run_healthy.
    destruct (includes content "AGENTS.md"); cbn [negb]; run_healthy;
      eexists; (split; [reflexivity|]); done.
  - destruct (bool_decide (path ∈ dirs w)); cbn [negb]; run_healthy.
    + rewrite readFile_healthy_missing by done. unfold console_warn.
      eexists; (split; [reflexivity|]); done.
    + eexists; (split; [reflexivity|]); done.
Qed.

Lemma ensureCopilotInstructions_healthy projectRoot w :
  healthy w ->
  let dir := path_join [projectRoot; ".github"] in
  let path := path_join [projectRoot; ".github"; "copilot-instructions.md"] in
  exists w',
    CopilotConfigurer.ensureCopilotInstructions projectRoot w = (Returned tt, w') /\
    healthy w' /\ dirs w' = {[dir]} ∪ dirs w /\
    files w'
    = ensured getJumboSectionMarker getCopilotInstructions
        (fun content => content +:+ LF +:+ LF +:+ getCopilotInstructions)
        path (files w) ({[dir]} ∪ dirs w).
Proof.
  intros Hw dir path. unfold CopilotConfigurer.ensureCopilotInstructions.
  fold dir path. cbv zeta.
  unfold ensured. run_healthy. destruct (files w !! path) as [content|] eqn:Hfile.
  - cbn [negb]. run_healthy.
    destruct (includes content getJumboSectionMarker); cbn [negb]; run_healthy;
      eexists; (split; [reflexivity|]); done.
  - destruct (bool_decide (path ∈ {[dir]} ∪ dirs w)); cbn [negb]; run_healthy.
    + rewrite readFile_healthy_missing by done. unfold console_warn.
      eexists; (split; [reflexivity|]); done.
    + eexists; (split; [reflexivity|]); done.
Qed.

Lemma ensureCursorRule_healthy projectRoot w :
  healthy w ->
  let dir := path_join [projectRoot; ".cursor"; "rules"; "jumbo"] in
  let path := path_join [dir; "RULE.md"] in
  exists w',
    CursorConfigurer.ensureCursorRule projectRoot w = (Returned tt, w') /\
    healthy w' /\ dirs w' = {[dir]} ∪ dirs w /\
    files w'
    = ensured getJumboSectionMarker CursorConfigurer.getJumboRuleContent
        (fun _ => CursorConfigurer.getJumboRuleContent)
        path (files w) ({[dir]} ∪ dirs w).
Proof.
  intros Hw dir path. unfold CursorConfigurer.ensureCursorRule.
  fold dir. fold path. cbv zeta.
  unfold ensured. run_healthy. destruct (files w !! path) as [content|] eqn:Hfile.
  - cbn [negb]. run_healthy.
    destruct (includes content getJumboSectionMarker); cbn [negb]; run_healthy;
      eexists; (split; [reflexivity|]); done.
  - destruct (bool_decide (path ∈ {[dir]} ∪ dirs w)); cbn [negb]; run_healthy.
    + rewrite readFile_healthy_missing by done. unfold console_warn.
      eexists; (split; [reflexivity|]); done.
    + eexists; (split; [reflexivity|]); done.
Qed.

End ConfigurersOnHealthyDisk.

Section ConfigurerTheorems.
Import Fs Disk SafeGeminiSettingsMerger.
Context `{AgentInstructions}.

Lemma reference_created :
  includes getAgentFileReference "AGENTS.md" = true ->
  includes (trim getAgentFileReference +:+ LF) "AGENTS.md" = true.
Proof. intros Href. by apply includes_app_l, includes_trim_agents. Qed.

Lemma reference_appended content :
  includes getAgentFileReference "AGENTS.md" = true ->
  includes (trimEnd content +:+ LF +:+ getAgentFileReference) "AGENTS.md" = true.
Proof. intros Href. by do 2 apply includes_app_r. Qed.

Lemma instructions_appended content :
  includes getCopilotInstructions getJumboSectionMarker = true ->
  includes (content +:+ LF +:+ LF +:+ getCopilotInstructions) getJumboSectionMarker = true.
Proof. intros Href. by do 3 apply includes_app_r. Qed.

Lemma rule_content_marked :
  includes getJumboSection getJumboSectionMarker = true ->
  includes CursorConfigurer.getJumboRuleContent getJumboSectionMarker = true.
Proof. intros Href. unfold CursorConfigurer.getJumboRuleContent. by apply includes_app_r. Qed.

(** X19: ensureGeminiMd is idempotent on a disk without faults, provided
    the reference text mentions AGENTS.md: after it has run, GEMINI.md
    (unless that path is a directory) mentions AGENTS.md, and a second
    run changes no file. *)
Theorem ensureGeminiMd_settles (projectRoot : string) (w : World) :
  healthy w ->
  includes getAgentFileReference "AGENTS.md" = true ->
  exists w1 w2,
    GeminiConfigurer.ensureGeminiMd projectRoot w = (Returned tt, w1) /\
    (path_join [projectRoot; "GEMINI.md"] ∉ dirs w ->
     exists content,
       files w1 !! path_join [projectRoot; "GEMINI.md"] = Some content /\
       includes content "AGENTS.md" = true) /\
    GeminiConfigurer.ensureGeminiMd projectRoot w1 = (Returned tt, w2) /\
    files w2 = files w1.
Proof.
  intros Hw Href.
  destruct (ensureGeminiMd_healthy projectRoot w Hw) as (w1 & Hrun1 & Hw1 & Hdirs1 & Hfiles1).
  destruct (ensureGeminiMd_healthy projectRoot w1 Hw1) as (w2 & Hrun2 & _ & _ & Hfiles2).
  exists w1, w2. split; [done|].
  pose proof (reference_created Href) as Hcreate.
  pose proof (fun content => reference_appended content Href) as Hamend.
  split; [|split; [done|]].
  - intros Hdir. rewrite Hfiles1. by apply ensured_installs.
  - rewrite Hfiles2. apply settled_ensured. rewrite Hfiles1, Hdirs1.
    by apply ensured_settled.
Qed.

(** X20: the Copilot configurer is idempotent on a disk without faults
    where .github is a directory, provided the Copilot instructions contain
    the Jumbo section marker: after configure,
    .github/copilot-instructions.md (unless that path is a directory)
    contains the marker, and a second configure changes no file. *)
Theorem copilot_configure_settles (projectRoot : string) (w : World) :
  healthy w ->
  isDirectory w (path_join [projectRoot; ".github"]) ->
  includes getCopilotInstructions getJumboSectionMarker = true ->
  exists w1 w2,
    CopilotConfigurer.configure projectRoot w = (Returned tt, w1) /\
    (path_join [projectRoot; ".github"; "copilot-instructions.md"] ∉ dirs w ->
     exists content,
       files w1 !! path_join [projectRoot; ".github"; "copilot-instructions.md"]
       = Some content /\
       includes content getJumboSectionMarker = true) /\
    CopilotConfigurer.configure projectRoot w1 = (Returned tt, w2) /\
    files w2 = files w1.
Proof.
  intros Hw [_ Hthere] Href. unfold CopilotConfigurer.configure.
  destruct (ensureCopilotInstructions_healthy projectRoot w Hw)
    as (w1 & Hrun1 & Hw1 & Hdirs1 & Hfiles1).
  destruct (ensureCopilotInstructions_healthy projectRoot w1 Hw1)
    as (w2 & Hrun2 & _ & _ & Hfiles2).
  exists w1, w2. split; [done|].
  pose proof (fun content => instructions_appended content Href) as Hamend.
  split; [|split; [done|]].
  - intros Hdir. rewrite Hfiles1. apply ensured_installs; [done..|].
    intros [Hin%elem_of_singleton|Hin]%elem_of_union; [|done]. by rewrite Hin in Hdir.
  - rewrite Hfiles2. apply settled_ensured. rewrite Hfiles1, Hdirs1.
    apply ensured_settled_mono; [done..|apply union_subseteq_r].
Qed.

Lemma cursor_paths_differ projectRoot :
  path_join [projectRoot; "CURSOR.md"]
  <> path_join [path_join [projectRoot; ".cursor"; "rules"; "jumbo"]; "RULE.md"].
Proof.
  destruct (path_join_last [projectRoot] "CURSOR.md") as [md Hmd]; [done..|].
  destruct (path_join_last [path_join [projectRoot; ".cursor"; "rules"; "jumbo"]] "RULE.md")
    as [rule Hrule]; [done..|].
  cbn [app] in Hmd, Hrule. rewrite Hmd, Hrule.
  intros Heq%(f_equal string_rev). rewrite !string_rev_app in Heq.
  change (string_rev "CURSOR.md") with "dm.ROSRUC" in Heq.
  change (string_rev "RULE.md") with "dm.ELUR" in Heq.
  rewrite !string_app_cons in Heq. discriminate Heq.
Qed.

(** X21: the Cursor configurer is idempotent on a disk without faults
    where .cursor/rules/jumbo is a directory, provided the reference text
    mentions AGENTS.md and the Jumbo section contains its marker: after
    configure, CURSOR.md mentions AGENTS.md and the rule file contains the
    marker (unless the path is a directory), and a second configure changes
    no file. *)
Theorem cursor_configure_settles (projectRoot : string) (w : World) :
  healthy w ->
  isDirectory w (path_join [projectRoot; ".cursor"; "rules"; "jumbo"]) ->
  includes getAgentFileReference "AGENTS.md" = true ->
  includes getJumboSection getJumboSectionMarker = true ->
  exists w1 w2,
    CursorConfigurer.configure projectRoot w = (Returned tt, w1) /\
    (path_join [projectRoot; "CURSOR.md"] ∉ dirs w ->
     exists content,
       files w1 !! path_join [projectRoot; "CURSOR.md"] = Some content /\
       includes content "AGENTS.md" = true) /\
    (path_join [path_join [projectRoot; ".cursor"; "rules"; "jumbo"]; "RULE.md"] ∉ dirs w ->
     exists content,
       files w1 !! path_join [path_join [projectRoot; ".cursor"; "rules"; "jumbo"]; "RULE.md"]
       = Some content /\
       includes content getJumboSectionMarker = true) /\
    CursorConfigurer.configure projectRoot w1 = (Returned tt, w2) /\
    files w2 = files w1.
Proof.
  intros Hw [_ Hthere] Href Hsection. unfold CursorConfigurer.configure.
  unfold mbind, prog_bind, bind.
  pose proof (cursor_paths_differ projectRoot) as Hne.
  set (md := path_join [projectRoot; "CURSOR.md"]) in *.
  set (dir := path_join [projectRoot; ".cursor"; "rules"; "jumbo"]) in *.
  set (rule := path_join [dir; "RULE.md"]) in *.
  destruct (ensureCursorMd_healthy projectRoot w Hw) as (wa & Hrun1 & Hwa & Hdirsa & Hfilesa).
  destruct (ensureCursorRule_healthy projectRoot wa Hwa)
    as (w1 & Hrun2 & Hw1 & Hdirs1 & Hfiles1).
  destruct (ensureCursorMd_healthy projectRoot w1 Hw1) as (wb & Hrun3 & Hwb & Hdirsb & Hfilesb).
  destruct (ensureCursorRule_healthy projectRoot wb Hwb)
    as (w2 & Hrun4 & _ & _ & Hfiles2).
  fold md in Hfilesa, Hfilesb. fold dir in Hfiles1, Hfiles2, Hdirs1.
  fold rule in Hfiles1, Hfiles2.
  rewrite Hrun1, Hrun2. exists w1. rewrite Hrun3, Hrun4. exists w2.
  split; [done|].
  pose proof (reference_created Href) as Hcreate.
  pose proof (fun content => reference_appended content Href) as Hamend.
  pose proof (rule_content_marked Hsection) as Hrule.
  assert (settled "AGENTS.md" md (files w1) (dirs w1)) as Hmd.
  { eapply settled_mono;
      [exact (ensured_settled _ _ _ md (files w) (dirs w) Hcreate Hamend)| |].
    - rewrite Hfiles1, ensured_other by done. by rewrite Hfilesa.
    - rewrite Hdirs1, Hdirsa. apply union_subseteq_r. }
  assert (settled getJumboSectionMarker rule (files w1) (dirs w1)) as Hrl.
  { rewrite Hfiles1, Hdirs1. by apply ensured_settled. }
  split; [|split; [|split; [done|]]].
  - intros Hdir. rewrite Hfiles1, ensured_other by done.
    rewrite Hfilesa. by apply ensured_installs.
  - intros Hdir. rewrite Hfiles1. apply ensured_installs; [done..|].
    rewrite Hdirsa.
    intros [Hin%elem_of_singleton|Hin]%elem_of_union; [|done]. by rewrite Hin in Hdir.
  - rewrite Hfiles2, Hfilesb, Hdirsb.
    rewrite (settled_ensured "AGENTS.md" _ _ md) by done.
    apply settled_ensured. eapply settled_mono; [exact Hrl|done|].
    apply union_subseteq_r.
Qed.

(** X22: on a disk without faults the configurers add to the ASCII text
    they find and never overwrite it: GEMINI.md and CURSOR.md keep their
    old content up to its trailing white space, and
    .github/copilot-instructions.md keeps its old content in full, as the
    beginning of the new content. *)
Theorem configurers_keep_existing_text (projectRoot : string) (w : World) :
  healthy w ->
  (forall old, files w !! path_join [projectRoot; "GEMINI.md"] = Some old ->
     isAscii old = true ->
     exists w' tail,
       GeminiConfigurer.ensureGeminiMd projectRoot w = (Returned tt, w') /\
       files w' !! path_join [projectRoot; "GEMINI.md"] = Some (trimEnd old +:+ tail)) /\
  (forall old, files w !! path_join [projectRoot; "CURSOR.md"] = Some old ->
     isAscii old = true ->
     exists w' tail,
       CursorConfigurer.ensureCursorMd projectRoot w = (Returned tt, w') /\
       files w' !! path_join [projectRoot; "CURSOR.md"] = Some (trimEnd old +:+ tail)) /\
  (forall old,
     files w !! path_join [projectRoot; ".github"; "copilot-instructions.md"] = Some old ->
     isAscii old = true ->
     exists w' tail,
       CopilotConfigurer.configure projectRoot w = (Returned tt, w') /\
       files w' !! path_join [projectRoot; ".github"; "copilot-instructions.md"]
       = Some (old +:+ tail)).
Proof.
  intros Hw. split; [|split]; intros old Hold _.
  - destruct (ensureGeminiMd_healthy projectRoot w Hw) as (w' & Hrun & _ & _ & Hfiles).
    exists w'. rewrite Hfiles. unfold ensured. cbv zeta. rewrite Hold.
    destruct (includes old "AGENTS.md").
    + destruct (trimEnd_prefix old) as [tail Htail]. exists tail. by rewrite <- Htail.
    + eexists. split; [done|]. by rewrite lookup_insert_eq.
  - destruct (ensureCursorMd_healthy projectRoot w Hw) as (w' & Hrun & _ & _ & Hfiles).
    exists w'. rewrite Hfiles. unfold ensured. cbv zeta. rewrite Hold.
    destruct (includes old "AGENTS.md").
    + destruct (trimEnd_prefix old) as [tail Htail]. exists tail. by rewrite <- Htail.
    + eexists. split; [done|]. by rewrite lookup_insert_eq.
  - destruct (ensureCopilotInstructions_healthy projectRoot w Hw)
      as (w' & Hrun & _ & _ & Hfiles).
    exists w'. unfold CopilotConfigurer.configure. rewrite Hfiles. unfold ensured.
    cbv zeta. rewrite Hold.
    destruct (includes old getJumboSectionMarker).
    + exists "". by rewrite string_app_nil_r.
    + eexists. split; [done|]. by rewrite lookup_insert_eq.
Qed.

(** X23: on a disk without faults, a rule file that lacks the Jumbo
    section marker is not amended but replaced: afterwards it holds the
    generated rule content and nothing of what it held; a rule file with
    the marker is left as it is. *)
Theorem ensureCursorRule_replaces_unmarked_rule
    (projectRoot : string) (w : World) (old : string) :
  healthy w ->
  files w !! path_join [path_join [projectRoot; ".cursor"; "rules"; "jumbo"]; "RULE.md"]
  = Some old ->
  exists w',
    CursorConfigurer.ensureCursorRule projectRoot w = (Returned tt, w') /\
    files w' !! path_join [path_join [projectRoot; ".cursor"; "rules"; "jumbo"]; "RULE.md"]
    = Some (if includes old getJumboSectionMarker
            then old else CursorConfigurer.getJumboRuleContent).
Proof.
  intros Hw Hold.
  destruct (ensureCursorRule_healthy projectRoot w Hw) as (w' & Hrun & _ & _ & Hfiles).
  exists w'. split; [done|]. rewrite Hfiles. unfold ensured. cbv zeta. rewrite Hold.
  destruct (includes old getJumboSectionMarker); [done|]. by rewrite lookup_insert_eq.
Qed.

End ConfigurerTheorems.

Section ConfigurerFrame.
Import Fs Disk SafeGeminiSettingsMerger.
Context `{AgentInstructions} `{JSON}.

Lemma confined_ensureGeminiMd paths projectRoot :
  In (path_join [projectRoot; "GEMINI.md"]) paths ->
  confined paths (GeminiConfigurer.ensureGeminiMd projectRoot).
Proof. intros Hin. unfold GeminiConfigurer.ensureGeminiMd. confine. Qed.

Lemma confined_copilot_configure paths projectRoot :
  In (path_join [projectRoot; ".github"; "copilot-instructions.md"]) paths ->
  confined paths (CopilotConfigurer.configure projectRoot).
Proof.
  intros Hin.
  unfold CopilotConfigurer.configure, CopilotConfigurer.ensureCopilotInstructions.
  confine.
Qed.

Lemma confined_cursor_configure paths projectRoot :
  In (path_join [projectRoot; "CURSOR.md"]) paths ->
  In (path_join [path_join [projectRoot; ".cursor"; "rules"; "jumbo"]; "RULE.md"]) paths ->
  confined paths (CursorConfigurer.configure projectRoot).
Proof.
  intros Hmd Hrule.
  unfold CursorConfigurer.configure, CursorConfigurer.ensureCursorMd,
    CursorConfigurer.ensureCursorRule.
  confine.
Qed.

(** X24: whatever faults the file operations meet, each configurer changes
    no file but its own: the Gemini configurer GEMINI.md, the settings
    file and its backup (neither of the two being a directory); the Copilot
    configurer .github/copilot-instructions.md; the Cursor configurer
    CURSOR.md and .cursor/rules/jumbo/RULE.md. *)
Theorem configurers_touch_only_their_files (projectRoot p : string) (w : World) :
  (settingsPathOf projectRoot ∉ dirs w ->
   backupPathOf projectRoot (now w) ∉ dirs w ->
   p <> path_join [projectRoot; "GEMINI.md"] ->
   p <> settingsPathOf projectRoot ->
   p <> backupPathOf projectRoot (now w) ->
   files (GeminiConfigurer.configure projectRoot w).2 !! p = files w !! p) /\
  (p <> path_join [projectRoot; ".github"; "copilot-instructions.md"] ->
   files (CopilotConfigurer.configure projectRoot w).2 !! p = files w !! p) /\
  (p <> path_join [projectRoot; "CURSOR.md"] ->
   p <> path_join [path_join [projectRoot; ".cursor"; "rules"; "jumbo"]; "RULE.md"] ->
   files (CursorConfigurer.configure projectRoot w).2 !! p = files w !! p).
Proof.
  split; [|split].
  - intros _ _ Hmd Hsettings Hbackup.
    unfold GeminiConfigurer.configure, GeminiConfigurer.ensureGeminiSettings,
      try_catch, mbind, prog_bind, bind.
    destruct (GeminiConfigurer.ensureGeminiMd projectRoot w) as [o1 w1] eqn:Hfirst.
    apply (confined_ensureGeminiMd [path_join [projectRoot; "GEMINI.md"]]) in Hfirst
      as [Hnow Hfiles]; [|by left].
    assert (files w1 !! p = files w !! p) as Hkept.
    { apply Hfiles. cbn [In]. intros [?|[]]. congruence. }
    destruct o1 as [[]|e]; [|done].
    destruct (mergeSettings projectRoot GeminiConfigurer.jumboHook w1)
      as [[[]|e] w2] eqn:Hmerge;
      apply (mergeSettings_frame _ _ _ _ _ p) in Hmerge; try done; try congruence.
    all: cbn; congruence.
  - intros Hpath.
    destruct (CopilotConfigurer.configure projectRoot w) as [o w'] eqn:Hrun.
    apply (confined_copilot_configure
             [path_join [projectRoot; ".github"; "copilot-instructions.md"]]) in Hrun
      as [_ Hfiles]; [|by left].
    apply Hfiles. cbn [In]. intros [?|[]]. congruence.
  - intros Hmd Hrule.
    destruct (CursorConfigurer.configure projectRoot w) as [o w'] eqn:Hrun.
    apply (confined_cursor_configure
             [path_join [projectRoot; "CURSOR.md"];
              path_join [path_join [projectRoot; ".cursor"; "rules"; "jumbo"]; "RULE.md"]])
      in Hrun as [_ Hfiles]; [|by left|right; by left].
    apply Hfiles. cbn [In]. intros [?|[?|[]]]; congruence.
Qed.

End ConfigurerFrame.

Section FurtherConfigurerScenarios.
Import Fs Disk SafeGeminiSettingsMerger Scenario MoreScenarios.

Lemma ensureGeminiMd_settles_witness :
  healthy (project [] []) /\
  includes (@getAgentFileReference instructions) "AGENTS.md" = true /\
  exists w1 w2,
    @GeminiConfigurer.ensureGeminiMd instructions "/proj" (project [] [])
    = (Returned tt, w1) /\
    (path_join ["/proj"; "GEMINI.md"] ∉ dirs (project [] []) ->
     exists content,
       files w1 !! path_join ["/proj"; "GEMINI.md"] = Some content /\
       includes content "AGENTS.md" = true) /\
    @GeminiConfigurer.ensureGeminiMd instructions "/proj" w1 = (Returned tt, w2) /\
    files w2 = files w1.
Proof.
  split; [reflexivity|]. split; [reflexivity|].
  exact (@ensureGeminiMd_settles instructions "/proj" (project [] []) eq_refl eq_refl).
Defined.

(** Settles that a directory of a disk that is known is there. *)
Ltac is_directory :=
  split; [vm_compute; reflexivity | apply (bool_decide_unpack _); vm_compute; exact I].

Lemma copilot_configure_settles_witness :
  healthy ownFiles /\
  isDirectory ownFiles "/proj/.github" /\
  includes (@getCopilotInstructions instructions) (@getJumboSectionMarker instructions)
  = true /\
  exists w1 w2,
    @CopilotConfigurer.configure instructions "/proj" ownFiles = (Returned tt, w1) /\
    (path_join ["/proj"; ".github"; "copilot-instructions.md"] ∉ dirs ownFiles ->
     exists content,
       files w1 !! path_join ["/proj"; ".github"; "copilot-instructions.md"]
       = Some content /\
       includes content (@getJumboSectionMarker instructions) = true) /\
    @CopilotConfigurer.configure instructions "/proj" w1 = (Returned tt, w2) /\
    files w2 = files w1.
Proof.
  assert (Hthere : isDirectory ownFiles (path_join ["/proj"; ".github"])) by is_directory.
  split; [reflexivity|]. split; [exact Hthere|]. split; [reflexivity|].
  exact (@copilot_configure_settles instructions "/proj" ownFiles eq_refl Hthere eq_refl).
Defined.

Lemma cursor_configure_settles_witness :
  healthy ownFiles /\
  isDirectory ownFiles "/proj/.cursor/rules/jumbo" /\
  includes (@getAgentFileReference instructions) "AGENTS.md" = true /\
  includes (@getJumboSection instructions) (@getJumboSectionMarker instructions) = true /\
  exists w1 w2,
    @CursorConfigurer.configure instructions "/proj" ownFiles = (Returned tt, w1) /\
    (path_join ["/proj"; "CURSOR.md"] ∉ dirs ownFiles ->
     exists content,
       files w1 !! path_join ["/proj"; "CURSOR.md"] = Some content /\
       includes content "AGENTS.md" = true) /\
    (path_join [path_join ["/proj"; ".cursor"; "rules"; "jumbo"]; "RULE.md"]
       ∉ dirs ownFiles ->
     exists content,
       files w1 !! path_join [path_join ["/proj"; ".cursor"; "rules"; "jumbo"]; "RULE.md"]
       = Some content /\
       includes content (@getJumboSectionMarker instructions) = true) /\
    @CursorConfigurer.configure instructions "/proj" w1 = (Returned tt, w2) /\
    files w2 = files w1.
Proof.
  assert (Hthere : isDirectory ownFiles (path_join ["/proj"; ".cursor"; "rules"; "jumbo"]))
    by is_directory.
  split; [reflexivity|]. split; [exact Hthere|]. split; [reflexivity|]. split; [reflexivity|].
  exact (@cursor_configure_settles instructions "/proj" ownFiles eq_refl Hthere
           eq_refl eq_refl).
Defined.

Lemma configurers_keep_existing_text_witness :
  healthy ownFiles /\
  files ownFiles !! "/proj/GEMINI.md" = Some ("# Gemini notes" +:+ LF +:+ LF) /\
  isAscii ("# Gemini notes" +:+ LF +:+ LF) = true /\
  files ownFiles !! "/proj/.github/copilot-instructions.md" = Some "Use tabs." /\
  isAscii "Use tabs." = true /\
  (exists w' tail,
     @GeminiConfigurer.ensureGeminiMd instructions "/proj" ownFiles = (Returned tt, w') /\
     files w' !! "/proj/GEMINI.md" = Some ("# Gemini notes" +:+ tail)) /\
  (exists w' tail,
     @CopilotConfigurer.configure instructions "/proj" ownFiles = (Returned tt, w') /\
     files w' !! "/proj/.github/copilot-instructions.md" = Some ("Use tabs." +:+ tail)).
Proof.
  assert (Hnotes : files ownFiles !! path_join ["/proj"; "GEMINI.md"]
                   = Some ("# Gemini notes" +:+ LF +:+ LF)) by (vm_compute; reflexivity).
  assert (Hold : files ownFiles !! path_join ["/proj"; ".github"; "copilot-instructions.md"]
                 = Some "Use tabs.") by (vm_compute; reflexivity).
  split; [reflexivity|]. split; [exact Hnotes|]. split; [reflexivity|].
  split; [exact Hold|]. split; [reflexivity|].
  pose proof (@configurers_keep_existing_text instructions "/proj" ownFiles eq_refl)
    as (Hgemini & _ & Hcopilot).
  split; [exact (Hgemini _ Hnotes eq_refl)|exact (Hcopilot _ Hold eq_refl)].
Defined.

Lemma ensureCursorRule_replaces_unmarked_rule_witness :
  healthy ownFiles /\
  files ownFiles !! "/proj/.cursor/rules/jumbo/RULE.md" = Some "old rule" /\
  exists w',
    @CursorConfigurer.ensureCursorRule instructions "/proj" ownFiles = (Returned tt, w') /\
    files w' !! "/proj/.cursor/rules/jumbo/RULE.md"
    = Some (if includes "old rule" (@getJumboSectionMarker instructions)
            then "old rule" else @CursorConfigurer.getJumboRuleContent instructions).
Proof.
  assert (Hold : files ownFiles
                   !! path_join [path_join ["/proj"; ".cursor"; "rules"; "jumbo"]; "RULE.md"]
                 = Some "old rule") by (vm_compute; reflexivity).
  split; [reflexivity|]. split; [exact Hold|].
  exact (@ensureCursorRule_replaces_unmarked_rule instructions "/proj" ownFiles
           "old rule" eq_refl Hold).
Defined.

(** What the three configurers leave of the user's own files. *)
Example configurers_on_own_files :
  files (@GeminiConfigurer.ensureGeminiMd instructions "/proj" ownFiles).2
    !! "/proj/GEMINI.md"
  = Some ("# Gemini notes" +:+ LF +:+ "See AGENTS.md for instructions on using Jumbo.") /\
  files (@CopilotConfigurer.configure instructions "/proj" ownFiles).2
    !! "/proj/.github/copilot-instructions.md"
  = Some ("Use tabs." +:+ LF +:+ LF +:+
          "<!-- jumbo:instructions --> Run jumbo session start.") /\
  files (@CursorConfigurer.configure instructions "/proj" ownFiles).2
    !! "/proj/.cursor/rules/jumbo/RULE.md"
  = Some (@CursorConfigurer.getJumboRuleContent instructions) /\
  files (@CursorConfigurer.configure instructions "/proj" ownFiles).2 !! "/proj/README.md"
  = Some "# Project".
Proof. repeat split; vm_compute; reflexivity. Qed.

End FurtherConfigurerScenarios.

(** ** The namespace migrations table *)

Section MigrationPaths.
Import Migrations.

(** Node's [path.join]. *)
Context (path_join : list string -> string).

(** X25: for every infrastructure directory, getNamespaceMigrations lists
    thirteen namespaces, no namespace twice, and the path of each is
    path.join of the directory and the namespace followed by /migrations. *)
Theorem getNamespaceMigrations_paths (infrastructureDir : string) :
  length (getNamespaceMigrations path_join infrastructureDir) = 13 /\
  NoDup (map namespace (getNamespaceMigrations path_join infrastructureDir)) /\
  Forall (fun migration =>
            path migration
            = path_join [infrastructureDir; namespace migration +:+ "/migrations"])
    (getNamespaceMigrations path_join infrastructureDir).
Proof.
  split; [reflexivity|]. split.
  - cbn. apply (bool_decide_unpack _). vm_compute. exact I.
  - repeat constructor.
Qed.

End MigrationPaths.
